(** * Online variational Bayes for the author-topic model

    A shallow embedding of [gensim/models/onlineatvb.py] (class [OnlineAtVb]):
    the constructor's configuration checks and author-map derivation, the
    learning-rate schedule [rho], the per-document coordinate ascent of
    [inference] with its blend into the global matrices, the bound
    evaluators [word_bound], [theta_bound] and [beta_bound], the likelihood
    [log_word_prob], and the query [get_author_topics].

    Modelling conventions.
    - numpy [float64] values are idealised as real numbers [R]; rounding,
      overflow and [nan] are outside the model.
    - A 2-d numpy array is a total function [nat -> nat -> R] together with
      the shape kept in the model's configuration; an access outside the
      shape raises [IndexError] in the source, which the model reports
      through explicit guards.
    - A Python [dict] with integer keys is an association list in insertion
      order whose keys are pairwise distinct ([dict_wf]).
    - Python exceptions are values of [exn]; fallible code returns
      [result].  The pure functions of the local solver give the values a
      round computes; the exceptions of the same lines are reported by the
      guards of [check_iteration], in the order of the source. *)

From Stdlib Require Import String.
From Stdlib Require Import Reals Lra Lia List Bool Arith PeanoNat ListSet Sorted.
Import ListNotations.

Local Open Scope R_scope.

(** ** Exceptions and the result monad *)

(** [ComplexRate] is no Python exception: it marks the one place where a
    run leaves the real numbers (line 276 returns a complex learning
    rate), which the model does not follow further. *)
Inductive exn : Type :=
| ValueError (msg : string)
| TypeError (msg : string)
| AttributeError (msg : string)
| KeyError
| IndexError
| ZeroDivisionError
| ComplexRate.

Inductive result (A : Type) : Type :=
| Ok (a : A)
| Raise (e : exn).

Arguments Ok {A} a.
Arguments Raise {A} e.

Definition bind {A B : Type} (r : result A) (f : A -> result B) : result B :=
  match r with
  | Ok a => f a
  | Raise e => Raise e
  end.

Notation "x <- c ;; k" := (bind c (fun x => k))
  (at level 61, c at next level, right associativity).
Notation "c ;;; k" := (bind c (fun _ => k))
  (at level 61, right associativity).

Definition guard (b : bool) (e : exn) : result unit :=
  if b then Ok tt else Raise e.

(** ** Python dictionaries with integer keys *)

Section Dict.
Context {V : Type}.

Definition dict := list (nat * V).

Fixpoint dict_get (m : dict) (k : nat) : option V :=
  match m with
  | [] => None
  | (k', v) :: r => if (k' =? k)%nat then Some v else dict_get r k
  end.

(** [m[k] = v]: overwrite in place, or append a new key. *)
Fixpoint dict_set (m : dict) (k : nat) (v : V) : dict :=
  match m with
  | [] => [(k, v)]
  | (k', v') :: r =>
      if (k' =? k)%nat then (k', v) :: r else (k', v') :: dict_set r k v
  end.

Definition dict_keys (m : dict) : list nat := map fst m.

Definition dict_wf (m : dict) : Prop := NoDup (dict_keys m).

(** [dict(pairs)]: later pairs win. *)
Definition dict_of_pairs (l : list (nat * V)) : dict :=
  fold_left (fun m kv => dict_set m (fst kv) (snd kv)) l [].

End Dict.

Arguments dict V : clear implicits.

(** [x in l] on a Python list of integers. *)
Definition mem (x : nat) (l : list nat) : bool := existsb (Nat.eqb x) l.

(** [x] is listed under key [k] of the map [m]. *)
Definition listed (m : dict (list nat)) (k x : nat) : Prop :=
  exists l, dict_get m k = Some l /\ In x l.

(** ** Derivation of the missing author map ([__init__], lines 74-98) *)

(** Lines 78-81: the authors whose document list contains [d]. *)
Definition authors_of (author2doc : dict (list nat)) (d : nat) : list nat :=
  fold_left
    (fun author_ids (item : nat * list nat) =>
       let (a, a_doc_ids) := item in
       if mem d a_doc_ids then author_ids ++ [a] else author_ids)
    author2doc [].

(** Lines 76-82, for a corpus of [n] documents. *)
Definition make_doc2author (n : nat) (author2doc : dict (list nat))
  : dict (list nat) :=
  fold_left (fun doc2author d => dict_set doc2author d (authors_of author2doc d))
    (seq 0 n) [].

(** Lines 87-90: the set of all author ids found in [doc2author]. *)
Definition authors_ids (doc2author : dict (list nat)) : set nat :=
  fold_left
    (fun s (item : nat * list nat) =>
       fold_left (fun s a => set_add Nat.eq_dec a s) (snd item) s)
    doc2author (empty_set nat).

(** [author2doc[a].append(d)]. *)
Definition dict_append (m : dict (list nat)) (a d : nat) : dict (list nat) :=
  match dict_get m a with
  | Some l => dict_set m a (l ++ [d])
  | None => m
  end.

(** Lines 93-98: one entry per [a] in [range(len(authors_ids))]. *)
Definition make_author2doc (doc2author : dict (list nat)) : dict (list nat) :=
  fold_left
    (fun author2doc a =>
       fold_left
         (fun author2doc (item : nat * list nat) =>
            let (d, a_ids) := item in
            if mem a a_ids then dict_append author2doc a d else author2doc)
         doc2author (dict_set author2doc a []))
    (seq 0 (length (authors_ids doc2author))) [].

(** ** Matrices, accumulation loops and the model's state *)

Definition Matrix := nat -> nat -> R.

(** [m[i, j] = x]. *)
Definition mset (m : Matrix) (i j : nat) (x : R) : Matrix :=
  fun i' j' => if ((i' =? i) && (j' =? j))%nat then x else m i' j'.

(** [acc = 0.0; for x in l: acc += f(x)]. *)
Definition accumulate {A : Type} (f : A -> R) (l : list A) : R :=
  fold_left (fun acc x => acc + f x) l 0.

(** A document is a bag of words: (word id, count) pairs. *)
Definition Doc := list (nat * nat).
Definition Corpus := list Doc.

Definition ids (doc : Doc) : list nat := map fst doc.
Definition cts (doc : Doc) : list nat := map snd doc.

(** [enumerate(l)]. *)
Definition enumerate {A : Type} (l : list A) : list (nat * A) :=
  combine (seq 0 (length l)) l.

(** The attributes of [self] that [inference] and the queries read.
    Lines 116-117 build [self.alpha] and [self.eta] as uniform vectors:
    [alpha] and [eta] are the common entry of each vector.  [self.eta] has
    [num_terms] entries.  [self.alpha] has [len_alpha] entries: as many as
    [self.num_topics] held when line 116 read it, which is before line 122
    assigns the constructor's argument.  Lines 245 and 252 add the whole
    vector to one cell, which numpy accepts for a vector of one entry and
    refuses with a [ValueError] otherwise ([check_iteration]). *)
Record Config : Type := mkConfig {
  corpus : option Corpus;
  num_topics : nat;
  num_terms : nat;
  num_authors : nat;
  alpha : R;
  len_alpha : nat;
  eta : R;
  author2doc : dict (list nat);
  doc2author : dict (list nat);
  iterations : nat;
  passes : nat;
  threshold : R;
  minimum_probability : R;
  decay : R;
  offset : R;
  eval_every : nat
}.

(** The local variables of [inference] that live across documents. *)
Record State : Type := mkState {
  var_gamma : Matrix;
  var_lambda : Matrix;
  tilde_gamma : Matrix;
  tilde_lambda : Matrix;
  var_phi : Matrix;
  Elogtheta : Matrix;
  Elogbeta : Matrix;
  expElogbeta : Matrix;
  t : nat;
  converged : nat
}.

(** [converged = c], every matrix as it is. *)
Definition with_converged (s : State) (c : nat) : State :=
  mkState (var_gamma s) (var_lambda s) (tilde_gamma s) (tilde_lambda s)
    (var_phi s) (Elogtheta s) (Elogbeta s) (expElogbeta s) (t s) c.

(** ** The learning rate (lines 137-138)

    [pow(self.offset + t, -self.decay)].  [rho] is its value on a positive
    base, where [pow] is the real power [Rpower]; [rhot] below is the call
    of line 276 on every base. *)
Definition rho (cfg : Config) (t : nat) : R :=
  Rpower (offset cfg + INR t) (- decay cfg).

Definition is_integer (y : R) : bool :=
  if Req_dec_T (IZR (Int_part y)) y then true else false.

(** Python's [pow] on two floats: the real power on a positive base; on
    the base 0, [ZeroDivisionError] for a negative exponent, 1 for the
    exponent 0 and 0 for a positive one; on a negative base, the signed
    real power for an integral exponent and a complex number otherwise. *)
Definition pow_float (x y : R) : result R :=
  if Rlt_dec 0 x then Ok (Rpower x y)
  else if Rlt_dec x 0 then
    if is_integer y
    then Ok ((if Z.even (Int_part y) then 1 else -1) * Rpower (- x) y)
    else Raise ComplexRate
  else if Rlt_dec y 0 then Raise ZeroDivisionError
  else if Rlt_dec 0 y then Ok 0
  else Ok 1.

(** Line 276: [rhot = self.rho(t)]. *)
Definition rhot (cfg : Config) (t : nat) : result R :=
  pow_float (offset cfg + INR t) (- decay cfg).

(** ** The local variational solver (lines 189-265) *)

(** Lines 189-192: [var_mu] is a dictionary keyed by (word, author); every
    key read later is written here first.  The quotient is the true
    division of Python 3. *)
Definition init_mu (authors_d : list nat) (doc : Doc) : Matrix :=
  fold_left
    (fun var_mu v =>
       fold_left (fun var_mu a => mset var_mu v a (1 / INR (length authors_d)))
         authors_d var_mu)
    (ids doc) (fun _ _ => 0).

(** Line 214: [var_phi[v, :] = var_phi[v, :] / var_phi[v, :].sum()]. *)
Definition normalize_row (K : nat) (m : Matrix) (v : nat) : Matrix :=
  let s := accumulate (fun k => m v k) (seq 0 K) in
  fun i j => if ((i =? v) && (j <? K))%nat then m v j / s else m i j.

(** Lines 202-214, for one word [v]. *)
Definition phi_word (cfg : Config) (s : State) (var_mu : Matrix)
    (authors_d : list nat) (var_phi : Matrix) (v : nat) : Matrix :=
  let var_phi1 :=
    fold_left
      (fun var_phi k =>
         let avgElogtheta :=
           accumulate (fun a => var_mu v a * Elogtheta s a k) authors_d in
         let expavgElogtheta := exp avgElogtheta in
         mset var_phi v k (expavgElogtheta * expElogbeta s k v))
      (seq 0 (num_topics cfg)) var_phi in
  normalize_row (num_topics cfg) var_phi1 v.

(** Lines 201-214. *)
Definition update_phi (cfg : Config) (s : State) (var_mu : Matrix)
    (authors_d : list nat) (doc : Doc) (var_phi : Matrix) : Matrix :=
  fold_left (phi_word cfg s var_mu authors_d) (ids doc) var_phi.

(** Lines 220-236, for one word [v]. *)
Definition mu_word (cfg : Config) (s : State) (var_phi : Matrix)
    (authors_d : list nat) (var_mu : Matrix) (v : nat) : Matrix :=
  let acc :=
    fold_left
      (fun (acc : Matrix * R) a =>
         let avgElogtheta :=
           accumulate (fun k => var_phi v k * Elogtheta s a k)
             (seq 0 (num_topics cfg)) in
         let expavgElogtheta := exp avgElogtheta in
         let var_mu := mset (fst acc) v a expavgElogtheta in
         (var_mu, snd acc + var_mu v a))
      authors_d (var_mu, 0) in
  let mu_norm_const := 1 / snd acc in
  fold_left (fun var_mu a => mset var_mu v a (var_mu v a * mu_norm_const))
    authors_d (fst acc).

(** Lines 217-236. *)
Definition update_mu (cfg : Config) (s : State) (var_phi : Matrix)
    (authors_d : list nat) (doc : Doc) (var_mu : Matrix) : Matrix :=
  fold_left (mu_word cfg s var_phi authors_d) (ids doc) var_mu.

(** [len(self.author2doc[a])]; a missing key is a [KeyError], reported by
    [check_gamma] below. *)
Definition author_len (cfg : Config) (a : nat) : nat :=
  match dict_get (author2doc cfg) a with
  | Some docs => length docs
  | None => 0%nat
  end.

(** Lines 241-245, for one author [a] and one topic [k]: the value the
    cell holds when line 245 succeeds, that is when [self.alpha] has one
    entry, which is then [alpha]; otherwise line 245 raises the
    [ValueError] of [check_gamma]. *)
Definition gamma_entry (cfg : Config) (var_mu var_phi : Matrix) (doc : Doc)
    (tilde_gamma : Matrix) (a k : nat) : Matrix :=
  let tg1 := mset tilde_gamma a k 0 in
  let tg2 :=
    fold_left
      (fun tg (vc : nat * nat) =>
         let (v, c) := vc in
         mset tg a k (tg a k + INR c * var_mu v a * var_phi v k))
      (combine (ids doc) (cts doc)) tg1 in
  let tg3 := mset tg2 a k (tg2 a k * INR (author_len cfg a)) in
  mset tg3 a k (tg3 a k + alpha cfg).

(** Lines 239-245. *)
Definition update_gamma (cfg : Config) (var_mu var_phi : Matrix)
    (authors_d : list nat) (doc : Doc) (tilde_gamma : Matrix) : Matrix :=
  fold_left
    (fun tg a =>
       fold_left (fun tg k => gamma_entry cfg var_mu var_phi doc tg a k)
         (seq 0 (num_topics cfg)) tg)
    authors_d tilde_gamma.

(** [dict(doc).get(v, 0)]. *)
Definition doc_count (doc : Doc) (v : nat) : nat :=
  match dict_get (dict_of_pairs doc) v with
  | Some cnt => cnt
  | None => 0%nat
  end.

(** Lines 249-252: the assignment targets [var_lambda].  The values are
    those the cells hold when line 252 succeeds, that is when [self.eta]
    has one entry ([num_terms = 1]), which is then [eta]; otherwise line
    252 raises the [ValueError] of [check_iteration]. *)
Definition update_lambda (cfg : Config) (num_docs : nat) (var_phi : Matrix)
    (doc : Doc) (var_lambda : Matrix) : Matrix :=
  fold_left
    (fun vl k =>
       fold_left
         (fun vl v =>
            let cnt := doc_count doc v in
            mset vl k v (eta cfg + INR num_docs * INR cnt * var_phi v k))
         (ids doc) vl)
    (seq 0 (num_topics cfg)) var_lambda.

(** Lines 200-252: one round of the coordinate ascent. *)
Definition iteration_body (cfg : Config) (num_docs : nat)
    (authors_d : list nat) (doc : Doc) (s : State) (var_mu : Matrix)
  : State * Matrix :=
  let var_phi' := update_phi cfg s var_mu authors_d doc (var_phi s) in
  let var_mu' := update_mu cfg s var_phi' authors_d doc var_mu in
  let tilde_gamma' :=
    update_gamma cfg var_mu' var_phi' authors_d doc (tilde_gamma s) in
  let var_lambda' := update_lambda cfg num_docs var_phi' doc (var_lambda s) in
  (mkState (var_gamma s) var_lambda' tilde_gamma' (tilde_lambda s) var_phi'
     (Elogtheta s) (Elogbeta s) (expElogbeta s) (t s) (converged s),
   var_mu').

(** [numpy.mean(abs(m1 - m2)) < threshold] over a [rows] x [cols] array;
    the mean of an empty array compares false. *)
Definition meanchange (rows cols : nat) (m1 m2 : Matrix) : R :=
  accumulate
    (fun i => accumulate (fun j => Rabs (m1 i j - m2 i j)) (seq 0 cols))
    (seq 0 rows)
  / INR (rows * cols).

Definition meanchange_below (rows cols : nat) (m1 m2 : Matrix) (thr : R) : bool :=
  if (rows * cols =? 0)%nat then false
  else if Rlt_dec (meanchange rows cols m1 m2) thr then true else false.

(** Lines 194-265: [n] rounds remain, [iteration] is the loop index. *)
Fixpoint iterate (cfg : Config) (num_docs : nat) (authors_d : list nat)
    (doc : Doc) (n iteration : nat) (s : State) (var_mu : Matrix)
  : State * Matrix :=
  match n with
  | O => (s, var_mu)
  | S n' =>
      let lastgamma := tilde_gamma s in
      let lastlambda := tilde_lambda s in
      let (s1, var_mu1) := iteration_body cfg num_docs authors_d doc s var_mu in
      if (0 <? iteration)%nat
         && meanchange_below (num_authors cfg) (num_topics cfg)
              (tilde_gamma s1) lastgamma (threshold cfg)
         && meanchange_below (num_topics cfg) (num_terms cfg)
              (tilde_lambda s1) lastlambda (threshold cfg)
      then (with_converged s1 (S (converged s1)), var_mu1)
      else iterate cfg num_docs authors_d doc n' (S iteration) s1 var_mu1
  end.

(** *** The exceptions of one round

    Every round of a document performs the same accesses, so the first
    round decides whether an exception escapes.  The guards follow the
    order of the loops: the [var_phi] update indexes [Elogtheta[a, k]] and
    [var_phi[v, k]], the [var_mu] update divides by [mu_sum] (a Python
    float [0.0] when the document has no author), the [tilde_gamma] update
    indexes [tilde_gamma[a, k]], looks [a] up in [author2doc] and adds the
    vector [self.alpha] to the cell, and the [var_lambda] update assigns
    the vector [self.eta] plus a number to a cell. *)

(** numpy's message when an array of another size than 1 is stored in
    one cell (lines 245 and 252). *)
Definition setitem_msg : string :=
  "setting an array element with a sequence.".

(** numpy's message when two shapes do not broadcast (line 370); numpy
    appends the two shapes, which the model leaves out. *)
Definition broadcast_msg : string :=
  "operands could not be broadcast together with shapes".

(** Lines 239-245, per author, at the first topic: line 241 indexes
    [tilde_gamma[a, k]], line 244 looks [a] up, line 245 stores
    [tilde_gamma[a, k] + self.alpha] in the cell. *)
Fixpoint check_gamma (cfg : Config) (authors_d : list nat) : result unit :=
  match authors_d with
  | [] => Ok tt
  | a :: rest =>
      if (num_authors cfg <=? a)%nat then Raise IndexError
      else match dict_get (author2doc cfg) a with
           | None => Raise KeyError
           | Some _ =>
               guard (len_alpha cfg =? 1)%nat (ValueError setitem_msg) ;;;
               check_gamma cfg rest
           end
  end.

Definition nonempty {A : Type} (l : list A) : bool :=
  match l with [] => false | _ :: _ => true end.

Definition check_iteration (cfg : Config) (authors_d : list nat) (doc : Doc)
  : result unit :=
  guard (negb (nonempty (ids doc)
               && ((0 <? num_topics cfg)%nat
                   && existsb (fun a => (num_authors cfg <=? a)%nat) authors_d
                   || existsb (fun v => (num_terms cfg <=? v)%nat) (ids doc))))
        IndexError ;;;
  guard (negb (nonempty (ids doc) && negb (nonempty authors_d)))
        ZeroDivisionError ;;;
  (if (0 <? num_topics cfg)%nat then check_gamma cfg authors_d else Ok tt) ;;;
  guard (negb (nonempty (ids doc) && (0 <? num_topics cfg)%nat
               && negb (num_terms cfg =? 1)%nat))
        (ValueError setitem_msg).

(** ** The global parameter update (lines 276-286) *)

(** Line 278: [(1 - rhot) * var_gamma + rhot * tilde_gamma], whole array. *)
Definition blend (rhot : R) (m tilde : Matrix) : Matrix :=
  fun i j => (1 - rhot) * m i j + rhot * tilde i j.

(** Line 281: the same on the columns selected by [ids] only.  For an
    empty document [ids] is an array of floats, which is no index: line
    281 then raises the [IndexError] of [process_doc]. *)
Definition blend_columns (rhot : R) (cols : list nat) (m tilde : Matrix)
  : Matrix :=
  fun i j =>
    if mem j cols then (1 - rhot) * m i j + rhot * tilde i j else m i j.

Section Inference.

(** [gensim.models.ldamodel.dirichlet_expectation], applied to an array of
    the given shape; its definition is not part of this file's sources. *)
Variable dirichlet_expectation : nat -> nat -> Matrix -> Matrix.

(** Lines 284-286. *)
Definition refresh (cfg : Config) (s : State) : State :=
  let Elogtheta' :=
    dirichlet_expectation (num_authors cfg) (num_topics cfg) (var_gamma s) in
  let Elogbeta' :=
    dirichlet_expectation (num_topics cfg) (num_terms cfg) (var_lambda s) in
  mkState (var_gamma s) (var_lambda s) (tilde_gamma s) (tilde_lambda s)
    (var_phi s) Elogtheta' Elogbeta' (fun k v => exp (Elogbeta' k v))
    (t s) (converged s).

(** Lines 277-281, with the rate [rhot] of line 276. *)
Definition global_update (rhot : R) (doc : Doc) (s : State) : State :=
  mkState (blend rhot (var_gamma s) (tilde_gamma s))
    (blend_columns rhot (ids doc) (var_lambda s) (tilde_lambda s))
    (tilde_gamma s) (tilde_lambda s) (var_phi s) (Elogtheta s) (Elogbeta s)
    (expElogbeta s) (S (t s)) (converged s).

(** Lines 181-286: the body of the loop over the corpus, for document
    number [d]. *)
Definition process_doc (cfg : Config) (num_docs : nat) (s : State)
    (d : nat) (doc : Doc) : result State :=
  match dict_get (doc2author cfg) d with
  | None => Raise KeyError
  | Some authors_d =>
      (if (0 <? iterations cfg)%nat then check_iteration cfg authors_d doc
       else Ok tt) ;;;
      let var_mu := init_mu authors_d doc in
      let (s1, _) :=
        iterate cfg num_docs authors_d doc (iterations cfg) 0 s var_mu in
      r <- rhot cfg (t s1) ;;
      guard (nonempty (ids doc)
             && forallb (fun v => (v <? num_terms cfg)%nat) (ids doc))
            IndexError ;;;
      Ok (refresh cfg (global_update r doc s1))
  end.

(** Lines 180-286: one pass over the enumerated corpus. *)
Fixpoint run_corpus (cfg : Config) (num_docs : nat)
    (docs : list (nat * Doc)) (s : State) : result State :=
  match docs with
  | [] => Ok s
  | (d, doc) :: rest =>
      s' <- process_doc cfg num_docs s d doc ;;
      run_corpus cfg num_docs rest s'
  end.

(** Lines 329-346: the accesses of [word_bound] over [self.corpus]; its
    value only feeds the log, its exceptions escape [inference]. *)
Definition check_word_bound_doc (cfg : Config) (d : nat) (doc : Doc)
  : result unit :=
  match dict_get (doc2author cfg) d with
  | None => Raise KeyError
  | Some authors_d =>
      guard (negb (nonempty (ids doc) && (0 <? num_topics cfg)%nat
                   && nonempty authors_d
                   && (existsb (fun a => (num_authors cfg <=? a)%nat) authors_d
                       || existsb (fun v => (num_terms cfg <=? v)%nat) (ids doc))))
            IndexError ;;;
      guard (nonempty authors_d) ZeroDivisionError
  end.

Fixpoint check_word_bound_docs (cfg : Config) (docs : list (nat * Doc))
  : result unit :=
  match docs with
  | [] => Ok tt
  | (d, doc) :: rest =>
      check_word_bound_doc cfg d doc ;;; check_word_bound_docs cfg rest
  end.

Definition check_word_bound (cfg : Config) : result unit :=
  match corpus cfg with
  | None => Raise (TypeError "'NoneType' object is not iterable")
  | Some docs => check_word_bound_docs cfg (enumerate docs)
  end.

(** Line 370 of [theta_bound], for each author: [self.alpha], of
    [len_alpha] entries, is combined with a row of [var_gamma], of
    [num_topics] entries; numpy broadcasts the two when they are as long
    or one of them has one entry. *)
Definition check_theta_bound (cfg : Config) : result unit :=
  guard (negb (0 <? num_authors cfg)%nat
         || (len_alpha cfg =? num_topics cfg)%nat
         || (len_alpha cfg =? 1)%nat
         || (num_topics cfg =? 1)%nat)
        (ValueError broadcast_msg).

(** Lines 177-303: [n] passes remain; [converged] restarts at each pass,
    and line 295 computes [_pass % self.eval_every] when the pass ends.
    The bound evaluated at lines 296-298 raises what it raised at lines
    170-172, that is nothing once the passes have started. *)
Fixpoint run_passes (cfg : Config) (c : Corpus) (n : nat) (s : State)
  : result State :=
  match n with
  | O => Ok s
  | S n' =>
      s' <- run_corpus cfg (length c) (enumerate c) (with_converged s 0) ;;
      guard (negb (eval_every cfg =? 0)%nat) ZeroDivisionError ;;;
      run_passes cfg c n' s'
  end.

(** Lines 151-176: the state before the first pass; [init_gamma] and
    [init_lambda] are the two draws of [self.random_state.gamma]. *)
Definition initial_state (cfg : Config) (init_gamma init_lambda : Matrix)
  : State :=
  let Elogbeta0 :=
    dirichlet_expectation (num_topics cfg) (num_terms cfg) init_lambda in
  mkState init_gamma init_lambda init_gamma init_lambda (fun _ _ => 0)
    (dirichlet_expectation (num_authors cfg) (num_topics cfg) init_gamma)
    Elogbeta0 (fun k v => exp (Elogbeta0 k v)) 0 0.

(** Lines 140-314.  Of the evaluation of the bound (lines 170-175 and
    295-301) only the exceptions are kept: those of [word_bound] and of
    [theta_bound]; [beta_bound] combines [self.eta] with [var_lambda],
    whose rows have [num_terms] entries too, and raises nothing.  The
    result is the pair stored in [self.var_gamma] and
    [self.var_lambda]. *)
Definition inference (cfg : Config) (corpus_arg : option Corpus)
    (init_gamma init_lambda : Matrix) : result (Matrix * Matrix) :=
  c <- match corpus_arg with
       | Some c => Ok c
       | None =>
           match corpus cfg with
           | Some c => Ok c
           | None =>
               Raise (AttributeError "'NoneType' object has no attribute 'copy'")
           end
       end ;;
  check_word_bound cfg ;;;
  check_theta_bound cfg ;;;
  s <- run_passes cfg c (passes cfg) (initial_state cfg init_gamma init_lambda) ;;
  Ok (var_gamma s, var_lambda s).

End Inference.

(** ** The constructor (lines 45-135) *)

(** The messages of the three configuration errors (lines 52, 65, 70). *)
Definition no_vocabulary_msg : string :=
  "at least one of corpus/id2word must be specified, to establish input space dimensionality".
Definition empty_vocabulary_msg : string :=
  "cannot compute LDA over an empty collection (no terms)".
Definition no_author_map_msg : string :=
  "at least one of author2doc/doc2author must be specified, to establish input space dimensionality".

Definition configuration_error (e : exn) : Prop :=
  e = ValueError no_vocabulary_msg
  \/ e = ValueError empty_vocabulary_msg
  \/ e = ValueError no_author_map_msg.

(** The arguments of [__init__] that the model reads.  [id2author] only
    names the authors and is left out; [alpha] and [eta] are overwritten at
    lines 116-117 whatever the caller passes. *)
Record Args : Type := mkArgs {
  arg_corpus : option Corpus;
  arg_num_topics : nat;
  arg_id2word : option (dict string);
  arg_author2doc : option (dict (list nat));
  arg_doc2author : option (dict (list nat));
  arg_threshold : R;
  arg_minimum_probability : R;
  arg_iterations : nat;
  arg_passes : nat;
  arg_decay : R;
  arg_offset : R;
  arg_eval_every : nat
}.

(** A constructed model: the attributes of [self] and the two matrices
    stored by [inference]. *)
Record Model : Type := mkModel {
  self : Config;
  self_var_gamma : Matrix;
  self_var_lambda : Matrix
}.

Section Init.

Variable dirichlet_expectation : nat -> nat -> Matrix -> Matrix.

(** [gensim.utils.dict_from_corpus]: the identity vocabulary read off a
    corpus; its definition is not part of this file's sources. *)
Variable dict_from_corpus : Corpus -> dict string.

(** What [self.num_topics] evaluates to at line 116, before line 122
    assigns it: the attribute inherited from the base class [AtVb] (not
    part of this file's sources), or [None] when there is none. *)
Variable class_num_topics : option nat.

(** The two draws of [self.random_state.gamma] (lines 151-154). *)
Variables init_gamma init_lambda : Matrix.

(** Lines 50-62. *)
Definition vocabulary_size (args : Args) : result nat :=
  match arg_corpus args, arg_id2word args with
  | None, None =>
      Raise (ValueError no_vocabulary_msg)
  | Some c, None => Ok (length (dict_from_corpus c))
  | _, Some id2word =>
      Ok (if (0 <? length id2word)%nat
          then (1 + list_max (dict_keys id2word))%nat
          else 0%nat)
  end.

(** Lines 69-101: the pair ([author2doc], [doc2author]). *)
Definition author_maps (args : Args)
  : result (dict (list nat) * dict (list nat)) :=
  match arg_doc2author args, arg_author2doc args with
  | None, None =>
      Raise (ValueError no_author_map_msg)
  | None, Some a2d =>
      match arg_corpus args with
      | None => Raise (TypeError "'NoneType' object is not iterable")
      | Some c => Ok (a2d, make_doc2author (length c) a2d)
      end
  | Some d2a, None => Ok (make_author2doc d2a, d2a)
  | Some d2a, Some a2d => Ok (a2d, d2a)
  end.

(** [__init__], with the steps in the order of the source. *)
Definition __init__ (args : Args) : result Model :=
  num_terms <- vocabulary_size args ;;
  guard (negb (num_terms =? 0)%nat) (ValueError empty_vocabulary_msg) ;;;
  maps <- author_maps args ;;
  topics <- match class_num_topics with
            | Some n => Ok n
            | None =>
                Raise (AttributeError "'OnlineAtVb' object has no attribute 'num_topics'")
            end ;;
  num_docs <- match arg_corpus args with
              | Some c => Ok (length c)
              | None => Raise (TypeError "object of type 'NoneType' has no len()")
              end ;;
  let cfg :=
    mkConfig (arg_corpus args) (arg_num_topics args) num_terms
      (length (fst maps)) (1 / INR topics) topics (1 / INR num_terms)
      (fst maps) (snd maps) (arg_iterations args) (arg_passes args)
      (arg_threshold args) (arg_minimum_probability args)
      (arg_decay args) (arg_offset args) (arg_eval_every args) in
  gl <- inference dirichlet_expectation cfg (arg_corpus args)
          init_gamma init_lambda ;;
  Ok (mkModel cfg (fst gl) (snd gl)).

End Init.

(** ** Queries (lines 437-454) *)

(** [get_author_topics]. *)
Definition get_author_topics (m : Model) (author_id : nat)
    (minimum_probability_arg : option R) : result (list (nat * R)) :=
  let minimum_probability0 :=
    match minimum_probability_arg with
    | None => minimum_probability (self m)
    | Some p => p
    end in
  let minimum_probability1 := Rmax minimum_probability0 1e-8 in
  guard (author_id <? num_authors (self m))%nat IndexError ;;;
  let row := self_var_gamma m author_id in
  let total := accumulate row (seq 0 (num_topics (self m))) in
  let topic_dist := map (fun k => row k / total) (seq 0 (num_topics (self m))) in
  Ok (filter
        (fun item : nat * R =>
           if Rle_dec minimum_probability1 (snd item) then true else false)
        (enumerate topic_dist)).

(** * Notions used in the statements *)

(** ** Closed forms of the updates *)

(** The documents of [l], in order, whose author list contains [a]. *)
Definition docs_of (l : dict (list nat)) (a : nat) : list nat :=
  map fst (filter (fun item : nat * list nat => mem a (snd item)) l).

(** The value written at line 211. *)
Definition phi_unnorm (s : State) (var_mu : Matrix)
    (authors_d : list nat) (v k : nat) : R :=
  exp (accumulate (fun a => var_mu v a * Elogtheta s a k) authors_d)
  * expElogbeta s k v.

(** The divisor of line 214. *)
Definition phi_total (cfg : Config) (s : State) (var_mu : Matrix)
    (authors_d : list nat) (v : nat) : R :=
  accumulate (phi_unnorm s var_mu authors_d v) (seq 0 (num_topics cfg)).

(** The value written at line 230. *)
Definition mu_unnorm (cfg : Config) (s : State) (var_phi : Matrix)
    (v a : nat) : R :=
  exp (accumulate (fun k => var_phi v k * Elogtheta s a k)
         (seq 0 (num_topics cfg))).

(** [mu_sum] when line 234 reads it. *)
Definition mu_total (cfg : Config) (s : State) (var_phi : Matrix)
    (authors_d : list nat) (v : nat) : R :=
  accumulate (mu_unnorm cfg s var_phi v) authors_d.

(** The sum accumulated at lines 242-243 for author [a] and topic [k]. *)
Definition gamma_sum (var_mu var_phi : Matrix) (doc : Doc) (a k : nat) : R :=
  accumulate
    (fun vc : nat * nat => INR (snd vc) * var_mu (fst vc) a * var_phi (fst vc) k)
    doc.

(** ** Predicates *)

(** Every entry of a [rows] x [cols] array is strictly positive. *)
Definition positive (rows cols : nat) (m : Matrix) : Prop :=
  forall i j, (i < rows)%nat -> (j < cols)%nat -> 0 < m i j.

(** The global matrices and the local targets are positive, and
    [expElogbeta] is the exponential of [Elogbeta]. *)
Record positive_state (cfg : Config) (s : State) : Prop := {
  pos_var_gamma : positive (num_authors cfg) (num_topics cfg) (var_gamma s);
  pos_var_lambda : positive (num_topics cfg) (num_terms cfg) (var_lambda s);
  pos_tilde_gamma : positive (num_authors cfg) (num_topics cfg) (tilde_gamma s);
  pos_tilde_lambda : positive (num_topics cfg) (num_terms cfg) (tilde_lambda s);
  exp_in_sync : forall k v, expElogbeta s k v = exp (Elogbeta s k v)
}.

Definition is_ValueError (e : exn) : bool :=
  match e with
  | ValueError _ => true
  | _ => false
  end.

(** ** Sample runs *)

Definition const_matrix (x : R) : Matrix := fun _ _ => x.

(** A stand-in for [dirichlet_expectation] where a run needs one: the
    logarithm of the row-normalised entry.  The statements themselves hold
    for every such function. *)
Definition demo_expectation (rows cols : nat) (m : Matrix) : Matrix :=
  fun i j => ln (m i j) - ln (accumulate (m i) (seq 0 cols)).

(** Two topics, three terms, two authors who share the only document
    [(0, 3), (2, 1)]; two rounds, one pass.  [self.alpha] has two
    entries, [0.5] each, so the first round of the document stops at
    line 245; the values of its [var_phi] and [var_mu] updates are those
    of [iteration_body]. *)
Definition demo_doc : Doc := [(0%nat, 3%nat); (2%nat, 1%nat)].

Definition demo_config : Config :=
  mkConfig (Some [demo_doc]) 2 3 2 (1 / 2) 2 (1 / 3)
    [(0%nat, [0%nat]); (1%nat, [0%nat])] [(0%nat, [0%nat; 1%nat])]
    2 1 (1 / 1000) (1 / 100) (1 / 2) 1 1.

Definition demo_state : State :=
  mkState (const_matrix 1) (const_matrix 1) (const_matrix 1) (const_matrix 1)
    (const_matrix 0) (const_matrix (-1)) (const_matrix (-1))
    (const_matrix (exp (-1))) 0 0.

Definition demo_model : Model :=
  mkModel demo_config (const_matrix 1) (const_matrix 1).

(** The smallest run: one topic, one term, one author, the document
    [(0, 1)], one round, one pass, with the schedule left open.  With a
    single topic and a single term the expected log-probabilities are
    all [0]. *)
Definition unit_doc : Doc := [(0%nat, 1%nat)].

Definition unit_config (offset decay : R) : Config :=
  mkConfig (Some [unit_doc]) 1 1 1 1 1 1 [(0%nat, [0%nat])] [(0%nat, [0%nat])]
    1 1 (1 / 1000) (1 / 100) decay offset 1.

Definition unit_state (g : R) : State :=
  mkState (const_matrix g) (const_matrix 1) (const_matrix g) (const_matrix 1)
    (const_matrix 0) (const_matrix 0) (const_matrix 0) (const_matrix 1) 0 0.

(** A configuration with the given schedule parameters and no document. *)
Definition schedule_config (offset decay : R) : Config :=
  mkConfig None 1 1 1 1 1 1 [] [] 1 1 0 0 decay offset 1.

(** Constructor arguments: one word, the corpus [[(0, 1)]] and the given
    author maps. *)
Definition maps_args (a2d d2a : option (dict (list nat))) : Args :=
  mkArgs (Some [unit_doc]) 1 (Some [(0%nat, "w"%string)]) a2d d2a
    (1 / 1000) (1 / 100) 1 1 (1 / 2) 1 1.

(** No corpus, a one-word vocabulary and [doc2author = {0: [0]}]. *)
Definition no_corpus_args : Args :=
  mkArgs None 1 (Some [(0%nat, "w"%string)]) None (Some [(0%nat, [0%nat])])
    (1 / 1000) (1 / 100) 1 1 (1 / 2) 1 1.

(** The corpus [[(0, 1)]] with its vocabulary, [doc2author = {0: [0]}]
    and [eval_every = 0]. *)
Definition zero_eval_args : Args :=
  mkArgs (Some [unit_doc]) 1 (Some [(0%nat, "w"%string)]) None
    (Some [(0%nat, [0%nat])]) (1 / 1000) (1 / 100) 1 1 (1 / 2) 1 0.

(** An empty corpus with a one-word vocabulary and an empty
    [doc2author]. *)
Definition empty_corpus_args : Args :=
  mkArgs (Some []) 1 (Some [(0%nat, "w"%string)]) None (Some [])
    (1 / 1000) (1 / 100) 1 1 (1 / 2) 1 1.

(** * The bound evaluator and the likelihood (lines 316-423) *)

(** [[self.corpus[d] for d in doc_ids]]. *)
Fixpoint pick_docs (c : option Corpus) (doc_ids : list nat) : result (list Doc) :=
  match doc_ids with
  | [] => Ok []
  | d :: rest =>
      match c with
      | None => Raise (TypeError "'NoneType' object is not subscriptable")
      | Some docs =>
          match nth_error docs d with
          | None => Raise IndexError
          | Some doc => picked <- pick_docs c rest ;; Ok (doc :: picked)
          end
      end
  end.

(** Lines 329-332, 360-363 and 402-405: [docs], which is [self.corpus]
    itself (possibly [None]) when no [doc_ids] are given. *)
Definition select_docs (cfg : Config) (doc_ids : option (list nat))
  : result (option (list Doc)) :=
  match doc_ids with
  | None => Ok (corpus cfg)
  | Some l => picked <- pick_docs (corpus cfg) l ;; Ok (Some picked)
  end.

(** [enumerate(docs)]. *)
Definition enumerate_docs (docs : option (list Doc))
  : result (list (nat * Doc)) :=
  match docs with
  | None => Raise (TypeError "'NoneType' object is not iterable")
  | Some l => Ok (enumerate l)
  end.

(** Lines 341-344: [bound_v] for one word. *)
Definition word_bound_v (cfg : Config) (Elogtheta Elogbeta : Matrix)
    (authors_d : list nat) (v : nat) : R :=
  fold_left
    (fun bound_v k =>
       fold_left (fun bound_v a => bound_v + exp (Elogtheta a k + Elogbeta k v))
         authors_d bound_v)
    (seq 0 (num_topics cfg)) 0.

(** Lines 339-345: [bound_d] for one document. *)
Definition word_bound_d (cfg : Config) (Elogtheta Elogbeta : Matrix)
    (authors_d : list nat) (doc : Doc) : R :=
  fold_left
    (fun bound_d (vc : nat * nat) =>
       let (v, c) := vc in
       bound_d + INR c * ln (word_bound_v cfg Elogtheta Elogbeta authors_d v))
    (combine (ids doc) (cts doc)) 0.

(** Lines 335-346: the loop over the enumerated documents, [bound] being
    the running sum.  The authors are looked up under the position [d] of
    the document in [docs]. *)
Fixpoint word_bound_docs (cfg : Config) (Elogtheta Elogbeta : Matrix)
    (docs : list (nat * Doc)) (bound : R) : result R :=
  match docs with
  | [] => Ok bound
  | (d, doc) :: rest =>
      check_word_bound_doc cfg d doc ;;;
      let authors_d :=
        match dict_get (doc2author cfg) d with
        | Some l => l
        | None => []
        end in
      word_bound_docs cfg Elogtheta Elogbeta rest
        (bound + (ln (1 / INR (length authors_d))
                  + word_bound_d cfg Elogtheta Elogbeta authors_d doc))
  end.

(** [word_bound] (lines 316-354). *)
Definition word_bound (cfg : Config) (Elogtheta Elogbeta : Matrix)
    (doc_ids : option (list nat)) : result R :=
  docs <- select_docs cfg doc_ids ;;
  items <- enumerate_docs docs ;;
  word_bound_docs cfg Elogtheta Elogbeta items 0.

(** Lines 395-400: rows [0 .. rows-1] divided by their sums. *)
Definition normalize_rows (rows cols : nat) (m : Matrix) : Matrix :=
  fold_left
    (fun norm i =>
       fun i' j' =>
         if ((i' =? i) && (j' <? cols))%nat
         then m i j' / accumulate (fun j => m i j) (seq 0 cols)
         else norm i' j')
    (seq 0 rows) m.

(** Lines 414-417: [log_word_prob_v] for one word. *)
Definition log_word_prob_v (cfg : Config) (norm_gamma norm_lambda : Matrix)
    (authors_d : list nat) (v : nat) : R :=
  fold_left
    (fun acc k =>
       fold_left (fun acc a => acc + norm_gamma a k * norm_lambda k v)
         authors_d acc)
    (seq 0 (num_topics cfg)) 0.

Definition log_word_prob_d (cfg : Config) (norm_gamma norm_lambda : Matrix)
    (authors_d : list nat) (doc : Doc) : R :=
  fold_left
    (fun acc (vc : nat * nat) =>
       let (v, c) := vc in
       acc + INR c * ln (log_word_prob_v cfg norm_gamma norm_lambda authors_d v))
    (combine (ids doc) (cts doc)) 0.

Fixpoint log_word_prob_docs (cfg : Config) (norm_gamma norm_lambda : Matrix)
    (docs : list (nat * Doc)) (acc : R) : result R :=
  match docs with
  | [] => Ok acc
  | (d, doc) :: rest =>
      check_word_bound_doc cfg d doc ;;;
      let authors_d :=
        match dict_get (doc2author cfg) d with
        | Some l => l
        | None => []
        end in
      log_word_prob_docs cfg norm_gamma norm_lambda rest
        (acc + (ln (1 / INR (length authors_d))
                + log_word_prob_d cfg norm_gamma norm_lambda authors_d doc))
  end.

(** [log_word_prob] (lines 384-423); its accesses are those of
    [word_bound], on the normalised matrices. *)
Definition log_word_prob (cfg : Config) (var_gamma var_lambda : Matrix)
    (doc_ids : option (list nat)) : result R :=
  let norm_gamma :=
    normalize_rows (num_authors cfg) (num_topics cfg) var_gamma in
  let norm_lambda :=
    normalize_rows (num_topics cfg) (num_terms cfg) var_lambda in
  docs <- select_docs cfg doc_ids ;;
  items <- enumerate_docs docs ;;
  log_word_prob_docs cfg norm_gamma norm_lambda items 0.


Section Bounds.

(** [scipy.special.gammaln]. *)
Variable gammaln : R -> R.




End Bounds.

(** ** Well-formed documents *)

Definition is_some {A : Type} (o : option A) : bool :=
  match o with Some _ => true | None => false end.

(** Document number [d] has an author list that is not empty, every author
    is a row of [var_gamma] and a key of [author2doc], and the document
    has a word and every word id is a column of [var_lambda]. *)
Definition doc_ok (cfg : Config) (d : nat) (doc : Doc) : bool :=
  match dict_get (doc2author cfg) d with
  | None => false
  | Some authors_d =>
      nonempty authors_d
      && forallb
           (fun a => (a <? num_authors cfg)%nat
                     && is_some (dict_get (author2doc cfg) a))
           authors_d
      && (nonempty (ids doc)
          && forallb (fun v => (v <? num_terms cfg)%nat) (ids doc))
  end.

(** [self.alpha] and [self.eta] have one entry each. *)
Definition one_entry_priors (cfg : Config) : bool :=
  ((len_alpha cfg =? 1) && (num_terms cfg =? 1))%nat.

(** The same configuration with another [doc2author]. *)
Definition with_doc2author (cfg : Config) (d2a : dict (list nat)) : Config :=
  mkConfig (corpus cfg) (num_topics cfg) (num_terms cfg) (num_authors cfg)
    (alpha cfg) (len_alpha cfg) (eta cfg) (author2doc cfg) d2a (iterations cfg) (passes cfg)
    (threshold cfg) (minimum_probability cfg) (decay cfg) (offset cfg)
    (eval_every cfg).

(** Every document of the corpus, under its position, is well formed. *)
Definition corpus_ok (cfg : Config) (c : Corpus) : bool :=
  forallb (fun p : nat * Doc => doc_ok cfg (fst p) (snd p)) (enumerate c).

(** ** A corpus of two documents

    One topic, two terms, two authors with one document each: author 0
    wrote [(0, 1)], author 1 wrote [(1, 2)]; one round, two passes. *)
Definition pair_corpus : Corpus :=
  [[(0%nat, 1%nat)]; [(1%nat, 2%nat)]].

Definition pair_config : Config :=
  mkConfig (Some pair_corpus) 1 2 2 1 1 (1 / 2)
    [(0%nat, [0%nat]); (1%nat, [1%nat])] [(0%nat, [0%nat]); (1%nat, [1%nat])]
    1 2 (1 / 1000) (1 / 100) (1 / 2) 1 1.

(** ** Runs the source completes

    Two topics, one term, three authors and two documents: [(0, 3)] by
    the authors 0 and 1, [(0, 1)] by the author 2; two rounds, two passes.
    [self.alpha] has the one entry 1 (the attribute read at line 116
    is 1, the argument [num_topics] is 2) and [self.eta] the one
    entry 1. *)
Definition duo_corpus : Corpus :=
  [[(0%nat, 3%nat)]; [(0%nat, 1%nat)]].

Definition duo_config : Config :=
  mkConfig (Some duo_corpus) 2 1 3 1 1 1
    [(0%nat, [0%nat]); (1%nat, [0%nat]); (2%nat, [1%nat])]
    [(0%nat, [0%nat; 1%nat]); (1%nat, [2%nat])]
    2 2 (1 / 1000) (1 / 100) (1 / 2) 1 1.

(** The state before the first document of a run on [duo_config] from
    the draws 1. *)
Definition duo_state : State :=
  initial_state demo_expectation duo_config (const_matrix 1) (const_matrix 1).

(** One topic, two terms, one author, the document [(0, 1)] and no round
    ([iterations = 0]): each document is only blended. *)
Definition no_round_config : Config :=
  mkConfig (Some [[(0%nat, 1%nat)]]) 1 2 1 1 1 (1 / 2)
    [(0%nat, [0%nat])] [(0%nat, [0%nat])]
    0 1 (1 / 1000) (1 / 100) (1 / 2) 1 1.

(** * Properties *)

(** ** Facts about dictionaries *)

Lemma mem_In (x : nat) (l : list nat) : mem x l = true <-> In x l.
Proof.
  unfold mem. rewrite existsb_exists. split.
  - intros [y [Hy Heq]]. apply Nat.eqb_eq in Heq. now subst.
  - intros H. exists x. split; [assumption | apply Nat.eqb_refl].
Qed.

Lemma dict_get_set {V : Type} (m : dict V) (k k' : nat) (v : V) :
  dict_get (dict_set m k v) k' =
  if (k =? k')%nat then Some v else dict_get m k'.
Proof.
  induction m as [| [k0 v0] r IH]; simpl.
  - reflexivity.
  - destruct (k0 =? k)%nat eqn:E0; simpl.
    + apply Nat.eqb_eq in E0. subst k0.
      destruct (k =? k')%nat; reflexivity.
    + destruct (k0 =? k')%nat eqn:E1.
      * apply Nat.eqb_eq in E1. subst k0.
        rewrite Nat.eqb_sym, E0. reflexivity.
      * apply IH.
Qed.

Lemma dict_get_In {V : Type} (m : dict V) (k : nat) (v : V) :
  dict_get m k = Some v -> In (k, v) m.
Proof.
  induction m as [| [k0 v0] r IH]; simpl; [discriminate |].
  destruct (k0 =? k)%nat eqn:E.
  - apply Nat.eqb_eq in E. intros [= ->]. left. now subst.
  - intros H. right. auto.
Qed.

Lemma In_dict_get {V : Type} (m : dict V) (k : nat) (v : V) :
  dict_wf m -> In (k, v) m -> dict_get m k = Some v.
Proof.
  unfold dict_wf, dict_keys.
  induction m as [| [k0 v0] r IH]; simpl; [contradiction |].
  intros Hnd [Heq | Hin].
  - injection Heq as -> ->. now rewrite Nat.eqb_refl.
  - inversion Hnd as [| ? ? Hnotin Hnd']; subst.
    destruct (k0 =? k)%nat eqn:E.
    + apply Nat.eqb_eq in E. subst k0. exfalso. apply Hnotin.
      change k with (fst (k, v)). now apply in_map.
    + now apply IH.
Qed.

Lemma mem_cons (x y : nat) (l : list nat) :
  mem x (y :: l) = (x =? y)%nat || mem x l.
Proof. reflexivity. Qed.

(** Writing [f d] under every key of [l] in turn. *)
Lemma dict_get_fold_set {V : Type} (f : nat -> V) (l : list nat)
      (m : dict V) (k : nat) :
  dict_get (fold_left (fun m d => dict_set m d (f d)) l m) k =
  if mem k l then Some (f k) else dict_get m k.
Proof.
  revert m. induction l as [| d l IH]; intros m; simpl; [reflexivity |].
  rewrite IH, dict_get_set. unfold mem at 2. simpl. fold (mem k l).
  destruct (mem k l); simpl.
  - now rewrite orb_true_r.
  - rewrite orb_false_r, (Nat.eqb_sym k d).
    destruct (d =? k)%nat eqn:E; [| reflexivity].
    apply Nat.eqb_eq in E. now subst.
Qed.

Lemma mem_seq (k n : nat) : mem k (seq 0 n) = (k <? n)%nat.
Proof.
  destruct (k <? n)%nat eqn:E.
  - apply mem_In, in_seq. apply Nat.ltb_lt in E. lia.
  - destruct (mem k (seq 0 n)) eqn:M; [| reflexivity].
    apply mem_In, in_seq in M. apply Nat.ltb_ge in E. lia.
Qed.

(** ** Facts about the derived maps *)

Lemma authors_of_fold (d : nat) (l : dict (list nat)) (acc : list nat) (a : nat) :
  In a (fold_left
          (fun author_ids (item : nat * list nat) =>
             let (a, a_doc_ids) := item in
             if mem d a_doc_ids then author_ids ++ [a] else author_ids)
          l acc) <->
  In a acc \/ exists docs, In (a, docs) l /\ In d docs.
Proof.
  revert acc. induction l as [| [a0 docs0] l IH]; intros acc; simpl.
  - split; [auto | intros [H | [docs [[] _]]]; exact H].
  - rewrite IH. destruct (mem d docs0) eqn:M.
    + apply mem_In in M. rewrite in_app_iff. simpl. split.
      * intros [[H | [H | []]] | [docs [H1 H2]]]; eauto.
        subst a0. right. exists docs0. auto.
      * intros [H | [docs [[H1 | H1] H2]]]; eauto.
        injection H1 as -> ->. auto.
    + split.
      * intros [H | [docs [H1 H2]]]; eauto.
      * intros [H | [docs [[H1 | H1] H2]]]; eauto.
        injection H1 as -> ->. apply mem_In in H2. congruence.
Qed.

Lemma In_authors_of (author2doc : dict (list nat)) (d a : nat) :
  In a (authors_of author2doc d) <->
  exists docs, In (a, docs) author2doc /\ In d docs.
Proof.
  unfold authors_of. rewrite authors_of_fold. simpl. tauto.
Qed.

Lemma dict_get_make_doc2author (n : nat) (author2doc : dict (list nat)) (d : nat) :
  dict_get (make_doc2author n author2doc) d =
  if (d <? n)%nat then Some (authors_of author2doc d) else None.
Proof.
  unfold make_doc2author.
  rewrite (dict_get_fold_set (authors_of author2doc)), mem_seq. reflexivity.
Qed.

Lemma In_docs_of (l : dict (list nat)) (a d : nat) :
  In d (docs_of l a) <-> exists ids, In (d, ids) l /\ In a ids.
Proof.
  unfold docs_of. rewrite in_map_iff. split.
  - intros [[d' ids] [Hfst Hin]]. simpl in Hfst. subst d'.
    apply filter_In in Hin. destruct Hin as [Hin Hm]. simpl in Hm.
    apply mem_In in Hm. eauto.
  - intros [ids [Hin Ha]]. exists (d, ids). split; [reflexivity |].
    apply filter_In. split; [assumption | now apply mem_In].
Qed.

Lemma dict_get_append_fold (a : nat) (l m : dict (list nat)) (a' : nat) :
  dict_get
    (fold_left
       (fun author2doc (item : nat * list nat) =>
          let (d, a_ids) := item in
          if mem a a_ids then dict_append author2doc a d else author2doc)
       l m) a' =
  if (a =? a')%nat
  then option_map (fun l0 => l0 ++ docs_of l a) (dict_get m a)
  else dict_get m a'.
Proof.
  revert m. induction l as [| [d ids] l IH]; intros m; simpl.
  - destruct (a =? a')%nat eqn:E; [| reflexivity].
    apply Nat.eqb_eq in E. subst a'. unfold docs_of. simpl.
    destruct (dict_get m a); simpl; [now rewrite app_nil_r | reflexivity].
  - rewrite IH. unfold docs_of. simpl. destruct (mem a ids) eqn:M; simpl.
    + unfold dict_append. destruct (dict_get m a) as [l0 |] eqn:G.
      * rewrite !dict_get_set, Nat.eqb_refl. simpl.
        destruct (a =? a')%nat; [| reflexivity].
        now rewrite <- app_assoc.
      * rewrite G. reflexivity.
    + reflexivity.
Qed.

Lemma dict_get_author2doc_fold (doc2author : dict (list nat)) (ks : list nat)
      (m : dict (list nat)) (a : nat) :
  dict_get
    (fold_left
       (fun author2doc a =>
          fold_left
            (fun author2doc (item : nat * list nat) =>
               let (d, a_ids) := item in
               if mem a a_ids then dict_append author2doc a d else author2doc)
            doc2author (dict_set author2doc a []))
       ks m) a =
  if mem a ks then Some (docs_of doc2author a) else dict_get m a.
Proof.
  revert m. induction ks as [| k ks IH]; intros m; cbn [fold_left];
    [reflexivity |].
  rewrite IH, mem_cons.
  destruct (mem a ks); [now rewrite orb_true_r |].
  rewrite orb_false_r, dict_get_append_fold, !dict_get_set, Nat.eqb_refl.
  rewrite (Nat.eqb_sym a k). destruct (k =? a)%nat eqn:E; [| reflexivity].
  apply Nat.eqb_eq in E. subst k. reflexivity.
Qed.

Lemma dict_get_make_author2doc (doc2author : dict (list nat)) (a : nat) :
  dict_get (make_author2doc doc2author) a =
  if (a <? length (authors_ids doc2author))%nat
  then Some (docs_of doc2author a) else None.
Proof.
  unfold make_author2doc. rewrite dict_get_author2doc_fold, mem_seq.
  reflexivity.
Qed.

(** ** The learning rate *)

Lemma Rpower_one_base (d : R) : Rpower 1 d = 1.
Proof. unfold Rpower. rewrite ln_1, Rmult_0_r. apply exp_0. Qed.

Lemma rho_pos (cfg : Config) (t : nat) : 0 < rho cfg t.
Proof. unfold rho, Rpower. apply exp_pos. Qed.

Lemma rho_le_1 (cfg : Config) (t : nat) :
  1 <= offset cfg -> 0 <= decay cfg -> rho cfg t <= 1.
Proof.
  intros Hoff Hdec. unfold rho. rewrite Rpower_Ropp.
  assert (Hx : 1 <= offset cfg + INR t) by (pose proof (pos_INR t); lra).
  assert (Hp : 1 <= Rpower (offset cfg + INR t) (decay cfg)).
  { rewrite <- (Rpower_one_base (decay cfg)) at 1.
    apply Rle_Rpower_l; [assumption | lra]. }
  rewrite <- Rinv_1. apply Rinv_le_contravar; lra.
Qed.

Lemma rho_decreasing (cfg : Config) (t1 t2 : nat) :
  0 < offset cfg -> 0 < decay cfg -> (t1 < t2)%nat -> rho cfg t2 < rho cfg t1.
Proof.
  intros Hoff Hdec Hlt. unfold rho. rewrite !Rpower_Ropp.
  assert (H1 : 0 < offset cfg + INR t1) by (pose proof (pos_INR t1); lra).
  assert (H12 : offset cfg + INR t1 < offset cfg + INR t2).
  { apply Rplus_lt_compat_l. now apply lt_INR. }
  apply Rinv_lt_contravar.
  - apply Rmult_lt_0_compat; unfold Rpower; apply exp_pos.
  - apply Rlt_Rpower_l; [assumption | lra].
Qed.

(** C4, as stated, fails: with [offset = 1/2] and [decay = 1] the first
    rate is [rho 0 = 2], outside (0, 1]. *)
Lemma C4_rho_above_one_counterexample :
  ~ (forall (cfg : Config) (t : nat),
        0 < offset cfg -> 0 < decay cfg <= 1 ->
        0 < rho cfg t <= 1 /\
        (forall t' : nat, (t < t')%nat -> rho cfg t' < rho cfg t)).
Proof.
  intros H.
  destruct (H (schedule_config (1 / 2) 1) 0%nat) as [[_ Hle] _];
    simpl; try lra.
  unfold rho in Hle. simpl in Hle.
  rewrite Rpower_Ropp, Rpower_1 in Hle by lra. lra.
Qed.

(** C4, amended: for [offset >= 1] and [decay] in (0, 1], every rate
    [rho t] lies in (0, 1], and [rho] is strictly decreasing in [t]. *)
Theorem C4_rho_unit_interval_decreasing (cfg : Config) (t : nat) :
  1 <= offset cfg -> 0 < decay cfg <= 1 ->
  0 < rho cfg t <= 1 /\
  (forall t' : nat, (t < t')%nat -> rho cfg t' < rho cfg t).
Proof.
  intros Hoff [Hd0 Hd1]. split; [split |].
  - apply rho_pos.
  - apply rho_le_1; lra.
  - intros t' Hlt. apply rho_decreasing; [lra | assumption | assumption].
Qed.

Lemma C4_rho_witness :
  0 < rho (schedule_config 1 (1 / 2)) 3 <= 1 /\
  (forall t' : nat, (3 < t')%nat ->
     rho (schedule_config 1 (1 / 2)) t' < rho (schedule_config 1 (1 / 2)) 3).
Proof.
  apply (C4_rho_unit_interval_decreasing (schedule_config 1 (1 / 2)) 3);
    simpl; lra.
Defined.

(** ** Accumulation loops *)

Lemma accumulate_from {A : Type} (f : A -> R) (l : list A) (a0 : R) :
  fold_left (fun acc x => acc + f x) l a0 = a0 + accumulate f l.
Proof.
  unfold accumulate. revert a0.
  induction l as [| x l IH]; intros a0; simpl; [lra |].
  rewrite (IH (a0 + f x)), (IH (0 + f x)). lra.
Qed.

Lemma accumulate_nil {A : Type} (f : A -> R) : accumulate f [] = 0.
Proof. reflexivity. Qed.

Lemma accumulate_cons {A : Type} (f : A -> R) (x : A) (l : list A) :
  accumulate f (x :: l) = f x + accumulate f l.
Proof.
  unfold accumulate at 1. simpl. rewrite accumulate_from. lra.
Qed.

Lemma accumulate_ext {A : Type} (f g : A -> R) (l : list A) :
  (forall x, In x l -> f x = g x) -> accumulate f l = accumulate g l.
Proof.
  induction l as [| x l IH]; intros H; [reflexivity |].
  rewrite !accumulate_cons, IH, (H x); simpl; auto.
  intros y Hy. apply H. now right.
Qed.

Lemma accumulate_scale {A : Type} (f : A -> R) (c : R) (l : list A) :
  accumulate (fun x => f x * c) l = accumulate f l * c.
Proof.
  induction l as [| x l IH]; [rewrite !accumulate_nil; lra |].
  rewrite !accumulate_cons, IH. lra.
Qed.

Lemma accumulate_nonneg {A : Type} (f : A -> R) (l : list A) :
  (forall x, In x l -> 0 <= f x) -> 0 <= accumulate f l.
Proof.
  induction l as [| x l IH]; intros H; [rewrite accumulate_nil; lra |].
  rewrite accumulate_cons.
  assert (0 <= f x) by (apply H; now left).
  assert (0 <= accumulate f l) by (apply IH; intros y Hy; apply H; now right).
  lra.
Qed.

Lemma accumulate_pos {A : Type} (f : A -> R) (l : list A) :
  l <> [] -> (forall x, In x l -> 0 < f x) -> 0 < accumulate f l.
Proof.
  destruct l as [| x l]; [congruence |]. intros _ H.
  rewrite accumulate_cons.
  assert (0 < f x) by (apply H; now left).
  assert (0 <= accumulate f l).
  { apply accumulate_nonneg. intros y Hy. left. apply H. now right. }
  lra.
Qed.

(** ** Loops of writes into a matrix *)

Lemma mset_same (m : Matrix) (i j : nat) (x : R) : mset m i j x i j = x.
Proof. unfold mset. now rewrite !Nat.eqb_refl. Qed.

Lemma mset_other (m : Matrix) (i j i' j' : nat) (x : R) :
  (i', j') <> (i, j) -> mset m i j x i' j' = m i' j'.
Proof.
  intros H. unfold mset.
  destruct (i' =? i)%nat eqn:Ei; [| reflexivity].
  destruct (j' =? j)%nat eqn:Ej; [| reflexivity].
  apply Nat.eqb_eq in Ei, Ej. subst. congruence.
Qed.

Section Writes.
Context {X : Type}.
Variable step : Matrix -> X -> Matrix.
Variable hit : X -> nat -> nat -> bool.
Variable val : nat -> nat -> R.

(** Each round of the loop writes [val i j] into the cells it hits and
    leaves the others alone. *)
Hypothesis step_spec :
  forall m x i j, step m x i j = if hit x i j then val i j else m i j.

Lemma fold_writes (l : list X) (m : Matrix) (i j : nat) :
  fold_left step l m i j =
  if existsb (fun x => hit x i j) l then val i j else m i j.
Proof.
  revert m. induction l as [| x l IH]; intros m; simpl; [reflexivity |].
  rewrite IH, step_spec.
  destruct (hit x i j); simpl; [| reflexivity].
  destruct (existsb (fun x0 => hit x0 i j) l); reflexivity.
Qed.

Lemma fold_writes_hit (l : list X) (m : Matrix) (i j : nat) (x : X) :
  In x l -> hit x i j = true -> fold_left step l m i j = val i j.
Proof.
  intros Hin Hhit. rewrite fold_writes.
  replace (existsb (fun x0 => hit x0 i j) l) with true; [reflexivity |].
  symmetry. apply existsb_exists. eauto.
Qed.

Lemma fold_writes_miss (l : list X) (m : Matrix) (i j : nat) :
  (forall x, In x l -> hit x i j = false) -> fold_left step l m i j = m i j.
Proof.
  intros H. rewrite fold_writes.
  destruct (existsb (fun x => hit x i j) l) eqn:E; [| reflexivity].
  apply existsb_exists in E. destruct E as [x [Hin Hhit]].
  rewrite (H x Hin) in Hhit. discriminate.
Qed.

End Writes.

(** ** The [var_phi] update in closed form *)

Lemma phi_row_written (s : State) (var_mu : Matrix)
      (authors_d : list nat) (ks : list nat) (m : Matrix) (v i j : nat) :
  fold_left
    (fun var_phi k =>
       let avgElogtheta :=
         accumulate (fun a => var_mu v a * Elogtheta s a k) authors_d in
       let expavgElogtheta := exp avgElogtheta in
       mset var_phi v k (expavgElogtheta * expElogbeta s k v))
    ks m i j =
  if existsb (fun k => (i =? v)%nat && (j =? k)%nat) ks
  then phi_unnorm s var_mu authors_d v j else m i j.
Proof.
  apply (fold_writes _ (fun k i j => (i =? v)%nat && (j =? k)%nat)
           (fun _ j => phi_unnorm s var_mu authors_d v j)).
  intros m0 k i0 j0. unfold mset, phi_unnorm. cbv zeta.
  destruct (i0 =? v)%nat; simpl; [| reflexivity].
  destruct (j0 =? k)%nat eqn:E; [| reflexivity].
  apply Nat.eqb_eq in E. now subst.
Qed.

Lemma existsb_eqb_seq (P : bool) (j K : nat) :
  existsb (fun k => P && (j =? k)%nat) (seq 0 K) = P && (j <? K)%nat.
Proof.
  destruct P; simpl.
  - change (existsb (fun k => (j =? k)%nat) (seq 0 K)) with (mem j (seq 0 K)).
    apply mem_seq.
  - induction (seq 0 K); simpl; auto.
Qed.

Lemma phi_word_spec (cfg : Config) (s : State) (var_mu : Matrix)
      (authors_d : list nat) (m : Matrix) (v i j : nat) :
  phi_word cfg s var_mu authors_d m v i j =
  if ((i =? v) && (j <? num_topics cfg))%nat
  then phi_unnorm s var_mu authors_d i j
       / phi_total cfg s var_mu authors_d i
  else m i j.
Proof.
  unfold phi_word, normalize_row. cbv zeta.
  destruct ((i =? v) && (j <? num_topics cfg))%nat eqn:E.
  - apply andb_prop in E. destruct E as [Ei Ej].
    apply Nat.eqb_eq in Ei. subst i.
    rewrite phi_row_written, existsb_eqb_seq, Nat.eqb_refl, Ej. simpl.
    f_equal. unfold phi_total. apply accumulate_ext. intros k Hk.
    rewrite phi_row_written, existsb_eqb_seq, Nat.eqb_refl. simpl.
    apply in_seq in Hk.
    replace (k <? num_topics cfg)%nat with true; [reflexivity |].
    symmetry. apply Nat.ltb_lt. lia.
  - rewrite phi_row_written, existsb_eqb_seq.
    destruct (i =? v)%nat; simpl in *; [| reflexivity].
    now rewrite E.
Qed.

(** After lines 201-214, the rows of the document's words are normalised
    and every other row is as before. *)
Lemma update_phi_spec (cfg : Config) (s : State) (var_mu : Matrix)
      (authors_d : list nat) (doc : Doc) (m : Matrix) (i j : nat) :
  update_phi cfg s var_mu authors_d doc m i j =
  if mem i (ids doc) && (j <? num_topics cfg)%nat
  then phi_unnorm s var_mu authors_d i j
       / phi_total cfg s var_mu authors_d i
  else m i j.
Proof.
  unfold update_phi.
  rewrite (fold_writes _ (fun v i j => ((i =? v) && (j <? num_topics cfg))%nat)
             (fun i j => phi_unnorm s var_mu authors_d i j
                         / phi_total cfg s var_mu authors_d i)).
  - replace (existsb (fun x => ((i =? x) && (j <? num_topics cfg))%nat) (ids doc))
      with (mem i (ids doc) && (j <? num_topics cfg)%nat); [reflexivity |].
    unfold mem. induction (ids doc) as [| x l IH]; simpl; [reflexivity |].
    rewrite <- IH. destruct (i =? x)%nat, (j <? num_topics cfg)%nat; simpl;
      try reflexivity.
    now rewrite !andb_false_r.
  - intros m0 x i0 j0. apply phi_word_spec.
Qed.

Lemma phi_unnorm_pos (s : State) (var_mu : Matrix)
      (authors_d : list nat) (v k : nat) :
  0 < expElogbeta s k v -> 0 < phi_unnorm s var_mu authors_d v k.
Proof.
  intros H. unfold phi_unnorm. apply Rmult_lt_0_compat; [apply exp_pos | exact H].
Qed.

(** ** The [var_mu] update in closed form *)

Lemma mu_first_loop (cfg : Config) (s : State) (var_phi : Matrix) (v : nat)
      (l : list nat) (acc : Matrix * R) :
  let acc' :=
    fold_left
      (fun (acc : Matrix * R) a =>
         let avgElogtheta :=
           accumulate (fun k => var_phi v k * Elogtheta s a k)
             (seq 0 (num_topics cfg)) in
         let expavgElogtheta := exp avgElogtheta in
         let var_mu := mset (fst acc) v a expavgElogtheta in
         (var_mu, snd acc + var_mu v a))
      l acc in
  (forall i j,
      fst acc' i j =
      if (i =? v)%nat && mem j l then mu_unnorm cfg s var_phi v j
      else fst acc i j)
  /\ snd acc' = snd acc + accumulate (mu_unnorm cfg s var_phi v) l.
Proof.
  cbv zeta. revert acc.
  induction l as [| a l IH]; intros acc; cbn [fold_left].
  - split; [| rewrite accumulate_nil; lra].
    intros i j. unfold mem. simpl. now rewrite andb_false_r.
  - destruct (IH (mset (fst acc) v a (mu_unnorm cfg s var_phi v a),
                  snd acc + mset (fst acc) v a (mu_unnorm cfg s var_phi v a) v a))
      as [IHf IHs].
    split.
    + intros i j. unfold mu_unnorm in IHf at 1 2. rewrite IHf.
      cbn [fst]. rewrite mem_cons. unfold mset.
      destruct (i =? v)%nat; simpl; [| reflexivity].
      destruct (mem j l); [now rewrite orb_true_r |].
      rewrite orb_false_r.
      destruct (j =? a)%nat eqn:E; [| reflexivity].
      apply Nat.eqb_eq in E. now subst.
    + unfold mu_unnorm in IHs at 1 2. rewrite IHs. cbn [snd].
      rewrite mset_same, accumulate_cons. fold (mu_unnorm cfg s var_phi v a).
      lra.
Qed.

(** Lines 235-236: an author listed [n] times is scaled [n] times. *)
Lemma mu_scale_loop (v : nat) (c : R) (l : list nat) (m : Matrix) (i j : nat) :
  fold_left (fun var_mu a => mset var_mu v a (var_mu v a * c)) l m i j =
  if (i =? v)%nat then m v j * c ^ count_occ Nat.eq_dec l j else m i j.
Proof.
  revert m. induction l as [| a l IH]; intros m; cbn [fold_left].
  - simpl. destruct (i =? v)%nat eqn:E; [| reflexivity].
    apply Nat.eqb_eq in E. subst. lra.
  - rewrite IH. destruct (i =? v)%nat eqn:E.
    + apply Nat.eqb_eq in E. subst i. simpl.
      destruct (Nat.eq_dec a j) as [-> | Hne].
      * rewrite mset_same. simpl. lra.
      * rewrite mset_other by congruence. reflexivity.
    + rewrite mset_other; [reflexivity |].
      apply Nat.eqb_neq in E. congruence.
Qed.

Lemma count_occ_not_mem (l : list nat) (j : nat) :
  mem j l = false -> count_occ Nat.eq_dec l j = 0%nat.
Proof.
  intros H. apply count_occ_not_In. intros Hin.
  apply mem_In in Hin. congruence.
Qed.

Lemma mu_word_spec (cfg : Config) (s : State) (var_phi : Matrix)
      (authors_d : list nat) (m : Matrix) (v i j : nat) :
  mu_word cfg s var_phi authors_d m v i j =
  if (i =? v)%nat && mem j authors_d
  then mu_unnorm cfg s var_phi i j
       * (1 / mu_total cfg s var_phi authors_d i)
         ^ count_occ Nat.eq_dec authors_d j
  else m i j.
Proof.
  unfold mu_word. cbv zeta.
  destruct (mu_first_loop cfg s var_phi v authors_d (m, 0)) as [Hf Hs].
  cbv zeta in Hf, Hs. rewrite mu_scale_loop, Hs, !Hf. cbn [fst snd].
  rewrite Nat.eqb_refl. simpl.
  destruct (i =? v)%nat eqn:E; simpl; [| reflexivity].
  apply Nat.eqb_eq in E. subst i. unfold mu_total.
  destruct (mem j authors_d) eqn:M.
  - now rewrite Rplus_0_l.
  - rewrite (count_occ_not_mem _ _ M). simpl. lra.
Qed.

(** After lines 217-236. *)
Lemma update_mu_spec (cfg : Config) (s : State) (var_phi : Matrix)
      (authors_d : list nat) (doc : Doc) (m : Matrix) (i j : nat) :
  update_mu cfg s var_phi authors_d doc m i j =
  if mem i (ids doc) && mem j authors_d
  then mu_unnorm cfg s var_phi i j
       * (1 / mu_total cfg s var_phi authors_d i)
         ^ count_occ Nat.eq_dec authors_d j
  else m i j.
Proof.
  unfold update_mu.
  rewrite (fold_writes _ (fun v i j => (i =? v)%nat && mem j authors_d)
             (fun i j => mu_unnorm cfg s var_phi i j
                         * (1 / mu_total cfg s var_phi authors_d i)
                           ^ count_occ Nat.eq_dec authors_d j)).
  - replace (existsb (fun x => (i =? x)%nat && mem j authors_d) (ids doc))
      with (mem i (ids doc) && mem j authors_d); [reflexivity |].
    unfold mem at 1. induction (ids doc) as [| x l IH]; simpl; [reflexivity |].
    rewrite <- IH. destruct (i =? x)%nat, (mem j authors_d); simpl;
      try reflexivity.
    now rewrite !andb_false_r.
  - intros m0 x i0 j0. apply mu_word_spec.
Qed.

Lemma mu_unnorm_pos (cfg : Config) (s : State) (var_phi : Matrix) (v a : nat) :
  0 < mu_unnorm cfg s var_phi v a.
Proof. unfold mu_unnorm. apply exp_pos. Qed.

Lemma mu_total_pos (cfg : Config) (s : State) (var_phi : Matrix)
      (authors_d : list nat) (v : nat) :
  authors_d <> [] -> 0 < mu_total cfg s var_phi authors_d v.
Proof.
  intros H. unfold mu_total. apply accumulate_pos; [assumption |].
  intros a _. apply mu_unnorm_pos.
Qed.

(** ** The [tilde_gamma] and [var_lambda] updates in closed form *)

Lemma existsb_row (i : nat) (Q : bool) (l : list nat) :
  existsb (fun x => (i =? x)%nat && Q) l = mem i l && Q.
Proof.
  unfold mem. induction l as [| x l IH]; simpl; [reflexivity |].
  rewrite IH. destruct (i =? x)%nat, Q; simpl; try reflexivity.
  now rewrite !andb_false_r.
Qed.

Lemma existsb_col (P : bool) (j : nat) (l : list nat) :
  existsb (fun x => P && (j =? x)%nat) l = P && mem j l.
Proof.
  unfold mem. destruct P; simpl; [reflexivity |].
  induction l; simpl; auto.
Qed.

Lemma combine_ids_cts (doc : Doc) : combine (ids doc) (cts doc) = doc.
Proof.
  unfold ids, cts. induction doc as [| [v c] doc IH]; simpl; [reflexivity |].
  now rewrite IH.
Qed.

Lemma gamma_accumulate_loop (var_mu var_phi : Matrix) (a k : nat)
      (l : list (nat * nat)) (tg : Matrix) (i j : nat) :
  fold_left
    (fun tg (vc : nat * nat) =>
       let (v, c) := vc in
       mset tg a k (tg a k + INR c * var_mu v a * var_phi v k))
    l tg i j =
  if ((i =? a) && (j =? k))%nat
  then tg a k + gamma_sum var_mu var_phi l a k
  else tg i j.
Proof.
  unfold gamma_sum. revert tg.
  induction l as [| [v c] l IH]; intros tg; cbn [fold_left].
  - rewrite accumulate_nil.
    destruct ((i =? a) && (j =? k))%nat eqn:E; [| reflexivity].
    apply andb_prop in E. destruct E as [Ei Ej].
    apply Nat.eqb_eq in Ei, Ej. subst. lra.
  - rewrite IH, accumulate_cons, mset_same. cbn [fst snd].
    destruct ((i =? a) && (j =? k))%nat eqn:E; [lra |].
    unfold mset. now rewrite E.
Qed.

Lemma gamma_entry_spec (cfg : Config) (var_mu var_phi : Matrix) (doc : Doc)
      (tg : Matrix) (a k i j : nat) :
  gamma_entry cfg var_mu var_phi doc tg a k i j =
  if ((i =? a) && (j =? k))%nat
  then gamma_sum var_mu var_phi doc i j * INR (author_len cfg i) + alpha cfg
  else tg i j.
Proof.
  unfold gamma_entry. cbv zeta. rewrite combine_ids_cts.
  destruct ((i =? a) && (j =? k))%nat eqn:E.
  - apply andb_prop in E. destruct E as [Ei Ej].
    apply Nat.eqb_eq in Ei, Ej. subst i j.
    rewrite mset_same, mset_same, gamma_accumulate_loop, !Nat.eqb_refl.
    simpl. rewrite mset_same. lra.
  - unfold mset at 1. rewrite E. unfold mset at 1. rewrite E.
    rewrite gamma_accumulate_loop, E. unfold mset. now rewrite E.
Qed.

(** After lines 239-245. *)
Lemma update_gamma_spec (cfg : Config) (var_mu var_phi : Matrix)
      (authors_d : list nat) (doc : Doc) (tg : Matrix) (i j : nat) :
  update_gamma cfg var_mu var_phi authors_d doc tg i j =
  if mem i authors_d && (j <? num_topics cfg)%nat
  then gamma_sum var_mu var_phi doc i j * INR (author_len cfg i) + alpha cfg
  else tg i j.
Proof.
  unfold update_gamma.
  rewrite (fold_writes _ (fun a i j => ((i =? a) && (j <? num_topics cfg))%nat)
             (fun i j => gamma_sum var_mu var_phi doc i j
                         * INR (author_len cfg i) + alpha cfg)).
  - now rewrite existsb_row.
  - intros m a i0 j0.
    rewrite (fold_writes _ (fun k i j => ((i =? a) && (j =? k))%nat)
               (fun i j => gamma_sum var_mu var_phi doc i j
                           * INR (author_len cfg i) + alpha cfg)).
    + now rewrite existsb_col, mem_seq.
    + intros m1 k i1 j1. apply gamma_entry_spec.
Qed.

(** After lines 249-252. *)
Lemma update_lambda_spec (cfg : Config) (num_docs : nat) (var_phi : Matrix)
      (doc : Doc) (vl : Matrix) (i j : nat) :
  update_lambda cfg num_docs var_phi doc vl i j =
  if (i <? num_topics cfg)%nat && mem j (ids doc)
  then eta cfg + INR num_docs * INR (doc_count doc j) * var_phi j i
  else vl i j.
Proof.
  unfold update_lambda.
  rewrite (fold_writes _ (fun k i j => (i =? k)%nat && mem j (ids doc))
             (fun i j => eta cfg + INR num_docs * INR (doc_count doc j)
                                   * var_phi j i)).
  - now rewrite existsb_row, mem_seq.
  - intros m k i0 j0.
    rewrite (fold_writes _ (fun v i j => ((i =? k) && (j =? v))%nat)
               (fun i j => eta cfg + INR num_docs * INR (doc_count doc j)
                                     * var_phi j i)).
    + now rewrite existsb_col.
    + intros m1 v i1 j1. cbv zeta. unfold mset.
      destruct ((i1 =? k) && (j1 =? v))%nat eqn:E; [| reflexivity].
      apply andb_prop in E. destruct E as [Ei Ej].
      apply Nat.eqb_eq in Ei, Ej. now subst.
Qed.

(** ** One round of the local solver *)

Lemma unit_phi (offset decay : R) (s : State) (var_mu : Matrix) :
  0 < expElogbeta s 0%nat 0%nat ->
  var_phi (fst (iteration_body (unit_config offset decay) 1 [0%nat] unit_doc
                  s var_mu)) 0%nat 0%nat = 1.
Proof.
  intros Hpos. unfold iteration_body. cbn [fst var_phi].
  rewrite update_phi_spec.
  cbn [mem existsb ids unit_doc map fst Nat.eqb orb andb num_topics
       unit_config Nat.ltb Nat.leb].
  unfold phi_total. cbn [num_topics unit_config seq].
  rewrite accumulate_cons, accumulate_nil, Rplus_0_r.
  apply Rinv_r. apply Rgt_not_eq. now apply phi_unnorm_pos.
Qed.

Lemma unit_mu (offset decay : R) (s : State) (var_mu : Matrix) :
  snd (iteration_body (unit_config offset decay) 1 [0%nat] unit_doc s var_mu)
    0%nat 0%nat = 1.
Proof.
  unfold iteration_body. cbn [snd]. rewrite update_mu_spec.
  cbn [ids unit_doc map fst mem existsb Nat.eqb orb andb count_occ].
  destruct (Nat.eq_dec 0 0) as [_ | Hne]; [| congruence].
  cbn [count_occ]. unfold mu_total. rewrite accumulate_cons, accumulate_nil.
  match goal with
  | |- ?x * _ = 1 => assert (0 < x) by apply mu_unnorm_pos
  end.
  simpl. field. lra.
Qed.

(** With one word counted once, one author with one document and the
    prior [alpha = 1], the round leaves [tilde_gamma[0, 0] = 2]. *)
Lemma unit_tilde_gamma (offset decay : R) (s : State) (var_mu : Matrix) :
  0 < expElogbeta s 0%nat 0%nat ->
  tilde_gamma (fst (iteration_body (unit_config offset decay) 1 [0%nat]
                      unit_doc s var_mu)) 0%nat 0%nat = 2.
Proof.
  intros Hpos.
  pose proof (unit_phi offset decay s var_mu Hpos) as Hphi.
  pose proof (unit_mu offset decay s var_mu) as Hmu.
  unfold iteration_body in *. cbn [fst snd tilde_gamma var_phi] in *.
  rewrite update_gamma_spec.
  cbn [mem existsb Nat.eqb orb andb num_topics unit_config Nat.ltb Nat.leb].
  unfold gamma_sum, author_len, unit_doc.
  cbn [author2doc unit_config dict_get Nat.eqb length alpha].
  rewrite accumulate_cons, accumulate_nil. cbn [fst snd INR].
  unfold unit_doc in Hphi, Hmu. rewrite Hmu, Hphi. lra.
Qed.

(** C1: the round never writes [tilde_lambda].  The value the
    specification puts there, [eta + num_docs * count(v) * phi[v, k]],
    goes into the global [var_lambda] (line 252), and [tilde_lambda] keeps
    the initial draw, which is what line 281 then blends in.  On the
    smallest run the specification gives [tilde_lambda[0, 0] = 2] and the
    code leaves [1]. *)
Theorem C1_tilde_lambda_never_written :
  (forall cfg num_docs authors_d doc s var_mu,
      let s' := fst (iteration_body cfg num_docs authors_d doc s var_mu) in
      tilde_lambda s' = tilde_lambda s
      /\ forall k v,
           var_lambda s' k v =
           if (k <? num_topics cfg)%nat && mem v (ids doc)
           then eta cfg + INR num_docs * INR (doc_count doc v) * var_phi s' v k
           else var_lambda s k v)
  /\ (let cfg := unit_config 1 (1 / 2) in
      let s' := fst (iteration_body cfg 1 [0%nat] unit_doc (unit_state 1)
                       (init_mu [0%nat] unit_doc)) in
      eta cfg + INR 1 * INR (doc_count unit_doc 0) * var_phi s' 0%nat 0%nat = 2
      /\ tilde_lambda s' 0%nat 0%nat = 1
      /\ var_lambda s' 0%nat 0%nat = 2).
Proof.
  split.
  - intros cfg num_docs authors_d doc s var_mu. cbv zeta. split.
    + reflexivity.
    + intros k v. unfold iteration_body. cbn [fst var_lambda var_phi].
      apply update_lambda_spec.
  - cbv zeta.
    assert (Hexp : eta (unit_config 1 (1 / 2))
                   + INR 1 * INR (doc_count unit_doc 0)
                     * var_phi (fst (iteration_body (unit_config 1 (1 / 2)) 1
                                       [0%nat] unit_doc (unit_state 1)
                                       (init_mu [0%nat] unit_doc))) 0%nat 0%nat = 2).
    { rewrite unit_phi by (unfold unit_state, const_matrix; cbn; lra).
      cbn. lra. }
    split; [exact Hexp |]. split; [reflexivity |].
    rewrite <- Hexp. unfold iteration_body. cbn [fst var_lambda var_phi].
    rewrite update_lambda_spec. reflexivity.
Qed.

Lemma phi_total_pos (cfg : Config) (s : State) (var_mu : Matrix)
      (authors_d : list nat) (v : nat) :
  (0 < num_topics cfg)%nat ->
  (forall k, (k < num_topics cfg)%nat -> 0 < expElogbeta s k v) ->
  0 < phi_total cfg s var_mu authors_d v.
Proof.
  intros HK Hpos. unfold phi_total. apply accumulate_pos.
  - destruct (num_topics cfg); [lia | discriminate].
  - intros k Hk. apply phi_unnorm_pos, Hpos. apply in_seq in Hk. lia.
Qed.

(** The author lists the constructor derives never repeat an author. *)
Lemma authors_of_NoDup (author2doc : dict (list nat)) (d : nat) :
  dict_wf author2doc -> NoDup (authors_of author2doc d).
Proof.
  unfold dict_wf, dict_keys, authors_of.
  assert (G : forall l acc,
             NoDup (acc ++ map fst l) ->
             NoDup (fold_left
                      (fun author_ids (item : nat * list nat) =>
                         let (a, a_doc_ids) := item in
                         if mem d a_doc_ids then author_ids ++ [a]
                         else author_ids) l acc)).
  { induction l as [| [a docs] l IH]; intros acc Hnd; simpl.
    - now rewrite app_nil_r in Hnd.
    - simpl in Hnd. destruct (mem d docs).
      + apply IH. rewrite <- app_assoc. exact Hnd.
      + apply IH. apply NoDup_remove_1 in Hnd. exact Hnd. }
  intros H. apply G. exact H.
Qed.

(** Line 214 leaves a row that sums to 1. *)
Lemma update_phi_row_sum (cfg : Config) (s : State) (var_mu : Matrix)
      (authors_d : list nat) (doc : Doc) (m : Matrix) (v : nat) :
  In v (ids doc) ->
  phi_total cfg s var_mu authors_d v <> 0 ->
  accumulate (fun k => update_phi cfg s var_mu authors_d doc m v k)
    (seq 0 (num_topics cfg)) = 1.
Proof.
  intros Hv Hsum. apply mem_In in Hv.
  rewrite (accumulate_ext _
             (fun k => phi_unnorm s var_mu authors_d v k
                       * / phi_total cfg s var_mu authors_d v)).
  - rewrite accumulate_scale. fold (phi_total cfg s var_mu authors_d v).
    now apply Rinv_r.
  - intros k Hk. rewrite update_phi_spec, Hv. apply in_seq in Hk.
    replace (k <? num_topics cfg)%nat with true; [reflexivity |].
    symmetry. apply Nat.ltb_lt. lia.
Qed.

(** Lines 234-236 leave weights that sum to 1 over a duplicate-free
    author list. *)
Lemma update_mu_row_sum (cfg : Config) (s : State) (var_phi : Matrix)
      (authors_d : list nat) (doc : Doc) (m : Matrix) (v : nat) :
  In v (ids doc) ->
  NoDup authors_d ->
  mu_total cfg s var_phi authors_d v <> 0 ->
  accumulate (fun a => update_mu cfg s var_phi authors_d doc m v a) authors_d
  = 1.
Proof.
  intros Hv Hnd Hsum. apply mem_In in Hv.
  rewrite (accumulate_ext _
             (fun a => mu_unnorm cfg s var_phi v a
                       * / mu_total cfg s var_phi authors_d v)).
  - rewrite accumulate_scale. fold (mu_total cfg s var_phi authors_d v).
    now apply Rinv_r.
  - intros a Ha. rewrite update_mu_spec, Hv.
    rewrite (proj2 (mem_In a authors_d) Ha). cbn [andb].
    rewrite (proj1 (NoDup_count_occ' Nat.eq_dec authors_d) Hnd a Ha).
    simpl. unfold Rdiv. lra.
Qed.

(** C5, amended: in every round, after the [var_phi] update the row of
    each word of the document sums to 1 over the topics, and after the
    [var_mu] update the weights of each word sum to 1 over the document's
    authors provided no author is listed twice for the document, each
    under the condition that the sum of the unnormalised values is not
    zero. *)
Theorem C5_phi_mu_normalised (cfg : Config) (num_docs : nat)
    (authors_d : list nat) (doc : Doc) (s : State) (var_mu : Matrix)
    (v : nat) :
  In v (ids doc) ->
  let s' := fst (iteration_body cfg num_docs authors_d doc s var_mu) in
  let var_mu' := snd (iteration_body cfg num_docs authors_d doc s var_mu) in
  (phi_total cfg s var_mu authors_d v <> 0 ->
   accumulate (fun k => var_phi s' v k) (seq 0 (num_topics cfg)) = 1)
  /\ (NoDup authors_d ->
      mu_total cfg s (var_phi s') authors_d v <> 0 ->
      accumulate (fun a => var_mu' v a) authors_d = 1).
Proof.
  intros Hv. cbv zeta. unfold iteration_body. cbn [fst snd var_phi]. split.
  - intros Hsum. now apply update_phi_row_sum.
  - intros Hnd Hsum. now apply update_mu_row_sum.
Qed.

Lemma C5_phi_mu_witness :
  let s' := fst (iteration_body duo_config 2 [0%nat; 1%nat] [(0%nat, 3%nat)]
                   duo_state (init_mu [0%nat; 1%nat] [(0%nat, 3%nat)])) in
  let var_mu' := snd (iteration_body duo_config 2 [0%nat; 1%nat]
                        [(0%nat, 3%nat)] duo_state
                        (init_mu [0%nat; 1%nat] [(0%nat, 3%nat)])) in
  accumulate (fun k => var_phi s' 0%nat k) (seq 0 (num_topics duo_config)) = 1
  /\ accumulate (fun a => var_mu' 0%nat a) [0%nat; 1%nat] = 1.
Proof.
  cbv zeta.
  destruct (C5_phi_mu_normalised duo_config 2 [0%nat; 1%nat] [(0%nat, 3%nat)]
              duo_state (init_mu [0%nat; 1%nat] [(0%nat, 3%nat)]) 0)
    as [Hphi Hmu].
  - simpl. auto.
  - split.
    + apply Hphi. apply Rgt_not_eq. apply phi_total_pos.
      * simpl. lia.
      * intros k _. unfold duo_state, initial_state. cbn. apply exp_pos.
    + apply Hmu.
      * repeat constructor; simpl; intuition lia.
      * apply Rgt_not_eq. apply mu_total_pos. discriminate.
Defined.

(** ** The rounds of one document *)

Lemma iterate_invariant (P : State -> Prop) (cfg : Config) (num_docs : nat)
      (authors_d : list nat) (doc : Doc) :
  (forall s var_mu,
      P s -> P (fst (iteration_body cfg num_docs authors_d doc s var_mu))) ->
  (forall s c, P s -> P (with_converged s c)) ->
  forall n iteration s var_mu,
    P s ->
    P (fst (iterate cfg num_docs authors_d doc n iteration s var_mu)).
Proof.
  intros Hbody Hconv. induction n as [| n IH]; intros iteration s var_mu HP.
  - exact HP.
  - cbn [iterate].
    pose proof (Hbody s var_mu HP) as HP1.
    destruct (iteration_body cfg num_docs authors_d doc s var_mu)
      as [s1 var_mu1].
    cbn [fst] in HP1.
    match goal with |- context [if ?b then _ else _] => destruct b end.
    + cbn [fst]. now apply Hconv.
    + now apply IH.
Qed.

Lemma iterate_frame (cfg : Config) (num_docs : nat) (authors_d : list nat)
      (doc : Doc) (n iteration : nat) (s : State) (var_mu : Matrix) :
  let s1 := fst (iterate cfg num_docs authors_d doc n iteration s var_mu) in
  var_gamma s1 = var_gamma s /\ tilde_lambda s1 = tilde_lambda s
  /\ t s1 = t s.
Proof.
  cbv zeta.
  apply (iterate_invariant
           (fun s1 => var_gamma s1 = var_gamma s
                      /\ tilde_lambda s1 = tilde_lambda s /\ t s1 = t s)).
  - intros s0 mu0 H. exact H.
  - intros s0 c H. exact H.
  - auto.
Qed.

Lemma rhot_positive_base (cfg : Config) (t : nat) :
  0 < offset cfg + INR t -> rhot cfg t = Ok (rho cfg t).
Proof.
  intros H. unfold rhot, pow_float, rho.
  destruct (Rlt_dec 0 (offset cfg + INR t)); [reflexivity | contradiction].
Qed.

(** What a successful [process_doc] computed. *)
Lemma process_doc_Ok (de : nat -> nat -> Matrix -> Matrix) (cfg : Config)
      (num_docs : nat) (s : State) (d : nat) (doc : Doc) (s' : State) :
  process_doc de cfg num_docs s d doc = Ok s' ->
  exists authors_d r,
    dict_get (doc2author cfg) d = Some authors_d
    /\ ((0 < iterations cfg)%nat -> check_iteration cfg authors_d doc = Ok tt)
    /\ rhot cfg (t s) = Ok r
    /\ nonempty (ids doc) = true
    /\ forallb (fun v => (v <? num_terms cfg)%nat) (ids doc) = true
    /\ s' = refresh de cfg
              (global_update r doc
                 (fst (iterate cfg num_docs authors_d doc (iterations cfg) 0 s
                         (init_mu authors_d doc)))).
Proof.
  unfold process_doc. destruct (dict_get (doc2author cfg) d) as [authors_d |];
    [| discriminate].
  intros H. exists authors_d.
  assert (Hcheck : (0 < iterations cfg)%nat ->
                   check_iteration cfg authors_d doc = Ok tt).
  { intros Hit. apply Nat.ltb_lt in Hit. rewrite Hit in H.
    destruct (check_iteration cfg authors_d doc) as [[] | e];
      [reflexivity | discriminate]. }
  destruct (if (0 <? iterations cfg)%nat
            then check_iteration cfg authors_d doc else Ok tt);
    cbn [bind] in H; [| discriminate].
  pose proof (iterate_frame cfg num_docs authors_d doc (iterations cfg) 0 s
                (init_mu authors_d doc)) as Hframe.
  cbv zeta in Hframe. destruct Hframe as [_ [_ Ht]].
  destruct (iterate cfg num_docs authors_d doc (iterations cfg) 0 s
              (init_mu authors_d doc)) as [s1 var_mu1].
  cbn [fst] in Ht. rewrite Ht in H.
  destruct (rhot cfg (t s)) as [r | e]; cbn [bind] in H; [| discriminate].
  exists r.
  destruct (nonempty (ids doc)); cbn [andb guard bind] in H; [| discriminate].
  destruct (forallb (fun v => (v <? num_terms cfg)%nat) (ids doc));
    cbn [guard bind] in H; [| discriminate].
  injection H as <-. repeat split; auto.
Qed.

(** And conversely. *)
Lemma process_doc_runs (de : nat -> nat -> Matrix -> Matrix) (cfg : Config)
      (num_docs : nat) (s : State) (d : nat) (doc : Doc)
      (authors_d : list nat) (r : R) :
  dict_get (doc2author cfg) d = Some authors_d ->
  ((0 < iterations cfg)%nat -> check_iteration cfg authors_d doc = Ok tt) ->
  rhot cfg (t s) = Ok r ->
  nonempty (ids doc) = true ->
  forallb (fun v => (v <? num_terms cfg)%nat) (ids doc) = true ->
  process_doc de cfg num_docs s d doc
  = Ok (refresh de cfg
          (global_update r doc
             (fst (iterate cfg num_docs authors_d doc (iterations cfg) 0 s
                     (init_mu authors_d doc))))).
Proof.
  intros Hget Hcheck Hr Hne Hwords. unfold process_doc. rewrite Hget.
  assert (Hc : (if (0 <? iterations cfg)%nat
                then check_iteration cfg authors_d doc else Ok tt) = Ok tt).
  { destruct (0 <? iterations cfg)%nat eqn:E; [| reflexivity].
    apply Hcheck. now apply Nat.ltb_lt. }
  rewrite Hc. cbn [bind].
  pose proof (iterate_frame cfg num_docs authors_d doc (iterations cfg) 0 s
                (init_mu authors_d doc)) as Hframe.
  cbv zeta in Hframe. destruct Hframe as [_ [_ Ht]].
  destruct (iterate cfg num_docs authors_d doc (iterations cfg) 0 s
              (init_mu authors_d doc)) as [s1 var_mu1].
  cbn [fst] in Ht |- *. rewrite Ht, Hr. cbn [bind].
  rewrite Hne, Hwords. reflexivity.
Qed.

Lemma iterate_var_lambda_frame (cfg : Config) (num_docs : nat)
      (authors_d : list nat) (doc : Doc) (k v : nat) (s0 : State) :
  ~ In v (ids doc) ->
  forall n iteration s var_mu,
    var_lambda s k v = var_lambda s0 k v ->
    var_lambda (fst (iterate cfg num_docs authors_d doc n iteration s var_mu))
      k v = var_lambda s0 k v.
Proof.
  intros Hv.
  assert (Hm : mem v (ids doc) = false).
  { destruct (mem v (ids doc)) eqn:E; [| reflexivity].
    apply mem_In in E. contradiction. }
  apply (iterate_invariant (fun s => var_lambda s k v = var_lambda s0 k v)).
  - intros s var_mu HP. unfold iteration_body. cbn [fst var_lambda].
    rewrite update_lambda_spec, Hm, andb_false_r. exact HP.
  - intros s c HP. exact HP.
Qed.

(** C6: processing a document (local solve, then blend) leaves every
    column of the global [var_lambda] whose word id does not occur in the
    document as it was. *)
Theorem C6_untouched_columns (de : nat -> nat -> Matrix -> Matrix)
    (cfg : Config) (num_docs : nat) (s : State) (d : nat) (doc : Doc)
    (s' : State) (v : nat) :
  process_doc de cfg num_docs s d doc = Ok s' ->
  ~ In v (ids doc) ->
  forall k, var_lambda s' k v = var_lambda s k v.
Proof.
  intros Hrun Hv k.
  destruct (process_doc_Ok de cfg num_docs s d doc s' Hrun)
    as [authors_d [r [_ [_ [_ [_ [_ ->]]]]]]].
  cbn [refresh global_update var_lambda]. unfold blend_columns.
  replace (mem v (ids doc)) with false.
  - now apply iterate_var_lambda_frame.
  - symmetry. destruct (mem v (ids doc)) eqn:E; [| reflexivity].
    apply mem_In in E. contradiction.
Qed.

(** ** The guards of a round *)

Lemma authors_in_range (cfg : Config) (l : list nat) :
  forallb (fun a => (a <? num_authors cfg)%nat
                    && is_some (dict_get (author2doc cfg) a)) l = true ->
  len_alpha cfg = 1%nat ->
  existsb (fun a => (num_authors cfg <=? a)%nat) l = false
  /\ check_gamma cfg l = Ok tt.
Proof.
  intros H Hlen. induction l as [| a l IH]; [split; reflexivity |].
  cbn [forallb] in H. apply andb_true_iff in H. destruct H as [Ha Hl].
  apply andb_true_iff in Ha. destruct Ha as [Hlt Hsome].
  apply Nat.ltb_lt in Hlt. destruct (IH Hl) as [Hex Hcheck].
  assert (Hle : (num_authors cfg <=? a)%nat = false)
    by (apply Nat.leb_gt; exact Hlt).
  cbn [existsb check_gamma]. rewrite Hle, Hex. split; [reflexivity |].
  destruct (dict_get (author2doc cfg) a); [| discriminate].
  rewrite Hlen. cbn [Nat.eqb guard bind]. exact Hcheck.
Qed.

Lemma check_gamma_Ok (cfg : Config) (l : list nat) :
  check_gamma cfg l = Ok tt ->
  forallb (fun a => (a <? num_authors cfg)%nat
                    && is_some (dict_get (author2doc cfg) a)) l = true
  /\ (nonempty l = true -> len_alpha cfg = 1%nat).
Proof.
  induction l as [| a l IH]; intros H; [split; [reflexivity | discriminate] |].
  cbn [check_gamma] in H. cbn [forallb].
  destruct (num_authors cfg <=? a)%nat eqn:Hle; [discriminate |].
  apply Nat.leb_gt in Hle.
  destruct (dict_get (author2doc cfg) a); [| discriminate].
  destruct (len_alpha cfg =? 1)%nat eqn:Hlen; cbn [guard bind] in H;
    [| discriminate].
  apply Nat.eqb_eq in Hlen. destruct (IH H) as [Hall _].
  rewrite (proj2 (Nat.ltb_lt _ _) Hle), Hall. split; [reflexivity | auto].
Qed.

Lemma words_in_range (bound : nat) (l : list nat) :
  forallb (fun v => (v <? bound)%nat) l = true ->
  existsb (fun v => (bound <=? v)%nat) l = false.
Proof.
  induction l as [| v l IH]; intros H; [reflexivity |].
  cbn [forallb] in H. apply andb_true_iff in H. destruct H as [Hv Hl].
  apply Nat.ltb_lt in Hv. cbn [existsb]. rewrite (IH Hl).
  now rewrite (proj2 (Nat.leb_gt _ _) Hv).
Qed.

Lemma words_out_of_range (bound : nat) (l : list nat) :
  existsb (fun v => (bound <=? v)%nat) l
  = negb (forallb (fun v => (v <? bound)%nat) l).
Proof.
  induction l as [| v l IH]; [reflexivity |].
  cbn [existsb forallb]. rewrite IH, negb_andb, Nat.ltb_antisym, negb_involutive.
  reflexivity.
Qed.

(** The round raises nothing on authors and words in range when each
    prior vector has one entry. *)
Lemma check_iteration_runs (cfg : Config) (authors_d : list nat) (doc : Doc) :
  nonempty authors_d = true ->
  forallb (fun a => (a <? num_authors cfg)%nat
                    && is_some (dict_get (author2doc cfg) a)) authors_d = true ->
  forallb (fun v => (v <? num_terms cfg)%nat) (ids doc) = true ->
  one_entry_priors cfg = true ->
  check_iteration cfg authors_d doc = Ok tt.
Proof.
  intros Hne Hauthors Hwords Hpriors. unfold one_entry_priors in Hpriors.
  apply andb_true_iff in Hpriors. destruct Hpriors as [Hlen Hterms].
  apply Nat.eqb_eq in Hlen.
  destruct (authors_in_range cfg authors_d Hauthors Hlen) as [Hex Hcheck].
  unfold check_iteration.
  rewrite Hex, (words_in_range _ _ Hwords), Hne, Hcheck, Hterms.
  destruct (nonempty (ids doc)), (0 <? num_topics cfg)%nat; reflexivity.
Qed.

(** And a round on a document with a word and a topic raises nothing
    only then. *)
Lemma check_iteration_Ok (cfg : Config) (authors_d : list nat) (doc : Doc) :
  check_iteration cfg authors_d doc = Ok tt ->
  nonempty (ids doc) = true ->
  (0 < num_topics cfg)%nat ->
  nonempty authors_d = true
  /\ forallb (fun a => (a <? num_authors cfg)%nat
                       && is_some (dict_get (author2doc cfg) a)) authors_d
     = true
  /\ forallb (fun v => (v <? num_terms cfg)%nat) (ids doc) = true
  /\ one_entry_priors cfg = true.
Proof.
  intros H Hids HK. unfold check_iteration in H.
  rewrite Hids, (proj2 (Nat.ltb_lt _ _) HK),
    (words_out_of_range (num_terms cfg) (ids doc)) in H.
  destruct (existsb (fun a => (num_authors cfg <=? a)%nat) authors_d);
    cbn [andb orb negb guard bind] in H; [discriminate |].
  destruct (forallb (fun v => (v <? num_terms cfg)%nat) (ids doc));
    cbn [andb orb negb guard bind] in H; [| discriminate].
  destruct (nonempty authors_d) eqn:Hne in H;
    cbn [andb orb negb guard bind] in H; [| discriminate].
  destruct (check_gamma cfg authors_d) as [[] | e] eqn:Hgamma;
    cbn [bind] in H; [| discriminate].
  destruct (check_gamma_Ok cfg authors_d Hgamma) as [Hall Hlen].
  destruct (num_terms cfg =? 1)%nat eqn:Hterms;
    cbn [andb orb negb guard bind] in H; [| discriminate].
  unfold one_entry_priors.
  rewrite (Hlen Hne), Hterms. auto.
Qed.

(** A well-formed document is processed when the base of the rate is
    positive and, if a round runs, each prior vector has one entry. *)
Lemma process_doc_total (de : nat -> nat -> Matrix -> Matrix) (cfg : Config)
      (num_docs : nat) (s : State) (d : nat) (doc : Doc) :
  doc_ok cfg d doc = true ->
  ((0 < iterations cfg)%nat -> one_entry_priors cfg = true) ->
  0 < offset cfg + INR (t s) ->
  exists authors_d,
    dict_get (doc2author cfg) d = Some authors_d
    /\ process_doc de cfg num_docs s d doc
       = Ok (refresh de cfg
               (global_update (rho cfg (t s)) doc
                  (fst (iterate cfg num_docs authors_d doc (iterations cfg) 0
                          s (init_mu authors_d doc))))).
Proof.
  unfold doc_ok. intros Hok Hpriors Hbase.
  destruct (dict_get (doc2author cfg) d) as [authors_d |] eqn:Hget;
    [| discriminate].
  apply andb_true_iff in Hok. destruct Hok as [H Hdoc].
  apply andb_true_iff in H. destruct H as [Hne Hauthors].
  apply andb_true_iff in Hdoc. destruct Hdoc as [Hids Hwords].
  exists authors_d. split; [reflexivity |].
  apply process_doc_runs; auto.
  - intros Hit. apply check_iteration_runs; auto.
  - now apply rhot_positive_base.
Qed.

(** A processed document was well formed, and when a round ran on a
    topic each prior vector had one entry. *)
Lemma process_doc_Ok_conditions (de : nat -> nat -> Matrix -> Matrix)
      (cfg : Config) (num_docs : nat) (s : State) (d : nat) (doc : Doc)
      (s' : State) :
  process_doc de cfg num_docs s d doc = Ok s' ->
  (0 < iterations cfg)%nat -> (0 < num_topics cfg)%nat ->
  doc_ok cfg d doc = true /\ one_entry_priors cfg = true.
Proof.
  intros Hrun Hit HK.
  destruct (process_doc_Ok de cfg num_docs s d doc s' Hrun)
    as [authors_d [r [Hget [Hcheck [_ [Hids [Hwords _]]]]]]].
  destruct (check_iteration_Ok cfg authors_d doc (Hcheck Hit) Hids HK)
    as [Hne [Hauthors [_ Hpriors]]].
  unfold doc_ok. rewrite Hget, Hne, Hauthors, Hids, Hwords. auto.
Qed.

(** C2: where a round completes its [tilde_gamma] update, the vector
    [self.alpha] has one entry and, for every author [a] of the document
    and every topic [k],
    [tilde_gamma[a, k] = alpha + len(author2doc[a]) * sum over the
    document's (v, count) of count * mu[v, a] * phi[v, k]], with the [mu]
    and [phi] of that round.  But line 245 adds the whole vector
    [self.alpha] to the cell: when it has another number of entries than
    one, no document is processed (with a round and a topic); with two
    topics, two authors and the document [(0, 3), (2, 1)] the first
    author's first cell raises [ValueError]. *)
Theorem C2_tilde_gamma_update :
  (forall cfg num_docs authors_d doc s var_mu a k docs_a,
      check_iteration cfg authors_d doc = Ok tt ->
      In a authors_d ->
      (k < num_topics cfg)%nat ->
      dict_get (author2doc cfg) a = Some docs_a ->
      let s' := fst (iteration_body cfg num_docs authors_d doc s var_mu) in
      let var_mu' := snd (iteration_body cfg num_docs authors_d doc s var_mu) in
      len_alpha cfg = 1%nat
      /\ tilde_gamma s' a k =
         alpha cfg
         + INR (length docs_a)
           * accumulate
               (fun vc : nat * nat =>
                  INR (snd vc) * var_mu' (fst vc) a * var_phi s' (fst vc) k)
               doc)
  /\ (forall de cfg num_docs s d doc s',
         (0 < iterations cfg)%nat -> (0 < num_topics cfg)%nat ->
         len_alpha cfg <> 1%nat ->
         process_doc de cfg num_docs s d doc <> Ok s')
  /\ (forall de s,
         len_alpha demo_config = 2%nat
         /\ process_doc de demo_config 1 s 0 demo_doc
            = Raise (ValueError setitem_msg)).
Proof.
  split; [| split].
  - intros cfg num_docs authors_d doc s var_mu a k docs_a Hcheck Ha Hk Hget.
    cbv zeta. split.
    + unfold check_iteration in Hcheck.
      destruct (guard _ IndexError); cbn [bind] in Hcheck; [| discriminate].
      destruct (guard _ ZeroDivisionError); cbn [bind] in Hcheck;
        [| discriminate].
      rewrite (proj2 (Nat.ltb_lt 0 (num_topics cfg)) ltac:(lia)) in Hcheck.
      destruct (check_gamma cfg authors_d) as [[] | e] eqn:Hgamma;
        [| discriminate].
      apply (proj2 (check_gamma_Ok cfg authors_d Hgamma)).
      destruct authors_d; [contradiction | reflexivity].
    + unfold iteration_body.
      cbn [fst snd tilde_gamma var_phi]. rewrite update_gamma_spec.
      apply mem_In in Ha. apply Nat.ltb_lt in Hk. rewrite Ha, Hk. cbn [andb].
      unfold author_len. rewrite Hget. unfold gamma_sum. lra.
  - intros de cfg num_docs s d doc s' Hit HK Hlen Hrun.
    destruct (process_doc_Ok_conditions de cfg num_docs s d doc s' Hrun Hit HK)
      as [_ Hpriors].
    unfold one_entry_priors in Hpriors. apply andb_true_iff in Hpriors.
    destruct Hpriors as [H _]. apply Nat.eqb_eq in H. contradiction.
  - intros de s. split; reflexivity.
Qed.

Lemma C2_tilde_gamma_witness :
  let s' := fst (iteration_body duo_config 2%nat [0%nat; 1%nat] [(0%nat, 3%nat)]
                   duo_state (init_mu [0%nat; 1%nat] [(0%nat, 3%nat)])) in
  let var_mu' := snd (iteration_body duo_config 2%nat [0%nat; 1%nat]
                        [(0%nat, 3%nat)] duo_state
                        (init_mu [0%nat; 1%nat] [(0%nat, 3%nat)])) in
  check_iteration duo_config [0%nat; 1%nat] [(0%nat, 3%nat)] = Ok tt
  /\ len_alpha duo_config = 1%nat
  /\ tilde_gamma s' 1%nat 0%nat =
     alpha duo_config
     + INR (length [0%nat])
       * accumulate
           (fun vc : nat * nat =>
              INR (snd vc) * var_mu' (fst vc) 1%nat * var_phi s' (fst vc) 0%nat)
           [(0%nat, 3%nat)].
Proof.
  cbv zeta. split; [reflexivity |].
  apply (proj1 C2_tilde_gamma_update duo_config 2%nat [0%nat; 1%nat]
           [(0%nat, 3%nat)] duo_state
           (init_mu [0%nat; 1%nat] [(0%nat, 3%nat)]) 1%nat 0%nat [0%nat]).
  - reflexivity.
  - simpl. auto.
  - simpl. lia.
  - reflexivity.
Defined.

(** C5, as stated, fails when an author is listed twice for a document:
    [doc2author = {0: [0, 0]}] with one topic, one term and the document
    [(0, 1)].  The unnormalised weight 1 is added to [mu_sum] twice and
    the stored weight is rescaled twice: [mu[0, 0] = 1/4], and the
    weights of the two listed authors add up to [1/2]. *)
Lemma C5_repeated_author_counterexample :
  let cfg := unit_config 1 (1 / 2) in
  let s' := fst (iteration_body cfg 1 [0%nat; 0%nat] unit_doc (unit_state 1)
                   (init_mu [0%nat; 0%nat] unit_doc)) in
  let var_mu' := snd (iteration_body cfg 1 [0%nat; 0%nat] unit_doc
                        (unit_state 1) (init_mu [0%nat; 0%nat] unit_doc)) in
  check_iteration cfg [0%nat; 0%nat] unit_doc = Ok tt
  /\ In 0%nat (ids unit_doc)
  /\ mu_total cfg (unit_state 1) (var_phi s') [0%nat; 0%nat] 0 = 2
  /\ var_mu' 0%nat 0%nat = 1 / 4
  /\ accumulate (fun a => var_mu' 0%nat a) [0%nat; 0%nat] = 1 / 2
  /\ accumulate (fun a => var_mu' 0%nat a) [0%nat; 0%nat] <> 1.
Proof.
  cbv zeta. split; [reflexivity |]. split; [simpl; auto |].
  unfold iteration_body. cbn [fst snd var_phi].
  set (phi' := update_phi (unit_config 1 (1 / 2)) (unit_state 1)
                 (init_mu [0%nat; 0%nat] unit_doc) [0%nat; 0%nat] unit_doc
                 (var_phi (unit_state 1))).
  assert (Hun : mu_unnorm (unit_config 1 (1 / 2)) (unit_state 1) phi' 0 0 = 1).
  { unfold mu_unnorm.
    cbn [num_topics unit_config seq Elogtheta unit_state].
    rewrite accumulate_cons, accumulate_nil. unfold const_matrix.
    rewrite Rmult_0_r, Rplus_0_r. apply exp_0. }
  assert (Htot : mu_total (unit_config 1 (1 / 2)) (unit_state 1) phi'
                   [0%nat; 0%nat] 0 = 2).
  { unfold mu_total. rewrite !accumulate_cons, accumulate_nil, Hun. lra. }
  assert (Hmu : update_mu (unit_config 1 (1 / 2)) (unit_state 1) phi'
                  [0%nat; 0%nat] unit_doc (init_mu [0%nat; 0%nat] unit_doc)
                  0%nat 0%nat = 1 / 4).
  { rewrite update_mu_spec.
    cbn [ids unit_doc map fst mem existsb Nat.eqb orb andb].
    rewrite Hun, Htot.
    replace (count_occ Nat.eq_dec [0%nat; 0%nat] 0%nat) with 2%nat
      by reflexivity.
    simpl. lra. }
  split; [exact Htot |]. split; [exact Hmu |].
  rewrite !accumulate_cons, accumulate_nil, Hmu. split; lra.
Qed.

Lemma C6_untouched_columns_witness :
  exists s',
    process_doc demo_expectation no_round_config 1
      (initial_state demo_expectation no_round_config (const_matrix 1)
         (const_matrix 1)) 0 [(0%nat, 1%nat)] = Ok s'
    /\ forall k, var_lambda s' k 1%nat = 1.
Proof.
  destruct (process_doc_total demo_expectation no_round_config 1
              (initial_state demo_expectation no_round_config (const_matrix 1)
                 (const_matrix 1)) 0 [(0%nat, 1%nat)])
    as [authors_d [_ Hs']].
  - reflexivity.
  - cbn. lia.
  - cbn. lra.
  - eexists. split; [exact Hs' |].
    intros k.
    rewrite (C6_untouched_columns demo_expectation no_round_config 1
               (initial_state demo_expectation no_round_config (const_matrix 1)
                  (const_matrix 1)) 0 [(0%nat, 1%nat)] _ 1 Hs').
    + reflexivity.
    + simpl. intuition lia.
Defined.

(** ** Positivity of the Dirichlet parameters *)

Section Positivity.
Variable cfg : Config.
Variable num_docs : nat.
Variable authors_d : list nat.
Variable doc : Doc.
Hypothesis alpha_pos : 0 < alpha cfg.
Hypothesis eta_pos : 0 < eta cfg.

Lemma update_phi_pos (s : State) (var_mu m : Matrix) (v k : nat) :
  (forall k v, expElogbeta s k v = exp (Elogbeta s k v)) ->
  In v (ids doc) -> (k < num_topics cfg)%nat ->
  0 < update_phi cfg s var_mu authors_d doc m v k.
Proof.
  intros Hsync Hv Hk. rewrite update_phi_spec.
  rewrite (proj2 (mem_In _ _) Hv), (proj2 (Nat.ltb_lt _ _) Hk). cbn [andb].
  apply Rdiv_lt_0_compat.
  - apply phi_unnorm_pos. rewrite Hsync. apply exp_pos.
  - apply phi_total_pos; [lia |]. intros k' _. rewrite Hsync. apply exp_pos.
Qed.

Lemma update_mu_pos (s : State) (var_phi m : Matrix) (v a : nat) :
  In v (ids doc) -> In a authors_d ->
  0 < update_mu cfg s var_phi authors_d doc m v a.
Proof.
  intros Hv Ha. rewrite update_mu_spec.
  rewrite (proj2 (mem_In _ _) Hv), (proj2 (mem_In _ _) Ha). cbn [andb].
  apply Rmult_lt_0_compat; [apply mu_unnorm_pos |].
  apply pow_lt. apply Rdiv_lt_0_compat; [lra |].
  apply mu_total_pos. intros E. rewrite E in Ha. contradiction.
Qed.

Lemma gamma_sum_nonneg (var_mu var_phi : Matrix) (a k : nat) :
  (forall v, In v (ids doc) -> 0 < var_mu v a) ->
  (forall v, In v (ids doc) -> 0 < var_phi v k) ->
  0 <= gamma_sum var_mu var_phi doc a k.
Proof.
  intros Hmu Hphi. unfold gamma_sum. apply accumulate_nonneg.
  intros [v c] Hin. cbn [fst snd].
  assert (Hv : In v (ids doc)).
  { unfold ids. change v with (fst (v, c)). now apply in_map. }
  pose proof (pos_INR c). pose proof (Hmu v Hv). pose proof (Hphi v Hv).
  apply Rmult_le_pos; [apply Rmult_le_pos |]; lra.
Qed.

Lemma iteration_body_positive (s : State) (var_mu : Matrix) :
  positive_state cfg s ->
  positive_state cfg
    (fst (iteration_body cfg num_docs authors_d doc s var_mu)).
Proof.
  intros [Hg Hl Htg Htl Hsync]. unfold iteration_body.
  constructor; cbn [fst var_gamma var_lambda tilde_gamma tilde_lambda
                    expElogbeta Elogbeta]; try assumption.
  - intros k v Hk Hv. rewrite update_lambda_spec.
    rewrite (proj2 (Nat.ltb_lt _ _) Hk). cbn [andb].
    destruct (mem v (ids doc)) eqn:M; [| now apply Hl].
    apply mem_In in M.
    pose proof (update_phi_pos s var_mu (var_phi s) v k Hsync M Hk).
    pose proof (pos_INR num_docs). pose proof (pos_INR (doc_count doc v)).
    assert (0 <= INR num_docs * INR (doc_count doc v)
                 * update_phi cfg s var_mu authors_d doc (var_phi s) v k).
    { apply Rmult_le_pos; [apply Rmult_le_pos |]; lra. }
    lra.
  - intros a k Ha Hk. rewrite update_gamma_spec.
    rewrite (proj2 (Nat.ltb_lt _ _) Hk), andb_true_r.
    destruct (mem a authors_d) eqn:M; [| now apply Htg].
    apply mem_In in M.
    assert (0 <= gamma_sum
                   (update_mu cfg s
                      (update_phi cfg s var_mu authors_d doc (var_phi s))
                      authors_d doc var_mu)
                   (update_phi cfg s var_mu authors_d doc (var_phi s))
                   doc a k).
    { apply gamma_sum_nonneg.
      - intros v Hv. now apply update_mu_pos.
      - intros v Hv. now apply update_phi_pos. }
    pose proof (pos_INR (author_len cfg a)).
    assert (0 <= gamma_sum
                   (update_mu cfg s
                      (update_phi cfg s var_mu authors_d doc (var_phi s))
                      authors_d doc var_mu)
                   (update_phi cfg s var_mu authors_d doc (var_phi s))
                   doc a k * INR (author_len cfg a)).
    { apply Rmult_le_pos; lra. }
    lra.
Qed.

Lemma iterate_positive (n iteration : nat) (s : State) (var_mu : Matrix) :
  positive_state cfg s ->
  positive_state cfg
    (fst (iterate cfg num_docs authors_d doc n iteration s var_mu)).
Proof.
  apply (iterate_invariant (positive_state cfg)).
  - intros s0 mu0. apply iteration_body_positive.
  - intros s0 c [Hg Hl Htg Htl Hsync]. constructor; assumption.
Qed.

End Positivity.

Lemma blend_pos (rhot x y : R) :
  0 <= rhot <= 1 -> 0 < x -> 0 < y -> 0 < (1 - rhot) * x + rhot * y.
Proof.
  intros [H0 H1] Hx Hy.
  destruct (Rle_lt_dec rhot (1 / 2)).
  - assert (0 < (1 - rhot) * x) by (apply Rmult_lt_0_compat; lra).
    assert (0 <= rhot * y) by (apply Rmult_le_pos; lra). lra.
  - assert (0 <= (1 - rhot) * x) by (apply Rmult_le_pos; lra).
    assert (0 < rhot * y) by (apply Rmult_lt_0_compat; lra). lra.
Qed.

Section PositiveRun.
Variable de : nat -> nat -> Matrix -> Matrix.
Variable cfg : Config.
Hypothesis offset_ge_1 : 1 <= offset cfg.
Hypothesis decay_nonneg : 0 <= decay cfg.
Hypothesis alpha_pos : 0 < alpha cfg.
Hypothesis eta_pos : 0 < eta cfg.

Lemma rho_unit (t : nat) : 0 <= rho cfg t <= 1.
Proof.
  split; [left; apply rho_pos | now apply rho_le_1].
Qed.

Lemma rhot_unit (t : nat) (r : R) : rhot cfg t = Ok r -> 0 <= r <= 1.
Proof.
  assert (Hbase : 0 < offset cfg + INR t) by (pose proof (pos_INR t); lra).
  rewrite (rhot_positive_base cfg t Hbase). intros [= <-]. apply rho_unit.
Qed.

Lemma global_update_positive (r : R) (doc : Doc) (s : State) :
  0 <= r <= 1 ->
  positive_state cfg s ->
  positive_state cfg (refresh de cfg (global_update r doc s)).
Proof.
  intros Hr [Hg Hl Htg Htl Hsync].
  constructor; cbn [refresh global_update var_gamma var_lambda tilde_gamma
                    tilde_lambda expElogbeta Elogbeta]; try assumption.
  - intros a k Ha Hk. unfold blend.
    apply blend_pos; [exact Hr | now apply Hg | now apply Htg].
  - intros k v Hk Hv. unfold blend_columns.
    destruct (mem v (ids doc)); [| now apply Hl].
    apply blend_pos; [exact Hr | now apply Hl | now apply Htl].
  - reflexivity.
Qed.

Lemma process_doc_positive (num_docs : nat) (s : State) (d : nat) (doc : Doc)
      (s' : State) :
  process_doc de cfg num_docs s d doc = Ok s' ->
  positive_state cfg s -> positive_state cfg s'.
Proof.
  intros Hrun Hs.
  destruct (process_doc_Ok de cfg num_docs s d doc s' Hrun)
    as [authors_d [r [_ [_ [Hr [_ [_ ->]]]]]]].
  apply global_update_positive; [exact (rhot_unit _ _ Hr) |].
  now apply iterate_positive.
Qed.

Lemma run_corpus_positive (num_docs : nat) (docs : list (nat * Doc))
      (s s' : State) :
  run_corpus de cfg num_docs docs s = Ok s' ->
  positive_state cfg s -> positive_state cfg s'.
Proof.
  revert s. induction docs as [| [d doc] docs IH]; intros s Hrun Hs;
    cbn [run_corpus] in Hrun.
  - injection Hrun as <-. exact Hs.
  - destruct (process_doc de cfg num_docs s d doc) as [s1 |] eqn:E;
      cbn [bind] in Hrun; [| discriminate].
    apply (IH s1 Hrun). exact (process_doc_positive _ _ _ _ _ E Hs).
Qed.

Lemma run_passes_positive (c : Corpus) (n : nat) (s s' : State) :
  run_passes de cfg c n s = Ok s' ->
  positive_state cfg s -> positive_state cfg s'.
Proof.
  revert s. induction n as [| n IH]; intros s Hrun Hs;
    cbn [run_passes] in Hrun.
  - injection Hrun as <-. exact Hs.
  - destruct (run_corpus de cfg (length c) (enumerate c) (with_converged s 0))
      as [s1 |] eqn:E; cbn [bind] in Hrun; [| discriminate].
    destruct (guard (negb (eval_every cfg =? 0)%nat) ZeroDivisionError);
      cbn [bind] in Hrun; [| discriminate].
    apply (IH s1 Hrun). apply (run_corpus_positive _ _ _ _ E).
    destruct Hs as [Hg Hl Htg Htl Hsync]. constructor; assumption.
Qed.

Lemma initial_state_positive (init_gamma init_lambda : Matrix) :
  positive (num_authors cfg) (num_topics cfg) init_gamma ->
  positive (num_topics cfg) (num_terms cfg) init_lambda ->
  positive_state cfg (initial_state de cfg init_gamma init_lambda).
Proof.
  intros Hg Hl. constructor; cbn; auto.
Qed.

End PositiveRun.

Lemma iterate_once (cfg : Config) (num_docs : nat) (authors_d : list nat)
      (doc : Doc) (s : State) (var_mu : Matrix) :
  iterate cfg num_docs authors_d doc 1 0 s var_mu =
  iteration_body cfg num_docs authors_d doc s var_mu.
Proof.
  cbn [iterate].
  destruct (iteration_body cfg num_docs authors_d doc s var_mu) as [s1 mu1].
  reflexivity.
Qed.

Lemma unit_process_doc (de : nat -> nat -> Matrix -> Matrix)
      (offset decay : R) (s : State) :
  0 < offset ->
  process_doc de (unit_config offset decay) 1 s 0 unit_doc =
  Ok (refresh de (unit_config offset decay)
        (global_update (rho (unit_config offset decay) (t s)) unit_doc
           (fst (iteration_body (unit_config offset decay) 1 [0%nat] unit_doc
                   s (init_mu [0%nat] unit_doc))))).
Proof.
  intros Hoff. rewrite <- iterate_once.
  apply (process_doc_runs de (unit_config offset decay) 1 s 0 unit_doc
           [0%nat]); try reflexivity.
  apply rhot_positive_base. change (0 < offset + INR (t s)).
  pose proof (pos_INR (t s)). lra.
Qed.

(** C3, as stated, fails: one topic, one term, one author, the document
    [(0, 1)], one round, one pass, [offset = 1/2] and [decay = 1], so that
    [rho 0 = 2].  From the positive draws [var_gamma = 5] and
    [var_lambda = 1] the round gives [tilde_gamma = 2] and the blend
    [var_gamma = (1 - 2) * 5 + 2 * 2 = -1], whatever the expected
    log-probabilities are. *)
Lemma C3_positivity_counterexample :
  positive 1 1 (const_matrix 5)
  /\ positive 1 1 (const_matrix 1)
  /\ 0 < offset (unit_config (1 / 2) 1)
  /\ 0 < decay (unit_config (1 / 2) 1) <= 1
  /\ forall de : nat -> nat -> Matrix -> Matrix,
       exists g l,
         inference de (unit_config (1 / 2) 1) None (const_matrix 5)
           (const_matrix 1) = Ok (g, l)
         /\ g 0%nat 0%nat = -1
         /\ ~ positive 1 1 g.
Proof.
  split; [intros i j _ _; unfold const_matrix; lra |].
  split; [intros i j _ _; unfold const_matrix; lra |].
  split; [simpl; lra |]. split; [simpl; lra |].
  intros de. unfold inference.
  cbn [corpus unit_config bind]. unfold check_word_bound.
  cbn [corpus unit_config enumerate length seq combine check_word_bound_docs].
  unfold check_word_bound_doc.
  cbn [dict_get doc2author unit_config Nat.eqb ids unit_doc map fst nonempty
       num_topics num_terms num_authors Nat.ltb Nat.leb existsb andb orb negb
       guard bind].
  unfold check_theta_bound.
  cbn [num_authors len_alpha num_topics unit_config Nat.ltb Nat.leb Nat.eqb
       negb orb guard bind].
  cbn [passes unit_config run_passes length enumerate seq combine run_corpus].
  rewrite unit_process_doc by lra.
  cbn [bind eval_every unit_config Nat.eqb negb guard].
  eexists. eexists. split; [reflexivity |].
  cbn [refresh global_update var_gamma].
  set (s0 := with_converged
               (initial_state de (unit_config (1 / 2) 1) (const_matrix 5)
                  (const_matrix 1)) 0).
  assert (Htg := unit_tilde_gamma (1 / 2) 1 s0 (init_mu [0%nat] unit_doc)).
  set (s1 := fst (iteration_body (unit_config (1 / 2) 1) 1 [0%nat] unit_doc s0
                    (init_mu [0%nat] unit_doc))) in *.
  assert (Hval : blend (rho (unit_config (1 / 2) 1) (t s0)) (var_gamma s1)
                   (tilde_gamma s1) 0%nat 0%nat = -1).
  { unfold blend. rewrite Htg by (cbn; apply exp_pos).
    change (t s0) with 0%nat. change (var_gamma s1 0%nat 0%nat) with 5.
    unfold rho. cbn [offset decay unit_config INR].
    rewrite Rplus_0_r, Rpower_Ropp, Rpower_1 by lra. lra. }
  split; [exact Hval |].
  intros Hpos. pose proof (Hpos 0%nat 0%nat ltac:(lia) ltac:(lia)). lra.
Qed.

(** What a successful [inference] computed. *)
Lemma inference_Ok (de : nat -> nat -> Matrix -> Matrix) (cfg : Config)
      (corpus_arg : option Corpus) (init_gamma init_lambda g l : Matrix) :
  inference de cfg corpus_arg init_gamma init_lambda = Ok (g, l) ->
  exists c s,
    check_word_bound cfg = Ok tt
    /\ check_theta_bound cfg = Ok tt
    /\ run_passes de cfg c (passes cfg)
         (initial_state de cfg init_gamma init_lambda) = Ok s
    /\ g = var_gamma s /\ l = var_lambda s.
Proof.
  unfold inference. intros Hrun.
  destruct (match corpus_arg with
            | Some c => Ok c
            | None =>
                match corpus cfg with
                | Some c => Ok c
                | None =>
                    Raise (AttributeError "'NoneType' object has no attribute 'copy'")
                end
            end) as [c |]; cbn [bind] in Hrun; [| discriminate].
  destruct (check_word_bound cfg) as [[] |]; cbn [bind] in Hrun;
    [| discriminate].
  destruct (check_theta_bound cfg) as [[] |]; cbn [bind] in Hrun;
    [| discriminate].
  destruct (run_passes de cfg c (passes cfg)
              (initial_state de cfg init_gamma init_lambda)) as [s |] eqn:E;
    cbn [bind] in Hrun; [| discriminate].
  injection Hrun as <- <-. exists c, s. auto.
Qed.

(** C3, amended: when [offset >= 1] and [decay >= 0], so that every rate
    lies in (0, 1], and the priors [alpha] and [eta] are positive, each
    per-document update keeps [var_gamma], [var_lambda] and the local
    targets [tilde_gamma], [tilde_lambda] strictly positive; hence from
    strictly positive draws the matrices [inference] returns are strictly
    positive, for any corpus and any number of passes. *)
Theorem C3_positivity_preserved (de : nat -> nat -> Matrix -> Matrix)
    (cfg : Config) :
  1 <= offset cfg -> 0 <= decay cfg -> 0 < alpha cfg -> 0 < eta cfg ->
  (forall num_docs s d doc s',
      positive_state cfg s ->
      process_doc de cfg num_docs s d doc = Ok s' ->
      positive_state cfg s')
  /\ (forall corpus_arg init_gamma init_lambda g l,
        positive (num_authors cfg) (num_topics cfg) init_gamma ->
        positive (num_topics cfg) (num_terms cfg) init_lambda ->
        inference de cfg corpus_arg init_gamma init_lambda = Ok (g, l) ->
        positive (num_authors cfg) (num_topics cfg) g
        /\ positive (num_topics cfg) (num_terms cfg) l).
Proof.
  intros Hoff Hdec Halpha Heta. split.
  - intros num_docs s d doc s' Hs Hrun.
    exact (process_doc_positive de cfg Hoff Hdec Halpha Heta
             num_docs s d doc s' Hrun Hs).
  - intros corpus_arg init_gamma init_lambda g l Hg Hl Hrun.
    destruct (inference_Ok de cfg corpus_arg init_gamma init_lambda g l Hrun)
      as [c [s [_ [_ [E [-> ->]]]]]].
    pose proof (run_passes_positive de cfg Hoff Hdec Halpha Heta c
                  (passes cfg) _ s E
                  (initial_state_positive de cfg init_gamma init_lambda Hg Hl))
      as [Hpg Hpl _ _ _].
    split; assumption.
Qed.

(** ** The constructor's author maps *)

(** C7, as stated, fails when only [doc2author] is given: the derived map
    is built over [range(len(authors_ids))], not over the author ids.
    From [doc2author = {0: [5]}] it is [{0: []}]: author 5 is listed for
    document 0, document 0 is listed for no author. *)
Lemma C7_author_ids_counterexample :
  author_maps (maps_args None (Some [(0%nat, [5%nat])]))
  = Ok ([(0%nat, [])], [(0%nat, [5%nat])])
  /\ dict_wf [(0%nat, [5%nat])]
  /\ listed [(0%nat, [5%nat])] 0 5
  /\ ~ listed [(0%nat, [])] 5 0.
Proof.
  split; [reflexivity |]. split.
  - repeat constructor. simpl. tauto.
  - split.
    + exists [5%nat]. split; [reflexivity | simpl; auto].
    + intros [l [Hget _]]. discriminate.
Qed.

(** C7, amended: when only [author2doc] is given, the derived [doc2author]
    agrees with it on every author and every document of the corpus; when
    only [doc2author] is given and every author id in it is smaller than
    the number of distinct author ids (the ids are 0..n-1), the derived
    [author2doc] agrees with it on every author and document. *)
Theorem C7_derived_maps_consistent (args : Args) (supplied : dict (list nat)) :
  dict_wf supplied ->
  (arg_doc2author args = None ->
   arg_author2doc args = Some supplied ->
   forall c, arg_corpus args = Some c ->
   exists derived,
     author_maps args = Ok (supplied, derived)
     /\ forall a d, (d < length c)%nat ->
                    (listed supplied a d <-> listed derived d a))
  /\ (arg_author2doc args = None ->
      arg_doc2author args = Some supplied ->
      (forall d a_ids a,
          In (d, a_ids) supplied -> In a a_ids ->
          (a < length (authors_ids supplied))%nat) ->
      exists derived,
        author_maps args = Ok (derived, supplied)
        /\ forall a d, listed derived a d <-> listed supplied d a).
Proof.
  intros Hwf. split.
  - intros Hd2a Ha2d c Hc. exists (make_doc2author (length c) supplied).
    unfold author_maps. rewrite Hd2a, Ha2d, Hc. split; [reflexivity |].
    intros a d Hd. unfold listed. rewrite dict_get_make_doc2author.
    rewrite (proj2 (Nat.ltb_lt _ _) Hd). split.
    + intros [docs [Hget Hin]]. exists (authors_of supplied d).
      split; [reflexivity |]. apply In_authors_of. exists docs.
      split; [now apply dict_get_In | assumption].
    + intros [l [Hget Hin]]. injection Hget as <-.
      apply In_authors_of in Hin. destruct Hin as [docs [Hin Hd']].
      exists docs. split; [now apply In_dict_get | assumption].
  - intros Ha2d Hd2a Hids. exists (make_author2doc supplied).
    unfold author_maps. rewrite Hd2a, Ha2d. split; [reflexivity |].
    intros a d. unfold listed. rewrite dict_get_make_author2doc. split.
    + intros [l [Hget Hin]].
      destruct (a <? length (authors_ids supplied))%nat; [| discriminate].
      injection Hget as <-. apply In_docs_of in Hin.
      destruct Hin as [a_ids [Hin Ha]]. exists a_ids.
      split; [now apply In_dict_get | assumption].
    + intros [a_ids [Hget Hin]]. apply dict_get_In in Hget.
      rewrite (proj2 (Nat.ltb_lt _ _) (Hids d a_ids a Hget Hin)).
      exists (docs_of supplied a). split; [reflexivity |].
      apply In_docs_of. eauto.
Qed.

Lemma C7_derived_maps_witness :
  (exists derived,
      author_maps (maps_args (Some [(0%nat, [0%nat]); (1%nat, [0%nat])]) None)
      = Ok ([(0%nat, [0%nat]); (1%nat, [0%nat])], derived)
      /\ forall a d, (d < 1)%nat ->
           (listed [(0%nat, [0%nat]); (1%nat, [0%nat])] a d
            <-> listed derived d a))
  /\ (exists derived,
         author_maps (maps_args None (Some [(0%nat, [1%nat; 0%nat])]))
         = Ok (derived, [(0%nat, [1%nat; 0%nat])])
         /\ forall a d, listed derived a d
                        <-> listed [(0%nat, [1%nat; 0%nat])] d a).
Proof.
  split.
  - apply (proj1 (C7_derived_maps_consistent
                    (maps_args (Some [(0%nat, [0%nat]); (1%nat, [0%nat])]) None)
                    [(0%nat, [0%nat]); (1%nat, [0%nat])]
                    ltac:(repeat constructor; simpl; intuition lia))
             eq_refl eq_refl [unit_doc] eq_refl).
  - apply (proj2 (C7_derived_maps_consistent
                    (maps_args None (Some [(0%nat, [1%nat; 0%nat])]))
                    [(0%nat, [1%nat; 0%nat])]
                    ltac:(repeat constructor; simpl; intuition lia))
             eq_refl eq_refl).
    intros d a_ids a [H | []] Ha. injection H as <- <-.
    simpl in Ha. simpl. lia.
Defined.

(** ** The author query *)

Lemma enumerate_map_seq {A : Type} (f : nat -> A) (n : nat) :
  enumerate (map f (seq 0 n)) = map (fun k => (k, f k)) (seq 0 n).
Proof.
  unfold enumerate. rewrite length_map, length_seq.
  generalize 0%nat at 1 2 3 as start. induction n as [| n IH]; intros start;
    simpl; [reflexivity |].
  now rewrite IH.
Qed.

Lemma StronglySorted_filter {A : Type} (R : A -> A -> Prop) (p : A -> bool)
      (l : list A) :
  StronglySorted R l -> StronglySorted R (filter p l).
Proof.
  induction 1 as [| x l Hs IH Hall]; simpl; [constructor |].
  destruct (p x); [| exact IH].
  constructor; [exact IH |].
  rewrite Forall_forall in *. intros y Hy. apply filter_In in Hy.
  apply Hall. tauto.
Qed.

Lemma StronglySorted_seq (start n : nat) : StronglySorted lt (seq start n).
Proof.
  revert start. induction n as [| n IH]; intros start; simpl; constructor.
  - apply IH.
  - apply Forall_forall. intros y Hy. apply in_seq in Hy. lia.
Qed.

Lemma map_fst_filter_enumerated {A : Type} (f : nat -> A)
      (p : nat * A -> bool) (l : list nat) :
  map fst (filter p (map (fun k => (k, f k)) l))
  = filter (fun k => p (k, f k)) l.
Proof.
  induction l as [| k l IH]; simpl; [reflexivity |].
  destruct (p (k, f k)); simpl; now rewrite IH.
Qed.

(** C9: for an author id of the model and a supplied [minimum_probability],
    [get_author_topics] returns exactly the pairs (topic id, normalised
    entry of the author's [var_gamma] row) whose probability is at least
    [max(minimum_probability, 1e-8)], in increasing topic-id order; no
    returned probability is below [1e-8]. *)
Theorem C9_author_topics_threshold (m : Model) (author_id : nat) (p0 : R) :
  (author_id < num_authors (self m))%nat ->
  let total :=
    accumulate (self_var_gamma m author_id) (seq 0 (num_topics (self m))) in
  exists l,
    get_author_topics m author_id (Some p0) = Ok l
    /\ (forall k p,
           In (k, p) l <->
           (k < num_topics (self m))%nat
           /\ p = self_var_gamma m author_id k / total
           /\ Rmax p0 1e-8 <= p)
    /\ StronglySorted lt (map fst l)
    /\ (forall k p, In (k, p) l -> 1e-8 <= p).
Proof.
  intros Ha. cbv zeta. unfold get_author_topics.
  rewrite (proj2 (Nat.ltb_lt _ _) Ha). cbn [guard bind].
  eexists. split; [reflexivity |].
  rewrite enumerate_map_seq.
  assert (Hin : forall k p,
             In (k, p)
               (filter
                  (fun item : nat * R =>
                     if Rle_dec (Rmax p0 1e-8) (snd item) then true else false)
                  (map (fun k => (k, self_var_gamma m author_id k
                                     / accumulate (self_var_gamma m author_id)
                                         (seq 0 (num_topics (self m)))))
                     (seq 0 (num_topics (self m))))) <->
             (k < num_topics (self m))%nat
             /\ p = self_var_gamma m author_id k
                    / accumulate (self_var_gamma m author_id)
                        (seq 0 (num_topics (self m)))
             /\ Rmax p0 1e-8 <= p).
  { intros k p. rewrite filter_In, in_map_iff. cbn [snd]. split.
    - intros [[k' [Heq Hk']] Hp]. injection Heq as -> <-.
      apply in_seq in Hk'. split; [lia |]. split; [reflexivity |].
      destruct (Rle_dec _ _); [assumption | discriminate].
    - intros [Hk [-> Hp]]. split.
      + exists k. split; [reflexivity | apply in_seq; lia].
      + destruct (Rle_dec _ _); [reflexivity | contradiction]. }
  split; [exact Hin |]. split.
  - rewrite map_fst_filter_enumerated. apply StronglySorted_filter.
    apply StronglySorted_seq.
  - intros k p Hkp. apply Hin in Hkp. destruct Hkp as [_ [_ Hp]].
    pose proof (Rmax_r p0 1e-8). lra.
Qed.

Lemma C9_author_topics_witness :
  exists l,
    get_author_topics demo_model 1 (Some 0) = Ok l
    /\ (forall k p,
           In (k, p) l <->
           (k < 2)%nat
           /\ p = self_var_gamma demo_model 1%nat k
                  / accumulate (self_var_gamma demo_model 1%nat) (seq 0 2)
           /\ Rmax 0 1e-8 <= p)
    /\ StronglySorted lt (map fst l)
    /\ (forall k p, In (k, p) l -> 1e-8 <= p).
Proof.
  apply (C9_author_topics_threshold demo_model 1 0). simpl. lia.
Defined.

(** ** Errors raised by the constructor *)

Lemma guard_Raise (b : bool) (e e' : exn) :
  guard b e = Raise e' -> e' = e.
Proof. destruct b; simpl; congruence. Qed.

Ltac not_configuration :=
  let H := fresh in
  intros [H | [H | H]]; discriminate H.

Lemma guard_plain (b : bool) (e0 e : exn) :
  ~ configuration_error e0 ->
  guard b e0 = Raise e -> ~ configuration_error e.
Proof. intros H0 H. apply guard_Raise in H. now subst. Qed.

Lemma check_gamma_plain (cfg : Config) (l : list nat) (e : exn) :
  check_gamma cfg l = Raise e -> ~ configuration_error e.
Proof.
  induction l as [| a l IH]; cbn [check_gamma]; [discriminate |].
  destruct (num_authors cfg <=? a)%nat; [intros [= <-]; not_configuration |].
  destruct (dict_get (author2doc cfg) a); [| intros [= <-]; not_configuration].
  destruct (guard (len_alpha cfg =? 1)%nat (ValueError setitem_msg)) eqn:G;
    cbn [bind]; [exact IH |].
  intros [= <-]. revert G. apply guard_plain. not_configuration.
Qed.

Lemma check_iteration_plain (cfg : Config) (authors_d : list nat)
      (doc : Doc) (e : exn) :
  check_iteration cfg authors_d doc = Raise e -> ~ configuration_error e.
Proof.
  unfold check_iteration.
  destruct (guard _ IndexError) eqn:G1; cbn [bind];
    [| intros [= <-]; revert G1; apply guard_plain; not_configuration].
  destruct (guard _ ZeroDivisionError) eqn:G2; cbn [bind];
    [| intros [= <-]; revert G2; apply guard_plain; not_configuration].
  destruct (if (0 <? num_topics cfg)%nat then check_gamma cfg authors_d
            else Ok tt) eqn:G3; cbn [bind].
  - apply guard_plain. not_configuration.
  - intros [= <-]. destruct (0 <? num_topics cfg)%nat; [| discriminate].
    now apply check_gamma_plain in G3.
Qed.

Lemma rhot_plain (cfg : Config) (t : nat) (e : exn) :
  rhot cfg t = Raise e -> ~ configuration_error e.
Proof.
  unfold rhot, pow_float.
  repeat match goal with
         | |- context [if ?b then _ else _] => destruct b
         end; try discriminate; intros [= <-]; not_configuration.
Qed.

Section NoConfigurationError.
Variable de : nat -> nat -> Matrix -> Matrix.

Lemma process_doc_plain (cfg : Config) (num_docs : nat) (s : State)
      (d : nat) (doc : Doc) (e : exn) :
  process_doc de cfg num_docs s d doc = Raise e -> ~ configuration_error e.
Proof.
  unfold process_doc.
  destruct (dict_get (doc2author cfg) d) as [authors_d |];
    [| intros [= <-]; not_configuration].
  destruct (if (0 <? iterations cfg)%nat
            then check_iteration cfg authors_d doc else Ok tt) eqn:C;
    cbn [bind].
  - destruct (iterate cfg num_docs authors_d doc (iterations cfg) 0 s
                (init_mu authors_d doc)) as [s1 var_mu1].
    destruct (rhot cfg (t s1)) as [r | e'] eqn:Hr; cbn [bind].
    + destruct (guard _ IndexError) eqn:G; cbn [bind]; [discriminate |].
      intros [= <-]. revert G. apply guard_plain. not_configuration.
    + intros [= <-]. now apply rhot_plain in Hr.
  - intros [= <-]. destruct (0 <? iterations cfg)%nat; [| discriminate].
    now apply check_iteration_plain in C.
Qed.

Lemma run_corpus_plain (cfg : Config) (num_docs : nat)
      (docs : list (nat * Doc)) (s : State) (e : exn) :
  run_corpus de cfg num_docs docs s = Raise e -> ~ configuration_error e.
Proof.
  revert s. induction docs as [| [d doc] docs IH]; intros s;
    cbn [run_corpus]; [discriminate |].
  destruct (process_doc de cfg num_docs s d doc) as [s1 |] eqn:P; cbn [bind].
  - apply IH.
  - intros [= <-]. now apply process_doc_plain in P.
Qed.

Lemma run_passes_plain (cfg : Config) (c : Corpus) (n : nat)
      (s : State) (e : exn) :
  run_passes de cfg c n s = Raise e -> ~ configuration_error e.
Proof.
  revert s. induction n as [| n IH]; intros s; cbn [run_passes];
    [discriminate |].
  destruct (run_corpus de cfg (length c) (enumerate c) (with_converged s 0))
    as [s1 |] eqn:P; cbn [bind].
  - destruct (guard _ ZeroDivisionError) eqn:G; cbn [bind]; [apply IH |].
    intros [= <-]. revert G. apply guard_plain. not_configuration.
  - intros [= <-]. now apply run_corpus_plain in P.
Qed.

Lemma check_word_bound_plain (cfg : Config) (e : exn) :
  check_word_bound cfg = Raise e -> ~ configuration_error e.
Proof.
  unfold check_word_bound.
  destruct (corpus cfg) as [docs |]; [| intros [= <-]; not_configuration].
  induction (enumerate docs) as [| [d doc] l IH]; cbn [check_word_bound_docs];
    [discriminate |].
  unfold check_word_bound_doc at 1.
  destruct (dict_get (doc2author cfg) d) as [authors_d |]; cbn [bind];
    [| intros [= <-]; not_configuration].
  destruct (guard _ IndexError) eqn:G1; cbn [bind].
  - destruct (guard _ ZeroDivisionError) eqn:G2; cbn [bind]; [exact IH |].
    intros [= <-]. revert G2. apply guard_plain. not_configuration.
  - intros [= <-]. revert G1. apply guard_plain. not_configuration.
Qed.

Lemma inference_plain (cfg : Config) (corpus_arg : option Corpus)
      (init_gamma init_lambda : Matrix) (e : exn) :
  inference de cfg corpus_arg init_gamma init_lambda = Raise e ->
  ~ configuration_error e.
Proof.
  unfold inference.
  destruct (match corpus_arg with
            | Some c => Ok c
            | None =>
                match corpus cfg with
                | Some c => Ok c
                | None =>
                    Raise (AttributeError "'NoneType' object has no attribute 'copy'")
                end
            end) as [c |] eqn:C; cbn [bind].
  - destruct (check_word_bound cfg) eqn:W; cbn [bind];
      [| intros [= <-]; now apply check_word_bound_plain in W].
    destruct (check_theta_bound cfg) eqn:T; cbn [bind];
      [| intros [= <-]; revert T; apply guard_plain; not_configuration].
    destruct (run_passes de cfg c (passes cfg)
                (initial_state de cfg init_gamma init_lambda)) eqn:P;
      cbn [bind]; [discriminate |].
    intros [= <-]. now apply run_passes_plain in P.
  - intros [= <-]. destruct corpus_arg; [discriminate |].
    destruct (corpus cfg); [discriminate |]. injection C as <-.
    not_configuration.
Qed.

End NoConfigurationError.

Section Construction.
Variable de : nat -> nat -> Matrix -> Matrix.
Variable dict_from_corpus : Corpus -> dict string.
Variable class_num_topics : option nat.
Variables init_gamma init_lambda : Matrix.

Lemma vocabulary_size_Raise (args : Args) (e : exn) :
  vocabulary_size dict_from_corpus args = Raise e ->
  arg_corpus args = None /\ arg_id2word args = None /\ is_ValueError e = true.
Proof.
  unfold vocabulary_size.
  destruct (arg_corpus args), (arg_id2word args); try discriminate.
  intros [= <-]. auto.
Qed.

Lemma author_maps_Raise (args : Args) (e : exn) :
  author_maps args = Raise e ->
  is_ValueError e = true ->
  arg_author2doc args = None /\ arg_doc2author args = None.
Proof.
  unfold author_maps.
  destruct (arg_doc2author args), (arg_author2doc args); try discriminate.
  - destruct (arg_corpus args); [discriminate |].
    intros [= <-]. discriminate.
  - auto.
Qed.

Lemma init_ValueError (args : Args) (e : exn) :
  __init__ de dict_from_corpus class_num_topics init_gamma init_lambda args
  = Raise e ->
  configuration_error e ->
  (arg_corpus args = None /\ arg_id2word args = None)
  \/ vocabulary_size dict_from_corpus args = Ok 0%nat
  \/ (arg_author2doc args = None /\ arg_doc2author args = None).
Proof.
  unfold __init__. intros H Hconf.
  assert (Hval : is_ValueError e = true)
    by (destruct Hconf as [-> | [-> | ->]]; reflexivity).
  destruct (vocabulary_size dict_from_corpus args) as [n |] eqn:V;
    cbn [bind] in H.
  - destruct n as [| n]; [right; left; reflexivity |].
    cbn [Nat.eqb negb guard bind] in H.
    destruct (author_maps args) as [maps |] eqn:M; cbn [bind] in H.
    + exfalso.
      destruct class_num_topics; cbn [bind] in H;
        [| injection H as <-; discriminate].
      destruct (arg_corpus args); cbn [bind] in H;
        [| injection H as <-; discriminate].
      match type of H with
      | bind ?inf _ = _ => destruct inf as [gl |] eqn:I
      end; cbn [bind] in H; [discriminate |].
      injection H as ->. now apply inference_plain in I.
    + right. right. injection H as ->.
      now apply (author_maps_Raise args e).
  - left. apply vocabulary_size_Raise in V. tauto.
Qed.

(** C8, amended: the constructor raises a configuration error (one of the
    three [ValueError]s of lines 52, 65 and 70) exactly when both
    vocabulary sources are missing, when the vocabulary is empty, or when
    both author maps are missing.  An empty corpus is not rejected as
    such, and other configurations may still fail with other errors. *)
Theorem C8_configuration_errors (args : Args) :
  (exists e,
      __init__ de dict_from_corpus class_num_topics init_gamma init_lambda args
      = Raise e
      /\ configuration_error e)
  <->
  (arg_corpus args = None /\ arg_id2word args = None)
  \/ vocabulary_size dict_from_corpus args = Ok 0%nat
  \/ (arg_author2doc args = None /\ arg_doc2author args = None).
Proof.
  split.
  - intros [e [H Hconf]]. exact (init_ValueError args e H Hconf).
  - unfold __init__, configuration_error.
    intros [[Hc Hw] | [Hv | [Ha Hd]]].
    + unfold vocabulary_size. rewrite Hc, Hw. cbn [bind]. eauto.
    + rewrite Hv. cbn [bind Nat.eqb negb guard]. eauto 6.
    + destruct (vocabulary_size dict_from_corpus args) as [n |] eqn:V;
        cbn [bind].
      * destruct n as [| n]; cbn [Nat.eqb negb guard bind]; [eauto 6 |].
        unfold author_maps. rewrite Ha, Hd. cbn [bind]. eauto 6.
      * unfold vocabulary_size in V.
        destruct (arg_corpus args), (arg_id2word args); try discriminate.
        injection V as <-. eauto.
Qed.

(** C10: with [corpus=None] the constructor always raises; when [id2word]
    is not empty, [doc2author] is supplied and [self.num_topics] resolves
    at line 116, the error is the [TypeError] of [len(corpus)] at
    line 127. *)
Theorem C10_no_corpus_always_raises (args : Args) :
  arg_corpus args = None ->
  (exists e,
      __init__ de dict_from_corpus class_num_topics init_gamma init_lambda args
      = Raise e)
  /\ (forall id2word d2a n,
         arg_id2word args = Some id2word -> id2word <> [] ->
         arg_doc2author args = Some d2a ->
         class_num_topics = Some n ->
         __init__ de dict_from_corpus class_num_topics init_gamma init_lambda args
         = Raise (TypeError "object of type 'NoneType' has no len()")).
Proof.
  intros Hc. unfold __init__. split.
  - destruct (vocabulary_size dict_from_corpus args) as [n |]; cbn [bind];
      [| eauto].
    destruct (guard _ _); cbn [bind]; [| eauto].
    destruct (author_maps args); cbn [bind]; [| eauto].
    destruct class_num_topics; cbn [bind]; [| eauto].
    rewrite Hc. cbn [bind]. eauto.
  - intros id2word d2a n Hw Hne Hd Hn.
    unfold vocabulary_size, author_maps. rewrite Hc, Hw, Hd, Hn.
    destruct id2word as [| kv id2word]; [congruence |].
    cbn [length Nat.ltb Nat.leb bind Nat.add Nat.eqb negb guard].
    destruct (arg_author2doc args); reflexivity.
Qed.

End Construction.

Lemma C10_no_corpus_witness :
  (exists e,
      __init__ demo_expectation (fun _ => []) (Some 1%nat) (const_matrix 1)
        (const_matrix 1) no_corpus_args = Raise e)
  /\ __init__ demo_expectation (fun _ => []) (Some 1%nat) (const_matrix 1)
       (const_matrix 1) no_corpus_args
     = Raise (TypeError "object of type 'NoneType' has no len()").
Proof.
  destruct (C10_no_corpus_always_raises demo_expectation (fun _ => [])
              (Some 1%nat) (const_matrix 1) (const_matrix 1) no_corpus_args
              eq_refl) as [H1 H2].
  split; [exact H1 |].
  apply (H2 [(0%nat, "w"%string)] [(0%nat, [0%nat])] 1%nat eq_refl
           ltac:(discriminate) eq_refl eq_refl).
Defined.

Lemma zero_eval_inference (de : nat -> nat -> Matrix -> Matrix)
      (a e thr mp dec off : R) (n : nat) (init_gamma init_lambda : Matrix) :
  exists err,
    inference de
      (mkConfig (Some [unit_doc]) 1 1 1 a n e [(0%nat, [0%nat])]
         [(0%nat, [0%nat])] 1 1 thr mp dec off 0)
      (Some [unit_doc]) init_gamma init_lambda
    = Raise err.
Proof.
  unfold inference. cbn [bind]. unfold check_word_bound.
  cbn [corpus enumerate length seq combine check_word_bound_docs].
  unfold check_word_bound_doc.
  cbn [dict_get doc2author Nat.eqb ids unit_doc map fst nonempty
       num_topics num_terms num_authors Nat.ltb Nat.leb existsb andb orb negb
       guard bind].
  unfold check_theta_bound.
  cbn [num_authors len_alpha num_topics Nat.ltb Nat.leb Nat.eqb negb guard
       bind].
  rewrite !orb_true_r. cbn [guard bind].
  cbn [passes run_passes length enumerate seq combine run_corpus].
  match goal with
  | |- context [process_doc ?de ?c ?n ?s ?d ?doc] =>
      destruct (process_doc de c n s d doc) as [s1 | err]
  end; cbn [bind eval_every Nat.eqb negb guard]; eexists; reflexivity.
Qed.

Lemma empty_corpus_inference (de : nat -> nat -> Matrix -> Matrix)
      (a e thr mp dec off : R) (n : nat) (init_gamma init_lambda : Matrix) :
  inference de
    (mkConfig (Some []) 1 1 0 a n e [] [] 1 1 thr mp dec off 1)
    (Some []) init_gamma init_lambda
  = Ok (init_gamma, init_lambda).
Proof. reflexivity. Qed.

(** C8, as stated, fails twice.  A construction in none of the four
    listed cases is still rejected: with [eval_every = 0] it always
    raises, and none of the configuration errors.  And an empty corpus is
    accepted: with a vocabulary and an author map the constructor returns
    a model (when [self.num_topics] resolves at line 116), and in no case
    raises a configuration error. *)
Lemma C8_configuration_counterexample :
  (arg_corpus zero_eval_args = Some [unit_doc]
   /\ arg_id2word zero_eval_args = Some [(0%nat, "w"%string)]
   /\ arg_doc2author zero_eval_args = Some [(0%nat, [0%nat])]
   /\ forall de dfc cls init_gamma init_lambda,
        exists e,
          __init__ de dfc cls init_gamma init_lambda zero_eval_args = Raise e
          /\ ~ configuration_error e)
  /\ (arg_corpus empty_corpus_args = Some []
      /\ (forall de dfc n init_gamma init_lambda,
             exists m,
               __init__ de dfc (Some n) init_gamma init_lambda empty_corpus_args
               = Ok m)
      /\ forall de dfc cls init_gamma init_lambda e,
           __init__ de dfc cls init_gamma init_lambda empty_corpus_args = Raise e ->
           ~ configuration_error e).
Proof.
  split.
  - repeat (split; [reflexivity |]).
    intros de dfc cls init_gamma init_lambda. unfold __init__.
    cbn -[inference]. destruct cls as [n |]; cbn -[inference].
    + match goal with
      | |- context [inference ?de ?c ?a ?g ?l] =>
          destruct (zero_eval_inference de (1 / INR n) (1 / INR 1)
                      (1 / 1000) (1 / 100) (1 / 2) 1 n g l) as [err Herr];
          pose proof (inference_plain _ _ _ _ _ _ Herr) as Hplain;
          cbn [INR] in Herr; rewrite Herr
      end.
      cbn [bind]. eexists. split; [reflexivity | exact Hplain].
    + eexists. split; [reflexivity |]. intros [H | [H | H]]; discriminate.
  - split; [reflexivity |]. split.
    + intros de dfc n init_gamma init_lambda. unfold __init__.
      cbn -[inference]. rewrite empty_corpus_inference. cbn [bind]. eauto.
    + intros de dfc cls init_gamma init_lambda e. unfold __init__.
      cbn -[inference]. destruct cls as [n |]; cbn -[inference].
      * rewrite empty_corpus_inference. cbn [bind]. discriminate.
      * intros [= <-]. intros [H | [H | H]]; discriminate.
Qed.

(** * Further properties *)

(** ** Shape of the derived author maps *)

Lemma dict_keys_set {V : Type} (m : dict V) (k : nat) (v : V) :
  dict_keys (dict_set m k v) =
  if mem k (dict_keys m) then dict_keys m else dict_keys m ++ [k].
Proof.
  unfold dict_keys. induction m as [| [k0 v0] r IH]; [reflexivity |].
  cbn [dict_set map fst]. rewrite mem_cons, (Nat.eqb_sym k k0).
  destruct (k0 =? k)%nat eqn:E; cbn [map fst orb]; [reflexivity |].
  rewrite IH. destruct (mem k (map fst r)); reflexivity.
Qed.

Lemma dict_get_mem_keys {V : Type} (m : dict V) (k : nat) :
  mem k (dict_keys m) = is_some (dict_get m k).
Proof.
  unfold dict_keys. induction m as [| [k0 v0] r IH]; [reflexivity |].
  cbn [dict_get map fst]. rewrite mem_cons, (Nat.eqb_sym k k0).
  destruct (k0 =? k)%nat; cbn [orb is_some]; [reflexivity | exact IH].
Qed.

Lemma mem_seq_from (k start n : nat) :
  mem k (seq start n) = ((start <=? k) && (k <? start + n))%nat.
Proof.
  destruct (mem k (seq start n)) eqn:M.
  - apply mem_In, in_seq in M. symmetry. apply andb_true_intro.
    split; [apply Nat.leb_le | apply Nat.ltb_lt]; lia.
  - symmetry. apply not_true_is_false. intros H. apply andb_prop in H.
    destruct H as [H1 H2]. apply Nat.leb_le in H1. apply Nat.ltb_lt in H2.
    assert (Hin : In k (seq start n)) by (apply in_seq; lia).
    apply mem_In in Hin. congruence.
Qed.

(** Writing the keys [start .. start+n-1] in turn into a dictionary whose
    keys are [0 .. start-1]. *)
Lemma dict_keys_fold_seq {V : Type} (step : dict V -> nat -> dict V) :
  (forall m k, dict_keys (step m k) =
               if mem k (dict_keys m) then dict_keys m else dict_keys m ++ [k]) ->
  forall n start m,
    dict_keys m = seq 0 start ->
    dict_keys (fold_left step (seq start n) m) = seq 0 (start + n).
Proof.
  intros Hstep. induction n as [| n IH]; intros start m Hm; simpl.
  - now rewrite Nat.add_0_r.
  - rewrite (IH (S start)).
    + f_equal. lia.
    + rewrite Hstep, Hm, mem_seq.
      replace (start <? start)%nat with false
        by (symmetry; apply Nat.ltb_irrefl).
      now rewrite seq_S.
Qed.

Lemma dict_keys_make_doc2author (n : nat) (author2doc : dict (list nat)) :
  dict_keys (make_doc2author n author2doc) = seq 0 n.
Proof.
  unfold make_doc2author.
  apply (dict_keys_fold_seq
           (fun doc2author d => dict_set doc2author d (authors_of author2doc d))).
  - intros m k. apply dict_keys_set.
  - reflexivity.
Qed.

(** X1: when only [author2doc] is given, the derived [doc2author] has one
    entry per document of the corpus, under the keys 0..n-1 in order, and
    the entry of document [d] lists, each once, exactly the authors whose
    document list contains [d] (an empty list when there is none). *)
Theorem X1_derived_doc2author_shape (n : nat) (author2doc : dict (list nat)) :
  dict_wf author2doc ->
  dict_keys (make_doc2author n author2doc) = seq 0 n
  /\ forall d, (d < n)%nat ->
       exists l,
         dict_get (make_doc2author n author2doc) d = Some l
         /\ NoDup l
         /\ forall a, In a l <-> listed author2doc a d.
Proof.
  intros Hwf. split; [apply dict_keys_make_doc2author |].
  intros d Hd. exists (authors_of author2doc d).
  rewrite dict_get_make_doc2author, (proj2 (Nat.ltb_lt _ _) Hd).
  split; [reflexivity |]. split; [now apply authors_of_NoDup |].
  intros a. rewrite In_authors_of. unfold listed. split.
  - intros [docs [Hin Hd']]. exists docs.
    split; [now apply In_dict_get | assumption].
  - intros [docs [Hget Hd']]. exists docs.
    split; [now apply dict_get_In | assumption].
Qed.

Lemma X1_derived_doc2author_witness :
  dict_keys (make_doc2author 2 [(0%nat, [1%nat]); (3%nat, [0%nat; 1%nat])])
  = seq 0 2
  /\ (forall d, (d < 2)%nat ->
        exists l,
          dict_get
            (make_doc2author 2 [(0%nat, [1%nat]); (3%nat, [0%nat; 1%nat])]) d
          = Some l
          /\ NoDup l
          /\ forall a,
               In a l <->
               listed [(0%nat, [1%nat]); (3%nat, [0%nat; 1%nat])] a d).
Proof.
  apply (X1_derived_doc2author_shape 2
           [(0%nat, [1%nat]); (3%nat, [0%nat; 1%nat])]).
  repeat constructor; simpl; intuition lia.
Defined.

Lemma authors_ids_fold (l : dict (list nat)) (s : set nat) :
  NoDup s ->
  NoDup (fold_left
           (fun s (item : nat * list nat) =>
              fold_left (fun s a => set_add Nat.eq_dec a s) (snd item) s)
           l s)
  /\ forall a,
       In a (fold_left
               (fun s (item : nat * list nat) =>
                  fold_left (fun s a => set_add Nat.eq_dec a s) (snd item) s)
               l s) <->
       In a s \/ exists d a_ids, In (d, a_ids) l /\ In a a_ids.
Proof.
  assert (Inner : forall (ids0 : list nat) (s0 : set nat),
             NoDup s0 ->
             NoDup (fold_left (fun s a => set_add Nat.eq_dec a s) ids0 s0)
             /\ forall a,
                  In a (fold_left (fun s a => set_add Nat.eq_dec a s) ids0 s0)
                  <-> In a s0 \/ In a ids0).
  { induction ids0 as [| x ids0 IH]; intros s0 Hnd; simpl.
    - split; [assumption | tauto].
    - destruct (IH (set_add Nat.eq_dec x s0)) as [H1 H2].
      { now apply set_add_nodup. }
      split; [assumption |]. intros a. rewrite H2, set_add_iff.
      intuition congruence. }
  revert s. induction l as [| [d a_ids] l IH]; intros s Hnd; simpl.
  - split; [assumption |]. intros a. split; [auto |].
    intros [H | [d [a_ids [[] _]]]]. exact H.
  - destruct (Inner a_ids s Hnd) as [I1 I2].
    destruct (IH _ I1) as [H1 H2]. split; [assumption |].
    intros a. rewrite H2, I2. split.
    + intros [[H | H] | [d' [ids' [Hin Ha]]]]; eauto 6.
    + intros [H | [d' [ids' [[Heq | Hin] Ha]]]]; eauto 6.
      injection Heq as <- <-. auto.
Qed.

Lemma dict_keys_append (m : dict (list nat)) (a d : nat) :
  dict_keys (dict_append m a d) = dict_keys m.
Proof.
  unfold dict_append. destruct (dict_get m a) as [l |] eqn:G; [| reflexivity].
  rewrite dict_keys_set, dict_get_mem_keys, G. reflexivity.
Qed.

Lemma dict_keys_make_author2doc (doc2author : dict (list nat)) :
  dict_keys (make_author2doc doc2author)
  = seq 0 (length (authors_ids doc2author)).
Proof.
  unfold make_author2doc.
  apply (dict_keys_fold_seq
           (fun author2doc a =>
              fold_left
                (fun author2doc (item : nat * list nat) =>
                   let (d, a_ids) := item in
                   if mem a a_ids then dict_append author2doc a d
                   else author2doc)
                doc2author (dict_set author2doc a []))).
  - intros m k. rewrite <- dict_keys_set with (v := @nil nat).
    generalize (dict_set m k []). intros m0.
    induction doc2author as [| [d a_ids] l IH] in m0 |- *; simpl;
      [reflexivity |].
    rewrite IH. destruct (mem k a_ids); [apply dict_keys_append | reflexivity].
  - reflexivity.
Qed.

(** X2: when only [doc2author] is given, the derived [author2doc] has the
    keys 0..n-1 in order, where n is the number of distinct author ids
    found in [doc2author] (the length of a duplicate-free list holding
    exactly those ids); so [num_authors] is that number, and the entry of
    [a < n] lists the documents, in the order of [doc2author], whose author
    list contains [a]. *)
Theorem X2_derived_author2doc_shape (doc2author : dict (list nat)) :
  dict_keys (make_author2doc doc2author)
  = seq 0 (length (authors_ids doc2author))
  /\ NoDup (authors_ids doc2author)
  /\ (forall a,
         In a (authors_ids doc2author) <->
         exists d a_ids, In (d, a_ids) doc2author /\ In a a_ids)
  /\ forall a,
       dict_get (make_author2doc doc2author) a =
       if (a <? length (authors_ids doc2author))%nat
       then Some (map fst
                    (filter (fun item : nat * list nat => mem a (snd item))
                       doc2author))
       else None.
Proof.
  split; [apply dict_keys_make_author2doc |].
  destruct (authors_ids_fold doc2author (empty_set nat)) as [Hnd Hin];
    [constructor |].
  split; [exact Hnd |]. split.
  - intros a. unfold authors_ids. rewrite Hin. simpl. tauto.
  - intros a. apply dict_get_make_author2doc.
Qed.

(** X3: deriving [author2doc] from a [doc2author] whose author ids are
    0..n-1, and then [doc2author] again from it, gives back the same
    authors for every document number below the corpus length. *)
Theorem X3_author_maps_round_trip (doc2author : dict (list nat)) (n : nat) :
  dict_wf doc2author ->
  (forall d a_ids a,
      In (d, a_ids) doc2author -> In a a_ids ->
      (a < length (authors_ids doc2author))%nat) ->
  forall d a,
    (d < n)%nat ->
    (listed (make_doc2author n (make_author2doc doc2author)) d a
     <-> listed doc2author d a).
Proof.
  intros Hwf Hids d a Hd.
  assert (Hwf' : dict_wf (make_author2doc doc2author)).
  { unfold dict_wf. rewrite dict_keys_make_author2doc. apply seq_NoDup. }
  unfold listed at 1. rewrite dict_get_make_doc2author.
  rewrite (proj2 (Nat.ltb_lt _ _) Hd). split.
  - intros [l [Hget Hin]]. injection Hget as <-.
    apply In_authors_of in Hin. destruct Hin as [docs [Hin Hd']].
    apply (In_dict_get _ _ _ Hwf') in Hin.
    rewrite dict_get_make_author2doc in Hin.
    destruct (a <? length (authors_ids doc2author))%nat; [| discriminate].
    injection Hin as <-. apply In_docs_of in Hd'.
    destruct Hd' as [a_ids [Hin Ha]]. exists a_ids.
    split; [now apply In_dict_get | assumption].
  - intros [a_ids [Hget Ha]]. exists (authors_of (make_author2doc doc2author) d).
    split; [reflexivity |]. apply In_authors_of.
    exists (docs_of doc2author a). split.
    + apply dict_get_In. rewrite dict_get_make_author2doc.
      apply dict_get_In in Hget.
      now rewrite (proj2 (Nat.ltb_lt _ _) (Hids d a_ids a Hget Ha)).
    + apply In_docs_of. apply dict_get_In in Hget. eauto.
Qed.

Lemma X3_author_maps_witness :
  listed
    (make_doc2author 2
       (make_author2doc [(0%nat, [1%nat; 0%nat]); (1%nat, [1%nat])])) 1 1
  <-> listed [(0%nat, [1%nat; 0%nat]); (1%nat, [1%nat])] 1 1.
Proof.
  apply (X3_author_maps_round_trip
           [(0%nat, [1%nat; 0%nat]); (1%nat, [1%nat])] 2).
  - repeat constructor; simpl; intuition lia.
  - intros d a_ids a [H | [H | []]] Ha; injection H as <- <-;
      simpl in Ha; simpl; lia.
  - lia.
Defined.

(** ** The vocabulary size *)

Lemma list_max_In (l : list nat) : l <> [] -> In (list_max l) l.
Proof.
  induction l as [| x l IH]; [congruence |]. intros _.
  destruct l as [| y l].
  - simpl. left. lia.
  - change (list_max (x :: y :: l)) with (Nat.max x (list_max (y :: l))).
    destruct (Nat.max_spec x (list_max (y :: l))) as [[_ ->] | [_ ->]].
    + right. apply IH. discriminate.
    + now left.
Qed.

Lemma list_max_ge (l : list nat) (k : nat) : In k l -> (k <= list_max l)%nat.
Proof.
  intros H. pose proof (proj1 (list_max_le l (list_max l)) (Nat.le_refl _)) as F.
  rewrite Forall_forall in F. now apply F.
Qed.

(** X4: when [id2word] is supplied the corpus is not consulted for the
    vocabulary.  A non-empty [id2word] gives [num_terms = 1 + max key]:
    every key is a valid term index and the largest one is
    [num_terms - 1].  An empty [id2word] makes the constructor raise the
    empty-vocabulary [ValueError], whatever corpus comes with it. *)
Theorem X4_vocabulary_from_id2word (dict_from_corpus : Corpus -> dict string)
    (args : Args) (id2word : dict string) :
  arg_id2word args = Some id2word ->
  (id2word <> [] ->
   exists n,
     vocabulary_size dict_from_corpus args = Ok (S n)
     /\ (forall k, In k (dict_keys id2word) -> (k <= n)%nat)
     /\ In n (dict_keys id2word))
  /\ (id2word = [] ->
      forall de class_num_topics init_gamma init_lambda,
        __init__ de dict_from_corpus class_num_topics init_gamma init_lambda
          args
        = Raise (ValueError empty_vocabulary_msg)).
Proof.
  intros Hw. split.
  - intros Hne. exists (list_max (dict_keys id2word)).
    unfold vocabulary_size. rewrite Hw.
    assert (Hlen : (0 <? length id2word)%nat = true).
    { destruct id2word; [congruence | reflexivity]. }
    rewrite Hlen. split.
    + destruct (arg_corpus args); reflexivity.
    + split.
      * intros k Hk. now apply list_max_ge.
      * apply list_max_In. unfold dict_keys.
        destruct id2word; [congruence | discriminate].
  - intros -> de class_num_topics init_gamma init_lambda.
    unfold __init__, vocabulary_size. rewrite Hw.
    destruct (arg_corpus args); reflexivity.
Qed.

Lemma X4_vocabulary_witness :
  (exists n,
      vocabulary_size (fun _ => [])
        (mkArgs (Some [unit_doc]) 1
           (Some [(0%nat, "a"%string); (4%nat, "b"%string)]) None
           (Some [(0%nat, [0%nat])]) (1 / 1000) (1 / 100) 1 1 (1 / 2) 1 1)
      = Ok (S n)
      /\ (forall k,
             In k (dict_keys [(0%nat, "a"%string); (4%nat, "b"%string)]) ->
             (k <= n)%nat)
      /\ In n (dict_keys [(0%nat, "a"%string); (4%nat, "b"%string)])).
Proof.
  apply (proj1 (X4_vocabulary_from_id2word (fun _ => [])
                  (mkArgs (Some [unit_doc]) 1
                     (Some [(0%nat, "a"%string); (4%nat, "b"%string)]) None
                     (Some [(0%nat, [0%nat])]) (1 / 1000) (1 / 100) 1 1
                     (1 / 2) 1 1)
                  [(0%nat, "a"%string); (4%nat, "b"%string)] eq_refl)).
  discriminate.
Defined.

(** ** Word counts read back from the document *)

Lemma dict_of_pairs_snoc {V : Type} (l : list (nat * V)) (k : nat) (v : V) :
  dict_of_pairs (l ++ [(k, v)]) = dict_set (dict_of_pairs l) k v.
Proof.
  unfold dict_of_pairs. rewrite fold_left_app. reflexivity.
Qed.

Lemma dict_get_of_pairs_None {V : Type} (l : list (nat * V)) (k : nat) :
  ~ In k (map fst l) -> dict_get (dict_of_pairs l) k = None.
Proof.
  induction l as [| [k0 v0] l IH] using rev_ind; intros H; [reflexivity |].
  rewrite dict_of_pairs_snoc, dict_get_set.
  rewrite map_app, in_app_iff in H. simpl in H.
  destruct (k0 =? k)%nat eqn:E.
  - apply Nat.eqb_eq in E. tauto.
  - apply IH. tauto.
Qed.

Lemma dict_get_of_pairs_unique {V : Type} (l : list (nat * V)) (k : nat) (v : V) :
  NoDup (map fst l) -> In (k, v) l -> dict_get (dict_of_pairs l) k = Some v.
Proof.
  induction l as [| [k0 v0] l IH] using rev_ind; intros Hnd Hin;
    [contradiction |].
  rewrite dict_of_pairs_snoc, dict_get_set.
  rewrite map_app in Hnd. simpl in Hnd.
  apply in_app_iff in Hin. destruct Hin as [Hin | [Heq | []]].
  - destruct (k0 =? k)%nat eqn:E.
    + apply Nat.eqb_eq in E. subst k0. exfalso.
      apply NoDup_remove_2 in Hnd. apply Hnd. rewrite app_nil_r.
      change k with (fst (k, v)). now apply in_map.
    + apply IH; [| assumption].
      apply NoDup_remove_1 in Hnd. now rewrite app_nil_r in Hnd.
  - injection Heq as -> ->. now rewrite Nat.eqb_refl.
Qed.

(** X5: line 251 looks the count up again with [dict(doc).get(v, 0)].  In
    a document whose word ids are pairwise distinct this is the count
    paired with the word, i.e. [cts[vi]]; a word that is not in the
    document counts 0; and when a word id is repeated, the count of its
    last occurrence is the one read, for every occurrence. *)
Theorem X5_doc_count_reads_back (doc : Doc) (v c : nat) :
  (NoDup (ids doc) -> In (v, c) doc -> doc_count doc v = c)
  /\ (~ In v (ids doc) -> doc_count doc v = 0%nat)
  /\ doc_count (doc ++ [(v, c)]) v = c.
Proof.
  unfold doc_count, ids. split; [| split].
  - intros Hnd Hin. now rewrite (dict_get_of_pairs_unique doc v c Hnd Hin).
  - intros Hv. now rewrite dict_get_of_pairs_None.
  - now rewrite dict_of_pairs_snoc, dict_get_set, Nat.eqb_refl.
Qed.

Lemma X5_doc_count_witness :
  doc_count demo_doc 2 = 1%nat /\ doc_count demo_doc 1 = 0%nat.
Proof.
  split.
  - apply (proj1 (X5_doc_count_reads_back demo_doc 2 1)).
    + repeat constructor; simpl; intuition lia.
    + simpl. auto.
  - apply (proj1 (proj2 (X5_doc_count_reads_back demo_doc 1 0))).
    simpl. intuition lia.
Defined.

(** ** More on accumulation loops *)

Lemma accumulate_add {A : Type} (f g : A -> R) (l : list A) :
  accumulate (fun x => f x + g x) l = accumulate f l + accumulate g l.
Proof.
  induction l as [| x l IH]; [rewrite !accumulate_nil; lra |].
  rewrite !accumulate_cons, IH. lra.
Qed.

Lemma accumulate_const {A : Type} (c : R) (l : list A) :
  accumulate (fun _ => c) l = INR (length l) * c.
Proof.
  induction l as [| x l IH]; [rewrite accumulate_nil; simpl; lra |].
  rewrite accumulate_cons, IH. cbn [length]. rewrite S_INR. lra.
Qed.

Lemma accumulate_zero {A : Type} (f : A -> R) (l : list A) :
  (forall x, In x l -> f x = 0) -> accumulate f l = 0.
Proof.
  intros H. rewrite (accumulate_ext f (fun _ => 0) l H), accumulate_const. lra.
Qed.

Lemma accumulate_swap {A B : Type} (f : A -> B -> R) (l1 : list A)
      (l2 : list B) :
  accumulate (fun x => accumulate (fun y => f x y) l2) l1
  = accumulate (fun y => accumulate (fun x => f x y) l1) l2.
Proof.
  induction l1 as [| x l1 IH].
  - rewrite accumulate_nil. symmetry. apply accumulate_zero.
    intros y _. apply accumulate_nil.
  - rewrite accumulate_cons, IH, <- accumulate_add.
    apply accumulate_ext. intros y _. now rewrite accumulate_cons.
Qed.

Lemma accumulate_ge_term {A : Type} (f : A -> R) (l : list A) (x : A) :
  (forall y, In y l -> 0 <= f y) -> In x l -> f x <= accumulate f l.
Proof.
  induction l as [| y l IH]; intros Hpos Hin; [contradiction |].
  rewrite accumulate_cons.
  assert (0 <= f y) by (apply Hpos; now left).
  assert (0 <= accumulate f l).
  { apply accumulate_nonneg. intros z Hz. apply Hpos. now right. }
  destruct Hin as [-> | Hin]; [lra |].
  assert (f x <= accumulate f l).
  { apply IH; [| assumption]. intros z Hz. apply Hpos. now right. }
  lra.
Qed.

Lemma Rdiv_le_one (a b : R) : 0 < b -> a <= b -> a / b <= 1.
Proof.
  intros Hb Hab. unfold Rdiv. apply Rmult_le_reg_r with b; [lra |].
  rewrite Rmult_assoc, Rinv_l; lra.
Qed.

(** ** The weights of a round are probabilities *)

(** X6: after a round, for every word of the document, the topic weights
    [var_phi[v, k]] lie in (0, 1], and so do the author weights
    [var_mu[(v, a)]] when no author is listed twice. *)
Theorem X6_weights_are_probabilities (cfg : Config) (num_docs : nat)
    (authors_d : list nat) (doc : Doc) (s : State) (var_mu : Matrix)
    (v : nat) :
  In v (ids doc) ->
  (forall k, (k < num_topics cfg)%nat -> 0 < expElogbeta s k v) ->
  let s' := fst (iteration_body cfg num_docs authors_d doc s var_mu) in
  let var_mu' := snd (iteration_body cfg num_docs authors_d doc s var_mu) in
  (forall k, (k < num_topics cfg)%nat -> 0 < var_phi s' v k <= 1)
  /\ (NoDup authors_d ->
      forall a, In a authors_d -> 0 < var_mu' v a <= 1).
Proof.
  intros Hv Hpos. cbv zeta. unfold iteration_body. cbn [fst snd var_phi].
  pose proof (proj2 (mem_In _ _) Hv) as Hm. split.
  - intros k Hk. rewrite update_phi_spec, Hm.
    rewrite (proj2 (Nat.ltb_lt _ _) Hk). cbn [andb].
    assert (Hu : 0 < phi_unnorm s var_mu authors_d v k)
      by (apply phi_unnorm_pos; auto).
    assert (Ht : phi_unnorm s var_mu authors_d v k
                 <= phi_total cfg s var_mu authors_d v).
    { unfold phi_total. apply accumulate_ge_term.
      - intros j Hj. left. apply phi_unnorm_pos, Hpos.
        apply in_seq in Hj. lia.
      - apply in_seq. lia. }
    split.
    + apply Rdiv_lt_0_compat; lra.
    + apply Rdiv_le_one; lra.
  - intros Hnd a Ha.
    set (phi' := update_phi cfg s var_mu authors_d doc (var_phi s)).
    rewrite update_mu_spec, Hm, (proj2 (mem_In _ _) Ha). cbn [andb].
    rewrite (proj1 (NoDup_count_occ' Nat.eq_dec authors_d) Hnd a Ha).
    rewrite pow_1.
    assert (Hu : 0 < mu_unnorm cfg s phi' v a) by apply mu_unnorm_pos.
    assert (Ht : mu_unnorm cfg s phi' v a <= mu_total cfg s phi' authors_d v).
    { unfold mu_total. apply accumulate_ge_term; [| assumption].
      intros b _. left. apply mu_unnorm_pos. }
    replace (mu_unnorm cfg s phi' v a * (1 / mu_total cfg s phi' authors_d v))
      with (mu_unnorm cfg s phi' v a / mu_total cfg s phi' authors_d v)
      by (unfold Rdiv; lra).
    split.
    + apply Rdiv_lt_0_compat; lra.
    + apply Rdiv_le_one; lra.
Qed.

Lemma X6_weights_witness :
  let s' := fst (iteration_body demo_config 1 [0%nat; 1%nat] demo_doc
                   demo_state (init_mu [0%nat; 1%nat] demo_doc)) in
  let var_mu' := snd (iteration_body demo_config 1 [0%nat; 1%nat] demo_doc
                        demo_state (init_mu [0%nat; 1%nat] demo_doc)) in
  0 < var_phi s' 2%nat 1%nat <= 1 /\ 0 < var_mu' 2%nat 0%nat <= 1.
Proof.
  cbv zeta.
  destruct (X6_weights_are_probabilities demo_config 1 [0%nat; 1%nat] demo_doc
              demo_state (init_mu [0%nat; 1%nat] demo_doc) 2)
    as [Hphi Hmu].
  - simpl. auto.
  - intros k _. unfold demo_state, const_matrix. cbn. apply exp_pos.
  - split.
    + apply Hphi. simpl. lia.
    + apply Hmu.
      * repeat constructor; simpl; intuition lia.
      * simpl. auto.
Defined.

(** ** The mass of a [tilde_gamma] row *)

(** X7: in a round that raises no exception, the row of [tilde_gamma] of
    an author of the document sums, over the topics, to
    [num_topics * alpha] plus [len(author2doc[a])] times the sum over the
    document's words of [count * var_mu[(v, a)]], where [alpha] is the one
    entry of [self.alpha]: the topic weights of each word sum to 1, so the
    words' counts are only shared out among the topics. *)
Theorem X7_tilde_gamma_row_mass (cfg : Config) (num_docs : nat)
    (authors_d : list nat) (doc : Doc) (s : State) (var_mu : Matrix)
    (a : nat) (docs_a : list nat) :
  check_iteration cfg authors_d doc = Ok tt ->
  In a authors_d ->
  dict_get (author2doc cfg) a = Some docs_a ->
  (0 < num_topics cfg)%nat ->
  (forall k v, 0 < expElogbeta s k v) ->
  let s' := fst (iteration_body cfg num_docs authors_d doc s var_mu) in
  let var_mu' := snd (iteration_body cfg num_docs authors_d doc s var_mu) in
  accumulate (fun k => tilde_gamma s' a k) (seq 0 (num_topics cfg))
  = INR (num_topics cfg) * alpha cfg
    + INR (length docs_a)
      * accumulate (fun vc : nat * nat => INR (snd vc) * var_mu' (fst vc) a) doc.
Proof.
  intros _ Ha Hget HK Hpos. cbv zeta. unfold iteration_body.
  cbn [fst snd tilde_gamma].
  set (phi' := update_phi cfg s var_mu authors_d doc (var_phi s)).
  set (mu' := update_mu cfg s phi' authors_d doc var_mu).
  rewrite (accumulate_ext _
             (fun k => gamma_sum mu' phi' doc a k * INR (length docs_a)
                       + alpha cfg)).
  - rewrite accumulate_add, accumulate_const, accumulate_scale, length_seq.
    unfold gamma_sum. rewrite accumulate_swap.
    rewrite (accumulate_ext _
               (fun vc : nat * nat => INR (snd vc) * mu' (fst vc) a) doc).
    + lra.
    + intros [v c] Hin. cbn [fst snd].
      rewrite (accumulate_ext _
                 (fun k => phi' v k * (INR c * mu' v a))
                 (seq 0 (num_topics cfg)))
        by (intros; lra).
      rewrite accumulate_scale. unfold phi'.
      rewrite update_phi_row_sum; [lra | |].
      * unfold ids. change v with (fst (v, c)). now apply in_map.
      * apply Rgt_not_eq. apply phi_total_pos; auto.
  - intros k Hk. rewrite update_gamma_spec.
    rewrite (proj2 (mem_In _ _) Ha). apply in_seq in Hk.
    assert (Hlt : (k < num_topics cfg)%nat) by lia.
    rewrite (proj2 (Nat.ltb_lt _ _) Hlt). cbn [andb].
    unfold author_len. now rewrite Hget.
Qed.

Lemma X7_tilde_gamma_row_witness :
  let s' := fst (iteration_body duo_config 2%nat [0%nat; 1%nat]
                   [(0%nat, 3%nat)] duo_state
                   (init_mu [0%nat; 1%nat] [(0%nat, 3%nat)])) in
  let var_mu' := snd (iteration_body duo_config 2%nat [0%nat; 1%nat]
                        [(0%nat, 3%nat)] duo_state
                        (init_mu [0%nat; 1%nat] [(0%nat, 3%nat)])) in
  check_iteration duo_config [0%nat; 1%nat] [(0%nat, 3%nat)] = Ok tt
  /\ accumulate (fun k => tilde_gamma s' 1%nat k)
       (seq 0 (num_topics duo_config))
     = INR (num_topics duo_config) * alpha duo_config
       + INR (length [0%nat])
         * accumulate
             (fun vc : nat * nat => INR (snd vc) * var_mu' (fst vc) 1%nat)
             [(0%nat, 3%nat)].
Proof.
  cbv zeta. split; [reflexivity |].
  apply (X7_tilde_gamma_row_mass duo_config 2%nat [0%nat; 1%nat]
           [(0%nat, 3%nat)] duo_state
           (init_mu [0%nat; 1%nat] [(0%nat, 3%nat)]) 1%nat [0%nat]).
  - reflexivity.
  - simpl. auto.
  - reflexivity.
  - simpl. lia.
  - intros k v. cbn. apply exp_pos.
Defined.

(** ** The convergence test of the local solver *)

Lemma meanchange_same (rows cols : nat) (m : Matrix) :
  meanchange rows cols m m = 0.
Proof.
  unfold meanchange. rewrite accumulate_zero.
  - unfold Rdiv. apply Rmult_0_l.
  - intros i _. apply accumulate_zero. intros j _.
    replace (m i j - m i j) with 0 by lra. apply Rabs_R0.
Qed.

(** X8: the mean change of [tilde_lambda] over a round (line 259) is
    always 0, so the lambda half of the convergence test (line 262) holds
    exactly when the array is not empty and the threshold is positive: the
    test is decided by [tilde_gamma] alone. *)
Theorem X8_lambda_test_is_vacuous (cfg : Config) (num_docs : nat)
    (authors_d : list nat) (doc : Doc) (s : State) (var_mu : Matrix) :
  let s1 := fst (iteration_body cfg num_docs authors_d doc s var_mu) in
  meanchange (num_topics cfg) (num_terms cfg) (tilde_lambda s1) (tilde_lambda s)
  = 0
  /\ (meanchange_below (num_topics cfg) (num_terms cfg)
        (tilde_lambda s1) (tilde_lambda s) (threshold cfg) = true
      <-> (num_topics cfg * num_terms cfg <> 0)%nat /\ 0 < threshold cfg).
Proof.
  cbv zeta. unfold iteration_body. cbn [fst tilde_lambda].
  split; [apply meanchange_same |].
  unfold meanchange_below. rewrite meanchange_same.
  destruct (num_topics cfg * num_terms cfg =? 0)%nat eqn:E.
  - apply Nat.eqb_eq in E. split; [discriminate | intros [H _]; contradiction].
  - apply Nat.eqb_neq in E.
    destruct (Rlt_dec 0 (threshold cfg)) as [Hlt | Hge].
    + split; auto.
    + split; [discriminate | intros [_ H]; contradiction].
Qed.

(** ** What the local solver leaves alone *)

Lemma iterate_tilde_gamma_frame (cfg : Config) (num_docs : nat)
      (authors_d : list nat) (doc : Doc) (a k : nat) (s0 : State) :
  ~ In a authors_d ->
  forall n iteration s var_mu,
    tilde_gamma s a k = tilde_gamma s0 a k ->
    tilde_gamma (fst (iterate cfg num_docs authors_d doc n iteration s var_mu))
      a k = tilde_gamma s0 a k.
Proof.
  intros Ha.
  assert (Hm : mem a authors_d = false).
  { destruct (mem a authors_d) eqn:E; [| reflexivity].
    apply mem_In in E. contradiction. }
  apply (iterate_invariant (fun s => tilde_gamma s a k = tilde_gamma s0 a k)).
  - intros s mu H. unfold iteration_body. cbn [fst tilde_gamma].
    rewrite update_gamma_spec, Hm. exact H.
  - intros s c H. exact H.
Qed.

(** X9: processing a document leaves the [tilde_gamma] rows of the
    authors who did not write it as they were, and line 278 still blends
    every row: the [var_gamma] row of such an author moves towards the
    stale [tilde_gamma] row, at the rate [rho(t)] of the step (the base
    [offset + t] being positive), and stays put only where the two
    agree. *)
Theorem X9_rows_of_absent_authors (de : nat -> nat -> Matrix -> Matrix)
    (cfg : Config) (num_docs : nat) (s : State) (d : nat) (doc : Doc)
    (s' : State) (authors_d : list nat) (a : nat) :
  process_doc de cfg num_docs s d doc = Ok s' ->
  0 < offset cfg + INR (t s) ->
  dict_get (doc2author cfg) d = Some authors_d ->
  ~ In a authors_d ->
  forall k,
    tilde_gamma s' a k = tilde_gamma s a k
    /\ var_gamma s' a k
       = (1 - rho cfg (t s)) * var_gamma s a k
         + rho cfg (t s) * tilde_gamma s a k
    /\ (tilde_gamma s a k = var_gamma s a k ->
        var_gamma s' a k = var_gamma s a k).
Proof.
  intros Hrun Hbase Hget Ha k.
  destruct (process_doc_Ok de cfg num_docs s d doc s' Hrun)
    as [authors' [r [Hget' [_ [Hr [_ [_ ->]]]]]]].
  rewrite Hget in Hget'. injection Hget' as <-.
  rewrite (rhot_positive_base cfg (t s) Hbase) in Hr. injection Hr as <-.
  cbn [refresh global_update var_gamma tilde_gamma]. unfold blend.
  destruct (iterate_frame cfg num_docs authors_d doc (iterations cfg) 0 s
              (init_mu authors_d doc)) as [Hg _].
  rewrite Hg.
  rewrite (iterate_tilde_gamma_frame cfg num_docs authors_d doc a k s Ha)
    by reflexivity.
  split; [reflexivity | split; [reflexivity |]].
  intros ->. lra.
Qed.

(** X10: with the default [offset = 1] the first rate is [rho(0) = 1], so
    the first document replaces [var_gamma] by [tilde_gamma] outright, and
    replaces the columns of [var_lambda] of its words by those of
    [tilde_lambda], which no round has written: started from the draws
    ([tilde_lambda = var_lambda]), [var_lambda] is back at the draw after
    the first document. *)
Theorem X10_first_document_rate_one (de : nat -> nat -> Matrix -> Matrix)
    (cfg : Config) (num_docs : nat) (s : State) (d : nat) (doc : Doc)
    (s' : State) :
  offset cfg = 1 ->
  t s = 0%nat ->
  process_doc de cfg num_docs s d doc = Ok s' ->
  (forall a k, var_gamma s' a k = tilde_gamma s' a k)
  /\ (forall k v, var_lambda s' k v
                  = if mem v (ids doc) then tilde_lambda s k v
                    else var_lambda s k v)
  /\ ((forall k v, tilde_lambda s k v = var_lambda s k v) ->
      forall k v, var_lambda s' k v = var_lambda s k v).
Proof.
  intros Hoff Ht Hrun.
  destruct (process_doc_Ok de cfg num_docs s d doc s' Hrun)
    as [authors_d [r [_ [_ [Hr [_ [_ ->]]]]]]].
  assert (Hbase : 0 < offset cfg + INR (t s))
    by (rewrite Hoff, Ht; cbn [INR]; lra).
  rewrite (rhot_positive_base cfg (t s) Hbase), Ht in Hr.
  assert (Hrho : rho cfg 0 = 1).
  { unfold rho. rewrite Hoff. cbn [INR]. rewrite Rplus_0_r.
    apply Rpower_one_base. }
  rewrite Hrho in Hr. injection Hr as <-.
  cbn [refresh global_update var_gamma var_lambda tilde_gamma].
  destruct (iterate_frame cfg num_docs authors_d doc (iterations cfg) 0 s
              (init_mu authors_d doc)) as [Hg [Hl Ht1]].
  rewrite Hl.
  assert (Hcols : forall k v,
             blend_columns 1 (ids doc)
               (var_lambda (fst (iterate cfg num_docs authors_d doc
                                   (iterations cfg) 0 s
                                   (init_mu authors_d doc))))
               (tilde_lambda s) k v
             = if mem v (ids doc) then tilde_lambda s k v
               else var_lambda s k v).
  { intros k v. unfold blend_columns.
    destruct (mem v (ids doc)) eqn:E; [lra |].
    apply iterate_var_lambda_frame; [| reflexivity].
    intros Hin. apply mem_In in Hin. congruence. }
  split; [| split].
  - intros a k. unfold blend. lra.
  - exact Hcols.
  - intros Hsame k v. rewrite Hcols, Hsame. now destruct (mem v (ids doc)).
Qed.

(** ** When a document is processed, and with which error it is not *)

(** X11: when a round runs ([iterations > 0]) on a topic
    ([num_topics > 0]) and the base [offset + t] of the rate is positive,
    a document is processed without an exception exactly when its number
    is a key of [doc2author], it has an author, every author is a row of
    [var_gamma] and a key of [author2doc], it has a word, every word id is
    below [num_terms], and the vectors [self.alpha] and [self.eta] have
    one entry each ([num_terms = 1] for the latter): lines 245 and 252
    store the whole vector in one cell. *)
Theorem X11_process_doc_succeeds_iff (de : nat -> nat -> Matrix -> Matrix)
    (cfg : Config) (num_docs : nat) (s : State) (d : nat) (doc : Doc) :
  (0 < iterations cfg)%nat ->
  (0 < num_topics cfg)%nat ->
  0 < offset cfg + INR (t s) ->
  ((exists s', process_doc de cfg num_docs s d doc = Ok s')
   <-> doc_ok cfg d doc = true
       /\ len_alpha cfg = 1%nat /\ num_terms cfg = 1%nat).
Proof.
  intros Hit HK Hbase. split.
  - intros [s' Hrun].
    destruct (process_doc_Ok_conditions de cfg num_docs s d doc s' Hrun Hit HK)
      as [Hok Hpriors].
    unfold one_entry_priors in Hpriors. apply andb_true_iff in Hpriors.
    destruct Hpriors as [Hlen Hterms].
    apply Nat.eqb_eq in Hlen, Hterms. auto.
  - intros [Hok [Hlen Hterms]].
    destruct (process_doc_total de cfg num_docs s d doc Hok) as [authors_d [_ H]].
    + intros _. unfold one_entry_priors. now rewrite Hlen, Hterms.
    + exact Hbase.
    + eexists. exact H.
Qed.

Lemma X11_process_doc_witness :
  (exists s',
      process_doc demo_expectation duo_config 2 duo_state 0 [(0%nat, 3%nat)]
      = Ok s')
  /\ doc_ok duo_config 0 [(0%nat, 3%nat)] = true
  /\ len_alpha duo_config = 1%nat /\ num_terms duo_config = 1%nat.
Proof.
  split; [| repeat split].
  apply (proj2 (X11_process_doc_succeeds_iff demo_expectation duo_config 2
                  duo_state 0 [(0%nat, 3%nat)]
                  ltac:(simpl; lia) ltac:(simpl; lia) ltac:(cbn; lra))).
  repeat split.
Defined.

(** The part of [process_doc] after the rounds. *)
Lemma process_doc_tail (de : nat -> nat -> Matrix -> Matrix) (cfg : Config)
      (num_docs : nat) (s : State) (d : nat) (doc : Doc)
      (authors_d : list nat) :
  dict_get (doc2author cfg) d = Some authors_d ->
  (if (0 <? iterations cfg)%nat then check_iteration cfg authors_d doc
   else Ok tt) = Ok tt ->
  0 < offset cfg + INR (t s) ->
  process_doc de cfg num_docs s d doc
  = guard (nonempty (ids doc)
           && forallb (fun v => (v <? num_terms cfg)%nat) (ids doc))
          IndexError ;;;
    Ok (refresh de cfg
          (global_update (rho cfg (t s)) doc
             (fst (iterate cfg num_docs authors_d doc (iterations cfg) 0 s
                     (init_mu authors_d doc))))).
Proof.
  intros Hget Hcheck Hbase. unfold process_doc. rewrite Hget, Hcheck.
  cbn [bind].
  pose proof (iterate_frame cfg num_docs authors_d doc (iterations cfg) 0 s
                (init_mu authors_d doc)) as Hframe.
  cbv zeta in Hframe. destruct Hframe as [_ [_ Ht]].
  destruct (iterate cfg num_docs authors_d doc (iterations cfg) 0 s
              (init_mu authors_d doc)) as [s1 var_mu1].
  cbn [fst] in Ht |- *.
  rewrite Ht, (rhot_positive_base cfg (t s) Hbase). reflexivity.
Qed.

Lemma check_gamma_missing_key (cfg : Config) (authors_d : list nat) :
  len_alpha cfg = 1%nat ->
  (forall a, In a authors_d -> (a < num_authors cfg)%nat) ->
  (exists a, In a authors_d /\ dict_get (author2doc cfg) a = None) ->
  check_gamma cfg authors_d = Raise KeyError.
Proof.
  intros Hlen. induction authors_d as [| b l IH]; intros Hrange [a [Ha Hnone]];
    [contradiction |].
  cbn [check_gamma].
  rewrite (proj2 (Nat.leb_gt _ _) (Hrange b (or_introl eq_refl))).
  destruct Ha as [-> | Ha]; [now rewrite Hnone |].
  destruct (dict_get (author2doc cfg) b); [| reflexivity].
  rewrite Hlen. cbn [Nat.eqb guard bind].
  apply IH; [| eauto]. intros c Hc. apply Hrange. now right.
Qed.

(** X12: the exception that escapes a document, the base [offset + t] of
    the rate being positive.  A document number that is no key of
    [doc2author] raises [KeyError] (line 183); a word id that is no
    column of the arrays raises [IndexError] (lines 211-214, or line 281
    when no round runs), and so does an empty document when no round
    runs (line 281).  When a round runs on a topic and on words in range:
    an author who is no row of [Elogtheta] raises [IndexError]
    (line 206); an empty author list raises [ZeroDivisionError]
    (line 234); with the authors in range, an author who is no key of
    [author2doc] raises [KeyError] (line 244) if [self.alpha] has one
    entry; if it has not, and the first author is a key, line 245 raises
    [ValueError]; and with every author a key and [self.alpha] of one
    entry, line 252 raises [ValueError] unless [num_terms = 1]. *)
Theorem X12_process_doc_errors (de : nat -> nat -> Matrix -> Matrix)
    (cfg : Config) (num_docs : nat) (s : State) (d : nat) (doc : Doc) :
  0 < offset cfg + INR (t s) ->
  (dict_get (doc2author cfg) d = None ->
   process_doc de cfg num_docs s d doc = Raise KeyError)
  /\ (forall authors_d,
         dict_get (doc2author cfg) d = Some authors_d ->
         ((exists v, In v (ids doc) /\ (num_terms cfg <= v)%nat) ->
          process_doc de cfg num_docs s d doc = Raise IndexError)
         /\ (ids doc = [] -> iterations cfg = 0%nat ->
             process_doc de cfg num_docs s d doc = Raise IndexError)
         /\ ((0 < iterations cfg)%nat -> (0 < num_topics cfg)%nat ->
             ids doc <> [] ->
             (forall v, In v (ids doc) -> (v < num_terms cfg)%nat) ->
             ((exists a, In a authors_d /\ (num_authors cfg <= a)%nat) ->
              process_doc de cfg num_docs s d doc = Raise IndexError)
             /\ (authors_d = [] ->
                 process_doc de cfg num_docs s d doc = Raise ZeroDivisionError)
             /\ ((forall a, In a authors_d -> (a < num_authors cfg)%nat) ->
                 (len_alpha cfg = 1%nat ->
                  (exists a, In a authors_d
                             /\ dict_get (author2doc cfg) a = None) ->
                  process_doc de cfg num_docs s d doc = Raise KeyError)
                 /\ (forall a rest,
                        authors_d = a :: rest ->
                        dict_get (author2doc cfg) a <> None ->
                        len_alpha cfg <> 1%nat ->
                        process_doc de cfg num_docs s d doc
                        = Raise (ValueError setitem_msg))
                 /\ (authors_d <> [] ->
                     (forall a, In a authors_d ->
                                dict_get (author2doc cfg) a <> None) ->
                     len_alpha cfg = 1%nat ->
                     num_terms cfg <> 1%nat ->
                     process_doc de cfg num_docs s d doc
                     = Raise (ValueError setitem_msg))))).
Proof.
  intros Hbase. split.
  - intros Hget. unfold process_doc. now rewrite Hget.
  - intros authors_d Hget. split; [| split].
    + intros [v [Hv Hle]].
      assert (Hex : existsb (fun v => (num_terms cfg <=? v)%nat) (ids doc)
                    = true).
      { apply existsb_exists. exists v. split; [exact Hv |].
        now apply Nat.leb_le. }
      assert (Hne : nonempty (ids doc) = true)
        by (destruct (ids doc); [contradiction | reflexivity]).
      destruct (0 <? iterations cfg)%nat eqn:Hit.
      * unfold process_doc. rewrite Hget, Hit. unfold check_iteration.
        rewrite Hne, Hex, orb_true_r. reflexivity.
      * rewrite (process_doc_tail de cfg num_docs s d doc authors_d Hget)
          by (rewrite ?Hit; auto).
        rewrite (words_out_of_range (num_terms cfg) (ids doc)) in Hex.
        apply negb_true_iff in Hex. rewrite Hex, andb_false_r. reflexivity.
    + intros Hids Hit.
      rewrite (process_doc_tail de cfg num_docs s d doc authors_d Hget)
        by (rewrite ?Hit; auto).
      rewrite Hids. reflexivity.
    + intros Hit HK Hids Hwords.
      unfold process_doc. rewrite Hget.
      rewrite (proj2 (Nat.ltb_lt _ _) Hit). unfold check_iteration.
      rewrite (proj2 (Nat.ltb_lt _ _) HK).
      assert (Hne : nonempty (ids doc) = true)
        by (destruct (ids doc); [contradiction | reflexivity]).
      assert (Hall : forallb (fun v => (v <? num_terms cfg)%nat) (ids doc)
                     = true).
      { apply forallb_forall. intros v Hv. apply Nat.ltb_lt. auto. }
      rewrite Hne, (words_in_range _ _ Hall).
      split; [| split].
      * intros [a [Ha Hle]].
        assert (Hex : existsb (fun a => (num_authors cfg <=? a)%nat) authors_d
                      = true).
        { apply existsb_exists. exists a. split; [exact Ha |].
          now apply Nat.leb_le. }
        rewrite Hex. reflexivity.
      * intros ->. reflexivity.
      * intros Hrange.
        assert (Hex : existsb (fun a => (num_authors cfg <=? a)%nat) authors_d
                      = false).
        { destruct (existsb _ authors_d) eqn:E; [| reflexivity].
          apply existsb_exists in E. destruct E as [b [Hb Hle]].
          apply Nat.leb_le in Hle. specialize (Hrange b Hb). lia. }
        rewrite Hex. cbn [andb orb negb guard bind].
        split; [| split].
        -- intros Hlen Hmiss.
           assert (Hne' : nonempty authors_d = true).
           { destruct Hmiss as [a [Ha _]].
             destruct authors_d; [contradiction | reflexivity]. }
           rewrite Hne'. cbn [negb guard bind].
           rewrite (check_gamma_missing_key cfg authors_d Hlen Hrange Hmiss).
           reflexivity.
        -- intros a rest -> Hkey Hlen.
           cbn [nonempty negb guard bind check_gamma].
           rewrite (proj2 (Nat.leb_gt _ _) (Hrange a (or_introl eq_refl))).
           destruct (dict_get (author2doc cfg) a); [| congruence].
           rewrite (proj2 (Nat.eqb_neq _ _) Hlen). reflexivity.
        -- intros Hne' Hkeys Hlen Hterms.
           assert (Hnon : nonempty authors_d = true)
             by (destruct authors_d; [contradiction | reflexivity]).
           rewrite Hnon. cbn [negb guard bind].
           assert (Hauthors :
                    forallb (fun a => (a <? num_authors cfg)%nat
                                      && is_some (dict_get (author2doc cfg) a))
                      authors_d = true).
           { apply forallb_forall. intros a Ha.
             rewrite (proj2 (Nat.ltb_lt _ _) (Hrange a Ha)).
             specialize (Hkeys a Ha).
             destruct (dict_get (author2doc cfg) a); [reflexivity | congruence]. }
           destruct (authors_in_range cfg authors_d Hauthors Hlen) as [_ Hg].
           rewrite Hg. cbn [bind].
           rewrite (proj2 (Nat.eqb_neq _ _) Hterms). reflexivity.
Qed.

Lemma X12_process_doc_errors_witness :
  process_doc demo_expectation duo_config 2 duo_state 5 [(0%nat, 3%nat)]
  = Raise KeyError
  /\ process_doc demo_expectation demo_config 1 demo_state 0 demo_doc
     = Raise (ValueError setitem_msg).
Proof.
  split.
  - apply (proj1 (X12_process_doc_errors demo_expectation duo_config 2
                    duo_state 5 [(0%nat, 3%nat)] ltac:(cbn; lra))).
    reflexivity.
  - destruct (proj2 (X12_process_doc_errors demo_expectation demo_config 1
                       demo_state 0 demo_doc ltac:(cbn; lra))
                [0%nat; 1%nat] eq_refl) as [_ [_ H]].
    destruct H as [_ [_ H]].
    + simpl. lia.
    + simpl. lia.
    + discriminate.
    + intros v [<- | [<- | []]]; simpl; lia.
    + destruct H as [_ [H _]].
      * intros a [<- | [<- | []]]; simpl; lia.
      * apply (H 0%nat [1%nat] eq_refl); [discriminate | simpl; lia].
Defined.

Lemma X9_absent_author_witness :
  exists s',
    process_doc demo_expectation duo_config 2 duo_state 0 [(0%nat, 3%nat)]
    = Ok s'
    /\ tilde_gamma s' 2%nat 0%nat = 1
    /\ var_gamma s' 2%nat 0%nat = 1.
Proof.
  destruct (process_doc_total demo_expectation duo_config 2 duo_state 0
              [(0%nat, 3%nat)] eq_refl ltac:(reflexivity) ltac:(cbn; lra))
    as [authors_d [_ Hs']].
  eexists. split; [exact Hs' |].
  destruct (X9_rows_of_absent_authors demo_expectation duo_config 2 duo_state
              0 [(0%nat, 3%nat)] _ [0%nat; 1%nat] 2 Hs'
              ltac:(cbn; lra) eq_refl) with (k := 0%nat)
    as [Htg [_ Hg]].
  - simpl. intuition lia.
  - split; [exact Htg | apply Hg; reflexivity].
Defined.

Lemma X10_first_document_witness :
  exists s',
    process_doc demo_expectation duo_config 2 duo_state 0 [(0%nat, 3%nat)]
    = Ok s'
    /\ (forall a k, var_gamma s' a k = tilde_gamma s' a k)
    /\ (forall k v, var_lambda s' k v = 1).
Proof.
  destruct (process_doc_total demo_expectation duo_config 2 duo_state 0
              [(0%nat, 3%nat)] eq_refl ltac:(reflexivity) ltac:(cbn; lra))
    as [authors_d [_ Hs']].
  eexists. split; [exact Hs' |].
  destruct (X10_first_document_rate_one demo_expectation duo_config 2
              duo_state 0 [(0%nat, 3%nat)] _ eq_refl eq_refl Hs')
    as [Hg [_ Hl]].
  split; [exact Hg |].
  intros k v. rewrite Hl; reflexivity.
Defined.

(** ** Runs over a whole corpus *)

Lemma check_word_bound_doc_total (cfg : Config) (d : nat) (doc : Doc) :
  doc_ok cfg d doc = true -> check_word_bound_doc cfg d doc = Ok tt.
Proof.
  unfold doc_ok, check_word_bound_doc.
  destruct (dict_get (doc2author cfg) d) as [authors_d |]; [| discriminate].
  intros H. apply andb_true_iff in H. destruct H as [H Hdoc].
  apply andb_true_iff in H. destruct H as [Hne Hauthors].
  apply andb_true_iff in Hdoc. destruct Hdoc as [_ Hwords].
  assert (Hex : existsb (fun a => (num_authors cfg <=? a)%nat) authors_d
                = false).
  { destruct (existsb _ authors_d) eqn:E; [| reflexivity].
    apply existsb_exists in E. destruct E as [a [Ha Hle]].
    apply Nat.leb_le in Hle.
    pose proof (proj1 (forallb_forall _ _) Hauthors a Ha) as Hin.
    apply andb_true_iff in Hin. destruct Hin as [Hlt _].
    apply Nat.ltb_lt in Hlt. lia. }
  rewrite Hex, (words_in_range _ _ Hwords), Hne.
  cbn [orb]. rewrite andb_false_r. reflexivity.
Qed.

Lemma check_word_bound_docs_total (cfg : Config) (docs : list (nat * Doc)) :
  forallb (fun p : nat * Doc => doc_ok cfg (fst p) (snd p)) docs = true ->
  check_word_bound_docs cfg docs = Ok tt.
Proof.
  induction docs as [| [d doc] rest IH]; intros H; [reflexivity |].
  cbn [forallb fst snd] in H. apply andb_true_iff in H. destruct H as [Hd Hr].
  cbn [check_word_bound_docs].
  rewrite (check_word_bound_doc_total cfg d doc Hd). cbn [bind]. auto.
Qed.

Section WholeRun.
Variable de : nat -> nat -> Matrix -> Matrix.
Variable cfg : Config.
Hypothesis priors : one_entry_priors cfg = true.
Hypothesis offset_pos : 0 < offset cfg.

Lemma run_corpus_total (num_docs : nat) (docs : list (nat * Doc)) :
  forallb (fun p : nat * Doc => doc_ok cfg (fst p) (snd p)) docs = true ->
  forall s, exists s', run_corpus de cfg num_docs docs s = Ok s'.
Proof.
  induction docs as [| [d doc] rest IH]; intros H s.
  - exists s. reflexivity.
  - cbn [forallb fst snd] in H. apply andb_true_iff in H.
    destruct H as [Hd Hr]. cbn [run_corpus].
    destruct (process_doc_total de cfg num_docs s d doc Hd (fun _ => priors))
      as [authors_d [_ ->]].
    + pose proof (pos_INR (t s)). lra.
    + cbn [bind]. auto.
Qed.

Lemma run_passes_total (c : Corpus) :
  corpus_ok cfg c = true -> eval_every cfg <> 0%nat ->
  forall n s, exists s', run_passes de cfg c n s = Ok s'.
Proof.
  intros Hok Heval. induction n as [| n IH]; intros s.
  - exists s. reflexivity.
  - cbn [run_passes].
    destruct (run_corpus_total (length c) (enumerate c) Hok
                (with_converged s 0)) as [s1 ->].
    cbn [bind]. rewrite (proj2 (Nat.eqb_neq _ _) Heval). cbn [negb guard bind].
    apply IH.
Qed.

Lemma check_theta_bound_one_entry : check_theta_bound cfg = Ok tt.
Proof.
  unfold check_theta_bound. unfold one_entry_priors in priors.
  apply andb_true_iff in priors. destruct priors as [Hlen _].
  rewrite Hlen, orb_true_r. reflexivity.
Qed.

Lemma inference_total (c : Corpus) (corpus_arg : option Corpus)
      (init_gamma init_lambda : Matrix) :
  corpus cfg = Some c ->
  corpus_ok cfg c = true ->
  eval_every cfg <> 0%nat ->
  corpus_arg = None \/ corpus_arg = Some c ->
  exists g l, inference de cfg corpus_arg init_gamma init_lambda = Ok (g, l).
Proof.
  intros Hc Hok Heval Harg.
  assert (Hbound : check_word_bound cfg = Ok tt).
  { unfold check_word_bound. rewrite Hc.
    now apply check_word_bound_docs_total. }
  destruct (run_passes_total c Hok Heval (passes cfg)
              (initial_state de cfg init_gamma init_lambda)) as [s' Hs'].
  unfold inference. rewrite Hc, Hbound, check_theta_bound_one_entry.
  destruct Harg as [-> | ->]; cbn [bind]; rewrite Hs'; cbn [bind];
    eexists; eexists; reflexivity.
Qed.

End WholeRun.

(** X13: [inference] returns a pair of matrices, called without a corpus
    or with [self.corpus], for any number of passes and rounds and any
    draws, when every document of [self.corpus] is well formed for its
    position (its number is a key of [doc2author], it has an author, its
    authors are rows of [var_gamma] and keys of [author2doc], it has a
    word, its word ids are below [num_terms]), the vectors [self.alpha]
    and [self.eta] have one entry each, [offset] is positive and
    [eval_every] is not 0. *)
Theorem X13_inference_succeeds (de : nat -> nat -> Matrix -> Matrix)
    (cfg : Config) (c : Corpus) (init_gamma init_lambda : Matrix) :
  corpus cfg = Some c ->
  corpus_ok cfg c = true ->
  len_alpha cfg = 1%nat ->
  num_terms cfg = 1%nat ->
  0 < offset cfg ->
  eval_every cfg <> 0%nat ->
  (exists g l, inference de cfg None init_gamma init_lambda = Ok (g, l))
  /\ (exists g l, inference de cfg (Some c) init_gamma init_lambda = Ok (g, l)).
Proof.
  intros Hc Hok Hlen Hterms Hoff Heval.
  assert (Hpriors : one_entry_priors cfg = true)
    by (unfold one_entry_priors; now rewrite Hlen, Hterms).
  split; apply (inference_total de cfg Hpriors Hoff c); auto.
Qed.

Lemma X13_inference_witness :
  (exists g l,
      inference demo_expectation duo_config None (const_matrix 1)
        (const_matrix 1) = Ok (g, l))
  /\ (exists g l,
         inference demo_expectation duo_config (Some duo_corpus)
           (const_matrix 1) (const_matrix 1) = Ok (g, l)).
Proof.
  apply (X13_inference_succeeds demo_expectation duo_config duo_corpus
           (const_matrix 1) (const_matrix 1)).
  - reflexivity.
  - reflexivity.
  - reflexivity.
  - reflexivity.
  - cbn. lra.
  - simpl. discriminate.
Defined.

Lemma C3_positivity_witness :
  exists g l,
    inference demo_expectation duo_config None (const_matrix 1)
      (const_matrix 1) = Ok (g, l)
    /\ positive 3 2 g /\ positive 2 1 l.
Proof.
  destruct (inference_total demo_expectation duo_config eq_refl
              ltac:(cbn; lra) duo_corpus None (const_matrix 1)
              (const_matrix 1) eq_refl eq_refl ltac:(discriminate)
              (or_introl eq_refl))
    as [g [l Hrun]].
  exists g, l. split; [exact Hrun |].
  apply (proj2 (C3_positivity_preserved demo_expectation duo_config
                  ltac:(simpl; lra) ltac:(simpl; lra) ltac:(simpl; lra)
                  ltac:(simpl; lra))
           None (const_matrix 1) (const_matrix 1) g l).
  - intros i j _ _. unfold const_matrix. lra.
  - intros i j _ _. unfold const_matrix. lra.
  - exact Hrun.
Defined.

Lemma process_doc_t (de : nat -> nat -> Matrix -> Matrix) (cfg : Config)
      (num_docs : nat) (s : State) (d : nat) (doc : Doc) (s' : State) :
  process_doc de cfg num_docs s d doc = Ok s' -> t s' = S (t s).
Proof.
  intros Hrun.
  destruct (process_doc_Ok de cfg num_docs s d doc s' Hrun)
    as [authors_d [r [_ [_ [_ [_ [_ ->]]]]]]].
  cbn [refresh global_update t].
  now destruct (iterate_frame cfg num_docs authors_d doc (iterations cfg) 0 s
                  (init_mu authors_d doc)) as [_ [_ ->]].
Qed.

Lemma run_corpus_t (de : nat -> nat -> Matrix -> Matrix) (cfg : Config)
      (num_docs : nat) (docs : list (nat * Doc)) :
  forall s s', run_corpus de cfg num_docs docs s = Ok s' ->
               t s' = (t s + length docs)%nat.
Proof.
  induction docs as [| [d doc] rest IH]; intros s s' Hrun.
  - cbn [run_corpus] in Hrun. injection Hrun as <-. cbn [length]. lia.
  - cbn [run_corpus] in Hrun.
    destruct (process_doc de cfg num_docs s d doc) as [s1 | e] eqn:Hd;
      [| discriminate].
    cbn [bind] in Hrun. rewrite (IH s1 s' Hrun), (process_doc_t _ _ _ _ _ _ _ Hd).
    cbn [length]. lia.
Qed.

Lemma length_enumerate {A : Type} (l : list A) :
  length (enumerate l) = length l.
Proof.
  unfold enumerate. rewrite length_combine, length_seq. apply Nat.min_id.
Qed.

Lemma combine_seq_position {A : Type} (l : list A) :
  forall (pre : list (nat * A)) (start n d : nat) (x : A)
         (post : list (nat * A)),
    combine (seq start n) l = pre ++ (d, x) :: post ->
    d = (start + length pre)%nat.
Proof.
  induction l as [| y l IH]; intros pre start n d x post H.
  - rewrite combine_nil in H. now destruct pre.
  - destruct n as [| n]; [now destruct pre |].
    cbn [seq combine] in H. destruct pre as [| q pre].
    + cbn [app] in H. injection H as Hd _ _. cbn [length]. lia.
    + cbn [app] in H. injection H as _ H.
      rewrite (IH pre (S start) n d x post H). cbn [length]. lia.
Qed.

Lemma run_passes_t (de : nat -> nat -> Matrix -> Matrix) (cfg : Config)
      (c : Corpus) :
  forall n s s', run_passes de cfg c n s = Ok s' ->
                 t s' = (t s + n * length c)%nat.
Proof.
  induction n as [| n IH]; intros s s' Hrun.
  - cbn [run_passes] in Hrun. injection Hrun as <-. lia.
  - cbn [run_passes] in Hrun.
    destruct (run_corpus de cfg (length c) (enumerate c) (with_converged s 0))
      as [s1 | e] eqn:Hpass; [| discriminate].
    cbn [bind] in Hrun.
    destruct (guard (negb (eval_every cfg =? 0)%nat) ZeroDivisionError)
      as [[] | e]; [| discriminate].
    cbn [bind] in Hrun.
    rewrite (IH s1 s' Hrun), (run_corpus_t _ _ _ _ _ _ Hpass), length_enumerate.
    cbn [with_converged t]. lia.
Qed.

(** X14: the step counter [t] of the learning rate goes up by one per
    processed document and is never reset between passes.  After [p]
    passes over a corpus it is [p * len(corpus)] higher; document [d] of
    the pass that follows (pass number [p], counted from 0) is reached
    with the counter [p * len(corpus) + d] higher than at the start and,
    when it is processed, [var_gamma] is blended with [tilde_gamma] at the
    rate [pow(offset + t, -decay)] of that value of [t]. *)
Theorem X14_rate_counter (de : nat -> nat -> Matrix -> Matrix) (cfg : Config)
    (c : Corpus) (p : nat) (s s_p : State) :
  run_passes de cfg c p s = Ok s_p ->
  t s_p = (t s + p * length c)%nat
  /\ forall pre d doc post s_d s',
       enumerate c = pre ++ (d, doc) :: post ->
       run_corpus de cfg (length c) pre (with_converged s_p 0) = Ok s_d ->
       process_doc de cfg (length c) s_d d doc = Ok s' ->
       t s_d = (t s + p * length c + d)%nat
       /\ exists r,
            rhot cfg (t s + p * length c + d) = Ok r
            /\ forall a k,
                 var_gamma s' a k
                 = (1 - r) * var_gamma s_d a k + r * tilde_gamma s' a k.
Proof.
  intros Hrun. pose proof (run_passes_t de cfg c p s s_p Hrun) as Hp.
  split; [exact Hp |].
  intros pre d doc post s_d s' Henum Hd Hs'.
  assert (Ht : t s_d = (t s + p * length c + d)%nat).
  { rewrite (run_corpus_t _ _ _ _ _ _ Hd). cbn [with_converged t].
    unfold enumerate in Henum.
    rewrite (combine_seq_position c pre 0 (length c) d doc post Henum), Hp.
    lia. }
  split; [exact Ht |].
  destruct (process_doc_Ok de cfg (length c) s_d d doc s' Hs')
    as [authors_d [r [_ [_ [Hr [_ [_ ->]]]]]]].
  exists r. split; [now rewrite <- Ht |].
  intros a k. cbn [refresh global_update var_gamma tilde_gamma]. unfold blend.
  now destruct (iterate_frame cfg (length c) authors_d doc (iterations cfg) 0
                  s_d (init_mu authors_d doc)) as [-> _].
Qed.

Lemma X14_rate_counter_witness :
  exists s_p s_d s',
    run_passes demo_expectation duo_config duo_corpus 1 duo_state = Ok s_p
    /\ run_corpus demo_expectation duo_config 2
         [(0%nat, [(0%nat, 3%nat)])] (with_converged s_p 0) = Ok s_d
    /\ process_doc demo_expectation duo_config 2 s_d 1 [(0%nat, 1%nat)]
       = Ok s'
    /\ t s_p = 2%nat
    /\ t s_d = 3%nat
    /\ exists r,
         rhot duo_config 3 = Ok r
         /\ forall a k,
              var_gamma s' a k
              = (1 - r) * var_gamma s_d a k + r * tilde_gamma s' a k.
Proof.
  destruct (run_passes_total demo_expectation duo_config eq_refl
              ltac:(cbn; lra) duo_corpus eq_refl ltac:(discriminate) 1
              duo_state) as [s_p Hp].
  destruct (run_corpus_total demo_expectation duo_config eq_refl
              ltac:(cbn; lra) 2 [(0%nat, [(0%nat, 3%nat)])] eq_refl
              (with_converged s_p 0)) as [s_d Hd].
  assert (Hbase : 0 < offset duo_config + INR (t s_d)).
  { pose proof (pos_INR (t s_d)). change (offset duo_config) with 1. lra. }
  destruct (process_doc_total demo_expectation duo_config 2 s_d 1
              [(0%nat, 1%nat)] eq_refl (fun _ => eq_refl) Hbase)
    as [authors_d [_ Hs']].
  destruct (X14_rate_counter demo_expectation duo_config duo_corpus 1
              duo_state s_p Hp) as [Ht Hdoc].
  destruct (Hdoc [(0%nat, [(0%nat, 3%nat)])] 1%nat [(0%nat, 1%nat)] [] s_d _
              eq_refl Hd Hs') as [Htd Hrate].
  exists s_p, s_d. eexists. split; [exact Hp |]. split; [exact Hd |].
  split; [exact Hs' |]. split; [exact Ht |]. split; [exact Htd |].
  exact Hrate.
Defined.

(** ** What [var_lambda] holds after a document *)

Lemma iterate_var_lambda_fresh (cfg : Config) (num_docs : nat)
      (authors_d : list nat) (doc : Doc) (k v : nat) :
  (k < num_topics cfg)%nat -> In v (ids doc) ->
  forall n iteration s var_mu,
    let s1 := fst (iterate cfg num_docs authors_d doc (S n) iteration s var_mu) in
    var_lambda s1 k v
    = eta cfg + INR num_docs * INR (doc_count doc v) * var_phi s1 v k.
Proof.
  intros Hk Hv n iteration s var_mu. cbv zeta.
  set (P := fun s1 : State =>
              var_lambda s1 k v
              = eta cfg + INR num_docs * INR (doc_count doc v) * var_phi s1 v k).
  assert (Hbody : forall s0 mu0,
             P (fst (iteration_body cfg num_docs authors_d doc s0 mu0))).
  { intros s0 mu0. unfold P, iteration_body. cbn [fst var_lambda var_phi].
    rewrite update_lambda_spec, (proj2 (Nat.ltb_lt _ _) Hk),
      (proj2 (mem_In _ _) Hv). reflexivity. }
  change (P (fst (iterate cfg num_docs authors_d doc (S n) iteration s var_mu))).
  cbn [iterate]. pose proof (Hbody s var_mu) as H1.
  destruct (iteration_body cfg num_docs authors_d doc s var_mu) as [s1 mu1].
  cbn [fst] in H1.
  destruct ((0 <? iteration)%nat
            && meanchange_below (num_authors cfg) (num_topics cfg)
                 (tilde_gamma s1) (tilde_gamma s) (threshold cfg)
            && meanchange_below (num_topics cfg) (num_terms cfg)
                 (tilde_lambda s1) (tilde_lambda s) (threshold cfg)).
  - exact H1.
  - apply (iterate_invariant P); [| | exact H1].
    + intros s0 mu0 _. apply Hbody.
    + intros s0 c H. exact H.
Qed.

(** X16: after a document has been processed with at least one round
    (on a positive base [offset + t] of the rate), the entry of
    [var_lambda] of a topic and a word of the document is the blend, at
    the rate of that step, of the closed-form estimate
    [eta + num_docs * count * var_phi[v, k]] of the last round (written
    into [var_lambda] itself at line 252, [eta] being the one entry of
    [self.eta]) with the entry of [tilde_lambda], which still holds what
    it held before the document. *)
Theorem X16_lambda_after_document (de : nat -> nat -> Matrix -> Matrix)
    (cfg : Config) (num_docs : nat) (s : State) (d : nat) (doc : Doc)
    (s' : State) :
  process_doc de cfg num_docs s d doc = Ok s' ->
  (0 < iterations cfg)%nat ->
  0 < offset cfg + INR (t s) ->
  forall k v, (k < num_topics cfg)%nat -> In v (ids doc) ->
    num_terms cfg = 1%nat
    /\ tilde_lambda s' k v = tilde_lambda s k v
    /\ var_lambda s' k v
       = (1 - rho cfg (t s))
         * (eta cfg + INR num_docs * INR (doc_count doc v) * var_phi s' v k)
         + rho cfg (t s) * tilde_lambda s k v.
Proof.
  intros Hrun Hit Hbase k v Hk Hv.
  assert (Hterms : num_terms cfg = 1%nat).
  { destruct (process_doc_Ok_conditions de cfg num_docs s d doc s' Hrun Hit
                ltac:(lia)) as [_ Hpriors].
    unfold one_entry_priors in Hpriors. apply andb_true_iff in Hpriors.
    destruct Hpriors as [_ H]. now apply Nat.eqb_eq in H. }
  split; [exact Hterms |].
  destruct (process_doc_Ok de cfg num_docs s d doc s' Hrun)
    as [authors_d [r [_ [_ [Hr [_ [_ ->]]]]]]].
  rewrite (rhot_positive_base cfg (t s) Hbase) in Hr. injection Hr as <-.
  cbn [refresh global_update var_lambda var_phi tilde_lambda].
  destruct (iterate_frame cfg num_docs authors_d doc (iterations cfg) 0 s
              (init_mu authors_d doc)) as [_ [Hl _]].
  rewrite Hl. split; [reflexivity |].
  unfold blend_columns. rewrite (proj2 (mem_In _ _) Hv).
  destruct (iterations cfg) as [| n]; [lia |].
  now rewrite (iterate_var_lambda_fresh cfg num_docs authors_d doc k v Hk Hv).
Qed.

Lemma X16_lambda_after_document_witness :
  exists s',
    process_doc demo_expectation duo_config 2 duo_state 0 [(0%nat, 3%nat)]
    = Ok s'
    /\ tilde_lambda s' 1%nat 0%nat = 1
    /\ var_lambda s' 1%nat 0%nat
       = (1 - rho duo_config 0)
         * (eta duo_config
            + INR 2 * INR (doc_count [(0%nat, 3%nat)] 0) * var_phi s' 0%nat 1%nat)
         + rho duo_config 0 * 1.
Proof.
  destruct (process_doc_total demo_expectation duo_config 2 duo_state 0
              [(0%nat, 3%nat)] eq_refl ltac:(reflexivity) ltac:(cbn; lra))
    as [authors_d [_ Hs']].
  eexists. split; [exact Hs' |].
  apply (X16_lambda_after_document demo_expectation duo_config 2 duo_state 0
           [(0%nat, 3%nat)] _ Hs').
  - simpl. lia.
  - cbn. lra.
  - simpl. lia.
  - simpl. auto.
Defined.

(** ** The bound evaluator *)

Lemma In_enumerate_from {A : Type} (l : list A) (d : nat) (x : A) :
  forall i, In (d, x) (combine (seq i (length l)) l) ->
            (i <= d)%nat /\ nth_error l (d - i) = Some x.
Proof.
  induction l as [| a l IH]; intros i Hin; [contradiction |].
  cbn [length seq combine] in Hin. destruct Hin as [Heq | Hin].
  - injection Heq as <- <-. rewrite Nat.sub_diag. split; [lia | reflexivity].
  - destruct (IH (S i) Hin) as [Hle Hnth]. split; [lia |].
    replace (d - i)%nat with (S (d - S i)) by lia. exact Hnth.
Qed.

Lemma In_enumerate {A : Type} (l : list A) (d : nat) (x : A) :
  In (d, x) (enumerate l) -> nth_error l d = Some x /\ (d < length l)%nat.
Proof.
  intros Hin. destruct (In_enumerate_from l d x 0 Hin) as [_ Hnth].
  rewrite Nat.sub_0_r in Hnth. split; [exact Hnth |].
  apply nth_error_Some. congruence.
Qed.

Lemma pick_docs_length (c : option Corpus) (doc_ids : list nat) :
  forall picked, pick_docs c doc_ids = Ok picked ->
                 length picked = length doc_ids.
Proof.
  induction doc_ids as [| d rest IH]; intros picked H.
  - cbn [pick_docs] in H. injection H as <-. reflexivity.
  - cbn [pick_docs] in H. destruct c as [docs |]; [| discriminate].
    destruct (nth_error docs d) as [doc |]; [| discriminate].
    destruct (pick_docs (Some docs) rest) as [picked' | e]; [| discriminate].
    cbn [bind] in H. injection H as <-. cbn [length]. now rewrite (IH picked').
Qed.

Lemma pick_docs_all (suffix : list Doc) :
  forall pre,
    pick_docs (Some (pre ++ suffix)) (seq (length pre) (length suffix))
    = Ok suffix.
Proof.
  induction suffix as [| doc suffix IH]; intros pre; [reflexivity |].
  cbn [length seq pick_docs].
  rewrite nth_error_app2 by lia. rewrite Nat.sub_diag. cbn [nth_error].
  specialize (IH (pre ++ [doc])).
  rewrite <- app_assoc, length_app in IH. cbn [length app] in IH.
  rewrite Nat.add_1_r in IH. rewrite IH. reflexivity.
Qed.

Lemma pick_docs_out_of_range (c : Corpus) (doc_ids : list nat) :
  (exists d, In d doc_ids /\ (length c <= d)%nat) ->
  pick_docs (Some c) doc_ids = Raise IndexError.
Proof.
  induction doc_ids as [| d0 rest IH]; intros [d [Hin Hle]]; [contradiction |].
  cbn [pick_docs]. destruct (nth_error c d0) as [doc |] eqn:Hnth;
    [| reflexivity].
  destruct Hin as [-> | Hin].
  - apply nth_error_None in Hle. congruence.
  - rewrite IH by (exists d; auto). reflexivity.
Qed.

Lemma word_bound_docs_check (cfg : Config) (Elogtheta Elogbeta : Matrix)
      (items : list (nat * Doc)) :
  forall bound,
    match check_word_bound_docs cfg items with
    | Ok _ => exists r, word_bound_docs cfg Elogtheta Elogbeta items bound = Ok r
    | Raise e => word_bound_docs cfg Elogtheta Elogbeta items bound = Raise e
    end.
Proof.
  induction items as [| [d doc] rest IH]; intros bound;
    cbn [check_word_bound_docs word_bound_docs].
  - eexists. reflexivity.
  - destruct (check_word_bound_doc cfg d doc) as [[] | e]; cbn [bind];
      [apply IH | reflexivity].
Qed.

Lemma word_bound_check (cfg : Config) (Elogtheta Elogbeta : Matrix) :
  match check_word_bound cfg with
  | Ok _ => exists r, word_bound cfg Elogtheta Elogbeta None = Ok r
  | Raise e => word_bound cfg Elogtheta Elogbeta None = Raise e
  end.
Proof.
  unfold check_word_bound, word_bound, select_docs. cbn [bind].
  destruct (corpus cfg) as [c |]; cbn [enumerate_docs bind];
    [apply word_bound_docs_check | reflexivity].
Qed.

Lemma word_bound_defined (cfg : Config) (Elogtheta Elogbeta : Matrix) :
  check_word_bound cfg = Ok tt ->
  exists r, word_bound cfg Elogtheta Elogbeta None = Ok r.
Proof.
  intros H. pose proof (word_bound_check cfg Elogtheta Elogbeta) as Hc.
  now rewrite H in Hc.
Qed.

Lemma word_bound_Ok_check (cfg : Config) (Elogtheta Elogbeta : Matrix) (r : R) :
  word_bound cfg Elogtheta Elogbeta None = Ok r ->
  check_word_bound cfg = Ok tt.
Proof.
  intros H. pose proof (word_bound_check cfg Elogtheta Elogbeta) as Hc.
  destruct (check_word_bound cfg) as [[] | e]; [reflexivity | congruence].
Qed.

(** X15: [inference] hands back the two draws untouched when no document
    is processed: with [passes = 0], or on an empty corpus when
    [eval_every] is not 0, provided the first evaluation of the bound
    raises no exception: neither [word_bound] over [self.corpus] (line
    170) nor the broadcast of [self.alpha] against a row of [var_gamma] in
    [theta_bound] (lines 171 and 370). *)
Theorem X15_no_document_returns_draws (de : nat -> nat -> Matrix -> Matrix)
    (cfg : Config) (c : Corpus) (init_gamma init_lambda : Matrix)
    (Elogtheta Elogbeta : Matrix) :
  (exists r, word_bound cfg Elogtheta Elogbeta None = Ok r) ->
  check_theta_bound cfg = Ok tt ->
  passes cfg = 0%nat \/ (c = [] /\ eval_every cfg <> 0%nat) ->
  inference de cfg (Some c) init_gamma init_lambda
  = Ok (init_gamma, init_lambda).
Proof.
  intros [r Hr] Htheta Hcase. unfold inference.
  rewrite (word_bound_Ok_check _ _ _ _ Hr), Htheta. cbn [bind].
  assert (Hrun : forall n s, c = [] -> eval_every cfg <> 0%nat ->
                             run_passes de cfg c n s
                             = Ok (match n with
                                   | O => s
                                   | S _ => with_converged s 0
                                   end)).
  { intros n s -> Heval. revert s. induction n as [| n IH]; intros s;
      [reflexivity |].
    cbn [run_passes enumerate length seq combine run_corpus bind].
    rewrite (proj2 (Nat.eqb_neq _ _) Heval). cbn [negb guard bind].
    rewrite IH. now destruct n. }
  destruct Hcase as [-> | [Hc Heval]].
  - reflexivity.
  - rewrite (Hrun _ _ Hc Heval). now destruct (passes cfg).
Qed.

Lemma X15_no_document_witness :
  inference demo_expectation pair_config (Some []) (const_matrix 2)
    (const_matrix 3) = Ok (const_matrix 2, const_matrix 3).
Proof.
  apply (X15_no_document_returns_draws demo_expectation pair_config []
           (const_matrix 2) (const_matrix 3) (const_matrix 0) (const_matrix 0)).
  - apply word_bound_defined. reflexivity.
  - reflexivity.
  - right. split; [reflexivity | simpl; discriminate].
Defined.

Lemma check_word_bound_doc_agree (cfg : Config) (m1 m2 : dict (list nat))
      (d : nat) (doc : Doc) :
  dict_get m1 d = dict_get m2 d ->
  check_word_bound_doc (with_doc2author cfg m1) d doc
  = check_word_bound_doc (with_doc2author cfg m2) d doc.
Proof.
  intros H. unfold check_word_bound_doc.
  cbn [with_doc2author doc2author num_topics num_authors num_terms].
  now rewrite H.
Qed.

Lemma word_bound_docs_agree (cfg : Config) (Elogtheta Elogbeta : Matrix)
      (m1 m2 : dict (list nat)) (items : list (nat * Doc)) :
  (forall d doc, In (d, doc) items -> dict_get m1 d = dict_get m2 d) ->
  forall bound,
    word_bound_docs (with_doc2author cfg m1) Elogtheta Elogbeta items bound
    = word_bound_docs (with_doc2author cfg m2) Elogtheta Elogbeta items bound.
Proof.
  induction items as [| [d doc] rest IH]; intros H bound; [reflexivity |].
  cbn [word_bound_docs].
  rewrite (check_word_bound_doc_agree cfg m1 m2 d doc)
    by (apply (H d doc); now left).
  destruct (check_word_bound_doc (with_doc2author cfg m2) d doc) as [[] | e];
    cbn [bind]; [| reflexivity].
  change (doc2author (with_doc2author cfg m1)) with m1.
  change (doc2author (with_doc2author cfg m2)) with m2.
  rewrite (H d doc) by now left.
  change (word_bound_d (with_doc2author cfg m1))
    with (word_bound_d (with_doc2author cfg m2)).
  apply IH. intros d' doc' Hin. apply (H d' doc'). now right.
Qed.

Lemma log_word_prob_docs_agree (cfg : Config) (norm_gamma norm_lambda : Matrix)
      (m1 m2 : dict (list nat)) (items : list (nat * Doc)) :
  (forall d doc, In (d, doc) items -> dict_get m1 d = dict_get m2 d) ->
  forall acc,
    log_word_prob_docs (with_doc2author cfg m1) norm_gamma norm_lambda items acc
    = log_word_prob_docs (with_doc2author cfg m2) norm_gamma norm_lambda items
        acc.
Proof.
  induction items as [| [d doc] rest IH]; intros H acc; [reflexivity |].
  cbn [log_word_prob_docs].
  rewrite (check_word_bound_doc_agree cfg m1 m2 d doc)
    by (apply (H d doc); now left).
  destruct (check_word_bound_doc (with_doc2author cfg m2) d doc) as [[] | e];
    cbn [bind]; [| reflexivity].
  change (doc2author (with_doc2author cfg m1)) with m1.
  change (doc2author (with_doc2author cfg m2)) with m2.
  rewrite (H d doc) by now left.
  change (log_word_prob_d (with_doc2author cfg m1))
    with (log_word_prob_d (with_doc2author cfg m2)).
  apply IH. intros d' doc' Hin. apply (H d' doc'). now right.
Qed.

(** X17: when [doc_ids] is given, [word_bound] and [log_word_prob] look
    the authors of each selected document up under its position in
    [doc_ids], not under its document number (lines 335-336 and 408-411):
    the result only depends on the entries of [doc2author] whose key is
    below [len(doc_ids)]. *)
Theorem X17_bound_authors_by_position (cfg : Config)
    (Elogtheta Elogbeta var_gamma var_lambda : Matrix) (doc_ids : list nat)
    (m1 m2 : dict (list nat)) :
  (forall i, (i < length doc_ids)%nat -> dict_get m1 i = dict_get m2 i) ->
  word_bound (with_doc2author cfg m1) Elogtheta Elogbeta (Some doc_ids)
  = word_bound (with_doc2author cfg m2) Elogtheta Elogbeta (Some doc_ids)
  /\ log_word_prob (with_doc2author cfg m1) var_gamma var_lambda (Some doc_ids)
     = log_word_prob (with_doc2author cfg m2) var_gamma var_lambda
         (Some doc_ids).
Proof.
  intros H.
  assert (Hitems : forall picked,
             pick_docs (corpus cfg) doc_ids = Ok picked ->
             forall d doc, In (d, doc) (enumerate picked) ->
                           dict_get m1 d = dict_get m2 d).
  { intros picked Hp d doc Hin. apply H.
    rewrite <- (pick_docs_length _ _ _ Hp). now apply In_enumerate in Hin. }
  unfold word_bound, log_word_prob, select_docs.
  change (corpus (with_doc2author cfg m1)) with (corpus cfg).
  change (corpus (with_doc2author cfg m2)) with (corpus cfg).
  destruct (pick_docs (corpus cfg) doc_ids) as [picked | e];
    cbn [bind enumerate_docs]; [| split; reflexivity].
  split.
  - apply word_bound_docs_agree. now apply Hitems.
  - apply log_word_prob_docs_agree. now apply Hitems.
Qed.

Lemma X17_bound_authors_witness :
  word_bound (with_doc2author pair_config [(0%nat, [0%nat]); (1%nat, [1%nat])])
    (const_matrix 0) (const_matrix 0) (Some [1%nat])
  = word_bound (with_doc2author pair_config [(0%nat, [0%nat])])
      (const_matrix 0) (const_matrix 0) (Some [1%nat])
  /\ log_word_prob
       (with_doc2author pair_config [(0%nat, [0%nat]); (1%nat, [1%nat])])
       (const_matrix 1) (const_matrix 1) (Some [1%nat])
     = log_word_prob (with_doc2author pair_config [(0%nat, [0%nat])])
         (const_matrix 1) (const_matrix 1) (Some [1%nat]).
Proof.
  apply (X17_bound_authors_by_position pair_config (const_matrix 0)
           (const_matrix 0) (const_matrix 1) (const_matrix 1) [1%nat]
           [(0%nat, [0%nat]); (1%nat, [1%nat])] [(0%nat, [0%nat])]).
  intros i Hi. cbn [length] in Hi.
  assert (i = 0%nat) as -> by lia. reflexivity.
Defined.

(** X18: the selection by [doc_ids] (lines 329-332).  Listing every
    document number in order gives the bound of the whole corpus; a number
    that is no index of the corpus raises [IndexError]; and the empty list
    gives the bound 0, even without a corpus. *)
Theorem X18_doc_ids_selection (cfg : Config) (Elogtheta Elogbeta : Matrix) :
  (forall c, corpus cfg = Some c ->
             word_bound cfg Elogtheta Elogbeta (Some (seq 0 (length c)))
             = word_bound cfg Elogtheta Elogbeta None)
  /\ (forall c doc_ids,
         corpus cfg = Some c ->
         (exists d, In d doc_ids /\ (length c <= d)%nat) ->
         word_bound cfg Elogtheta Elogbeta (Some doc_ids) = Raise IndexError)
  /\ word_bound cfg Elogtheta Elogbeta (Some []) = Ok 0.
Proof.
  split; [| split].
  - intros c Hc. unfold word_bound, select_docs. rewrite Hc.
    pose proof (pick_docs_all c []) as Hp. cbn [app length] in Hp.
    unfold Corpus in *. rewrite Hp. reflexivity.
  - intros c doc_ids Hc Hbad. unfold word_bound, select_docs. rewrite Hc.
    rewrite (pick_docs_out_of_range c doc_ids Hbad). reflexivity.
  - reflexivity.
Qed.

Lemma X18_doc_ids_witness :
  word_bound pair_config (const_matrix 0) (const_matrix 0)
    (Some [0%nat; 1%nat])
  = word_bound pair_config (const_matrix 0) (const_matrix 0) None
  /\ word_bound pair_config (const_matrix 0) (const_matrix 0)
       (Some [0%nat; 2%nat]) = Raise IndexError.
Proof.
  split.
  - exact (proj1 (X18_doc_ids_selection pair_config (const_matrix 0)
                    (const_matrix 0)) pair_corpus eq_refl).
  - apply (proj1 (proj2 (X18_doc_ids_selection pair_config (const_matrix 0)
                           (const_matrix 0))) pair_corpus [0%nat; 2%nat]
             eq_refl).
    exists 2%nat. split; [simpl; auto | simpl; lia].
Defined.

(** X19: an exception raised by [word_bound] over [self.corpus] does not
    depend on the matrices it is given, and escapes [inference], which
    evaluates the bound before the first pass (line 170), whatever the
    corpus it is called with. *)
Theorem X19_bound_exception_escapes (de : nat -> nat -> Matrix -> Matrix)
    (cfg : Config) (Elogtheta Elogbeta : Matrix) (e : exn) :
  word_bound cfg Elogtheta Elogbeta None = Raise e ->
  (forall Elogtheta' Elogbeta',
      word_bound cfg Elogtheta' Elogbeta' None = Raise e)
  /\ (forall c init_gamma init_lambda,
         inference de cfg (Some c) init_gamma init_lambda = Raise e).
Proof.
  intros Hraise.
  assert (Hcheck : check_word_bound cfg = Raise e).
  { pose proof (word_bound_check cfg Elogtheta Elogbeta) as Hc.
    destruct (check_word_bound cfg) as [[] | e'].
    - destruct Hc as [r Hr]. congruence.
    - congruence. }
  split.
  - intros Et Eb. pose proof (word_bound_check cfg Et Eb) as Hc.
    now rewrite Hcheck in Hc.
  - intros c ig il. unfold inference. cbn [bind]. now rewrite Hcheck.
Qed.

Lemma X19_bound_exception_witness :
  word_bound (with_doc2author pair_config [(0%nat, [0%nat])])
    (const_matrix 0) (const_matrix 0) None = Raise KeyError
  /\ inference demo_expectation
       (with_doc2author pair_config [(0%nat, [0%nat])]) (Some pair_corpus)
       (const_matrix 1) (const_matrix 1) = Raise KeyError.
Proof.
  assert (H : word_bound (with_doc2author pair_config [(0%nat, [0%nat])])
                (const_matrix 0) (const_matrix 0) None = Raise KeyError)
    by reflexivity.
  split; [exact H |].
  apply (proj2 (X19_bound_exception_escapes demo_expectation
                  (with_doc2author pair_config [(0%nat, [0%nat])])
                  (const_matrix 0) (const_matrix 0) KeyError H)).
Defined.

(** ** The prior terms of the bound *)

Section BoundsAtPrior.
Variable gammaln : R -> R.




End BoundsAtPrior.

(** ** The mass of an author's topic list *)

Lemma accumulate_map {A B : Type} (f : B -> R) (g : A -> B) (l : list A) :
  accumulate f (map g l) = accumulate (fun x => f (g x)) l.
Proof.
  induction l as [| x l IH]; [reflexivity |].
  cbn [map]. now rewrite !accumulate_cons, IH.
Qed.

Lemma accumulate_filter_le {A : Type} (f : A -> R) (p : A -> bool)
      (l : list A) :
  (forall x, In x l -> 0 <= f x) ->
  accumulate f (filter p l) <= accumulate f l.
Proof.
  induction l as [| x l IH]; intros H; [cbn [filter]; lra |].
  assert (Hx : 0 <= f x) by (apply H; now left).
  assert (Hl : accumulate f (filter p l) <= accumulate f l).
  { apply IH. intros y Hy. apply H. now right. }
  cbn [filter]. destruct (p x); rewrite ?accumulate_cons; lra.
Qed.

Lemma accumulate_ge_length {A : Type} (f : A -> R) (c : R) (l : list A) :
  (forall x, In x l -> c <= f x) -> INR (length l) * c <= accumulate f l.
Proof.
  induction l as [| x l IH]; intros H.
  - rewrite accumulate_nil. cbn [length INR]. lra.
  - assert (Hx : c <= f x) by (apply H; now left).
    assert (Hl : INR (length l) * c <= accumulate f l).
    { apply IH. intros y Hy. apply H. now right. }
    rewrite accumulate_cons. cbn [length]. rewrite S_INR. lra.
Qed.

(** X21: for an author of the model whose [var_gamma] row is positive,
    [get_author_topics] returns (with the supplied or the default
    threshold) probabilities in (0, 1] whose sum is at most 1, hence at
    most [1 / max(minimum_probability, 1e-8)] topics. *)
Theorem X21_author_topics_mass (m : Model) (author_id : nat)
    (minimum_probability_arg : option R) :
  (author_id < num_authors (self m))%nat ->
  (forall k, (k < num_topics (self m))%nat -> 0 < self_var_gamma m author_id k) ->
  let threshold :=
    Rmax (match minimum_probability_arg with
          | None => minimum_probability (self m)
          | Some p => p
          end) 1e-8 in
  exists l,
    get_author_topics m author_id minimum_probability_arg = Ok l
    /\ (forall k p, In (k, p) l -> 0 < p <= 1)
    /\ accumulate snd l <= 1
    /\ INR (length l) * threshold <= 1.
Proof.
  intros Ha Hpos. cbv zeta. unfold get_author_topics.
  rewrite (proj2 (Nat.ltb_lt _ _) Ha). cbn [guard bind].
  eexists. split; [reflexivity |].
  rewrite enumerate_map_seq.
  set (row := self_var_gamma m author_id).
  set (K := num_topics (self m)).
  set (thr := Rmax _ 1e-8).
  set (keep := fun item : nat * R =>
                 if Rle_dec thr (snd item) then true else false).
  set (dist := map (fun k => (k, row k / accumulate row (seq 0 K))) (seq 0 K)).
  assert (Hterm : forall k, In k (seq 0 K) ->
                            0 < row k / accumulate row (seq 0 K) <= 1).
  { intros k Hk.
    assert (Hrow : forall j, In j (seq 0 K) -> 0 < row j).
    { intros j Hj. apply Hpos. apply in_seq in Hj. fold K. lia. }
    assert (Hk' : 0 < row k) by auto.
    assert (Hle : row k <= accumulate row (seq 0 K)).
    { apply accumulate_ge_term; [| exact Hk].
      intros j Hj. left. auto. }
    split; [apply Rdiv_lt_0_compat; lra | apply Rdiv_le_one; lra]. }
  assert (Hdist : forall item, In item dist -> 0 < snd item <= 1).
  { intros item Hin. apply in_map_iff in Hin.
    destruct Hin as [k [<- Hk]]. cbn [snd]. auto. }
  assert (Hsum : accumulate snd dist <= 1).
  { unfold dist. rewrite accumulate_map. cbn [snd].
    destruct (Nat.eq_dec K 0) as [E | E].
    { rewrite E. cbn [seq]. rewrite accumulate_nil. lra. }
    rewrite (accumulate_ext _ (fun k => row k * / accumulate row (seq 0 K)))
      by (intros; reflexivity).
    rewrite accumulate_scale.
    assert (0 < accumulate row (seq 0 K)).
    { apply accumulate_pos.
      - intros Hs. apply (f_equal (@length nat)) in Hs.
        rewrite length_seq in Hs. cbn [length] in Hs. contradiction.
      - intros j Hj. apply Hpos. apply in_seq in Hj. fold K. lia. }
    rewrite Rinv_r; lra. }
  assert (Hkept : accumulate snd (filter keep dist) <= 1).
  { apply Rle_trans with (accumulate snd dist); [| exact Hsum].
    apply accumulate_filter_le. intros item Hin.
    destruct (Hdist item Hin). lra. }
  split; [| split].
  - intros k p Hin. apply filter_In in Hin. destruct Hin as [Hin _].
    apply (Hdist (k, p) Hin).
  - exact Hkept.
  - apply Rle_trans with (accumulate snd (filter keep dist)); [| exact Hkept].
    apply accumulate_ge_length. intros item Hin.
    apply filter_In in Hin. destruct Hin as [_ Hk]. unfold keep in Hk.
    destruct (Rle_dec thr (snd item)); [assumption | discriminate].
Qed.

Lemma X21_author_topics_witness :
  exists l,
    get_author_topics demo_model 1 None = Ok l
    /\ (forall k p, In (k, p) l -> 0 < p <= 1)
    /\ accumulate snd l <= 1
    /\ INR (length l) * Rmax (minimum_probability (self demo_model)) 1e-8 <= 1.
Proof.
  apply (X21_author_topics_mass demo_model 1 None).
  - simpl. lia.
  - intros k _. unfold demo_model, const_matrix. cbn. lra.
Defined.

(** ** The likelihood reads normalised rows only *)

Lemma normalize_rows_spec (rows cols : nat) (m : Matrix) (i j : nat) :
  normalize_rows rows cols m i j =
  if (i <? rows)%nat && (j <? cols)%nat
  then m i j / accumulate (fun j' => m i j') (seq 0 cols)
  else m i j.
Proof.
  unfold normalize_rows.
  rewrite (fold_writes _ (fun x i j => ((i =? x) && (j <? cols))%nat)
             (fun i j => m i j / accumulate (fun j' => m i j') (seq 0 cols))).
  - now rewrite existsb_row, mem_seq.
  - intros norm x i0 j0.
    destruct ((i0 =? x) && (j0 <? cols))%nat eqn:E; [| reflexivity].
    apply andb_prop in E. destruct E as [Ei _].
    apply Nat.eqb_eq in Ei. now subst.
Qed.

Lemma normalize_rows_scale (rows cols : nat) (m : Matrix) (c : R) (i j : nat) :
  c <> 0 ->
  (i < rows)%nat -> (j < cols)%nat ->
  accumulate (fun j' => m i j') (seq 0 cols) <> 0 ->
  normalize_rows rows cols (fun i' j' => c * m i' j') i j
  = normalize_rows rows cols m i j.
Proof.
  intros Hc Hi Hj Hsum. rewrite !normalize_rows_spec.
  rewrite (proj2 (Nat.ltb_lt _ _) Hi), (proj2 (Nat.ltb_lt _ _) Hj).
  cbn [andb]. cbv beta.
  rewrite (accumulate_ext (fun j' => c * m i j') (fun j' => m i j' * c))
    by (intros; ring).
  rewrite accumulate_scale.
  change (accumulate (fun j' => m i j') (seq 0 cols))
    with (accumulate (m i) (seq 0 cols)) in *.
  field. split; assumption.
Qed.

Lemma fold_left_ext_in {A B : Type} (f g : B -> A -> B) (l : list A) :
  (forall b x, In x l -> f b x = g b x) ->
  forall b, fold_left f l b = fold_left g l b.
Proof.
  induction l as [| x l IH]; intros H b; [reflexivity |].
  cbn [fold_left]. rewrite (H b x) by now left.
  apply IH. intros b' y Hy. apply H. now right.
Qed.

Lemma log_word_prob_v_ext (cfg : Config) (g1 l1 g2 l2 : Matrix)
      (authors_d : list nat) (v : nat) :
  (forall a k, In a authors_d -> (k < num_topics cfg)%nat ->
               g1 a k = g2 a k /\ l1 k v = l2 k v) ->
  log_word_prob_v cfg g1 l1 authors_d v = log_word_prob_v cfg g2 l2 authors_d v.
Proof.
  intros H. unfold log_word_prob_v. apply fold_left_ext_in.
  intros b k Hk. apply in_seq in Hk. apply fold_left_ext_in.
  intros b' a Ha. destruct (H a k Ha ltac:(lia)) as [-> ->]. reflexivity.
Qed.

Lemma log_word_prob_d_ext (cfg : Config) (g1 l1 g2 l2 : Matrix)
      (authors_d : list nat) (doc : Doc) :
  (forall a k v, In a authors_d -> (k < num_topics cfg)%nat ->
                 In v (ids doc) -> g1 a k = g2 a k /\ l1 k v = l2 k v) ->
  log_word_prob_d cfg g1 l1 authors_d doc = log_word_prob_d cfg g2 l2 authors_d doc.
Proof.
  intros H. unfold log_word_prob_d. apply fold_left_ext_in.
  intros b [v c] Hin. apply in_combine_l in Hin.
  rewrite (log_word_prob_v_ext cfg g1 l1 g2 l2 authors_d v); [reflexivity |].
  intros a k Ha Hk. now apply H.
Qed.

Lemma existsb_false_forall {A : Type} (p : A -> bool) (l : list A) (x : A) :
  existsb p l = false -> In x l -> p x = false.
Proof.
  intros H Hin. destruct (p x) eqn:E; [| reflexivity].
  assert (existsb p l = true) by (apply existsb_exists; eauto). congruence.
Qed.

Lemma log_word_prob_docs_ext (cfg : Config) (g1 l1 g2 l2 : Matrix)
      (items : list (nat * Doc)) :
  (forall a k, (a < num_authors cfg)%nat -> (k < num_topics cfg)%nat ->
               g1 a k = g2 a k) ->
  (forall k v, (k < num_topics cfg)%nat -> (v < num_terms cfg)%nat ->
               l1 k v = l2 k v) ->
  forall acc,
    log_word_prob_docs cfg g1 l1 items acc = log_word_prob_docs cfg g2 l2 items acc.
Proof.
  intros Hg Hl. induction items as [| [d doc] rest IH]; intros acc;
    [reflexivity |].
  cbn [log_word_prob_docs].
  destruct (check_word_bound_doc cfg d doc) as [[] | e] eqn:Hcheck;
    cbn [bind]; [| reflexivity].
  rewrite IH.
  unfold check_word_bound_doc in Hcheck.
  destruct (dict_get (doc2author cfg) d) as [authors_d |]; [| discriminate].
  do 3 f_equal.
  apply log_word_prob_d_ext. intros a k v Ha Hk Hv.
  assert (Hids : nonempty (ids doc) = true)
    by (destruct (ids doc); [contradiction | reflexivity]).
  assert (Hauth : nonempty authors_d = true)
    by (destruct authors_d; [contradiction | reflexivity]).
  rewrite Hids, Hauth in Hcheck.
  assert (HK : (0 <? num_topics cfg)%nat = true) by (apply Nat.ltb_lt; lia).
  rewrite HK in Hcheck. cbn [andb] in Hcheck.
  destruct (existsb (fun a => (num_authors cfg <=? a)%nat) authors_d) eqn:E1;
    [discriminate |].
  destruct (existsb (fun v => (num_terms cfg <=? v)%nat) (ids doc)) eqn:E2;
    [discriminate |].
  pose proof (existsb_false_forall _ _ a E1 Ha) as Ha'.
  pose proof (existsb_false_forall _ _ v E2 Hv) as Hv'.
  cbv beta in Ha', Hv'. apply Nat.leb_gt in Ha', Hv'.
  split; [apply Hg | apply Hl]; assumption.
Qed.

(** X22: [log_word_prob] reads [var_gamma] and [var_lambda] through their
    row-normalised copies only (lines 395-400): multiplying each matrix by
    a nonzero constant leaves the result, value or exception, unchanged,
    provided no row of the model has sum 0. *)
Theorem X22_likelihood_scale_invariant (cfg : Config)
    (var_gamma var_lambda : Matrix) (c1 c2 : R)
    (doc_ids : option (list nat)) :
  c1 <> 0 -> c2 <> 0 ->
  (forall a, (a < num_authors cfg)%nat ->
             accumulate (fun k => var_gamma a k) (seq 0 (num_topics cfg)) <> 0) ->
  (forall k, (k < num_topics cfg)%nat ->
             accumulate (fun v => var_lambda k v) (seq 0 (num_terms cfg)) <> 0) ->
  log_word_prob cfg (fun a k => c1 * var_gamma a k)
    (fun k v => c2 * var_lambda k v) doc_ids
  = log_word_prob cfg var_gamma var_lambda doc_ids.
Proof.
  intros Hc1 Hc2 Hg Hl. unfold log_word_prob. cbv zeta.
  destruct (select_docs cfg doc_ids) as [docs | e]; cbn [bind];
    [| reflexivity].
  destruct (enumerate_docs docs) as [items | e]; cbn [bind]; [| reflexivity].
  apply log_word_prob_docs_ext.
  - intros a k Ha Hk. apply normalize_rows_scale; auto.
  - intros k v Hk Hv. apply normalize_rows_scale; auto.
Qed.

Lemma X22_likelihood_scale_witness :
  log_word_prob pair_config (fun a k => 2 * const_matrix 1 a k)
    (fun k v => 3 * const_matrix 1 k v) None
  = log_word_prob pair_config (const_matrix 1) (const_matrix 1) None.
Proof.
  apply (X22_likelihood_scale_invariant pair_config (const_matrix 1)
           (const_matrix 1) 2 3 None).
  - lra.
  - lra.
  - intros a _. unfold accumulate, const_matrix. cbn. lra.
  - intros k _. unfold accumulate, const_matrix. cbn. lra.
Defined.
